(** * Gesture-canvas: gesture pipeline and double-buffered drawing engine

    A shallow embedding of the parts of the repository that the
    specification talks about:

    - [camera-gesture.js]: [recognizeGesture], [getStableGesture],
      [processGestures] (history update) and the coordinate mapping of
      [handleDrawingMovement] / [startDrawing];
    - [drawing-engine.js]: the [DrawingEngine] state and its stroke API
      ([startStroke], [continueStroke], [endStroke], [smoothPoint],
      [drawPoint], [drawLine], [copyTexture], [renderToScreen],
      [swapBuffers], [clear]);
    - [webgl-utils.js]: the vertex shader and the fragment shaders,
      [hexToRgb];
    - [main.js]: [setBrushSize] and the bracket keys of [handleKeyboard].

    Beyond these, the camera loop around them ([onResults],
    [handleGestureChange], [handleDrawingMovement], [startDrawing],
    [continueDrawing], [endDrawing], the slider tap zone), [hexToRgb]
    with [setColor], and of the touch-and-mouse handler
    (unnamed/part_001) [calculatePressure] and the mouse handlers.

    Modelling conventions.

    - A JavaScript number is a [number]: an exact rational, or one of
      [NaN], [+Infinity], [-Infinity].  Finite arithmetic is exact (no
      rounding, no overflow) and the two zeros are identified.  Where a
      property depends on the rounding of binary64 it is stated on
      primitive floats, see [Binary64]; where it depends on magnitudes
      it is stated for bounded coordinates, see [boundedStroke].
    - [Math.sqrt] has no rational value in general; the three places where
      the source uses it ([> 0.1], [< 0.08], [Math.floor (_ / 2)]) are
      embedded by the comparison of squares, see [sqrt_gt], [sqrt_lt] and
      [floor_half_sqrt].
    - The GPU is a store of two textures and the canvas, with the bound
      framebuffer.  A draw call is embedded by what it does to the colour
      buffer it targets, with the program in use at the call: every
      [drawArrays] of the engine runs with [mainProgram] in use,
      [u_color = (1, 1, 1, 1)] and [u_alpha = 1], so the fragment is
      opaque white whatever the texture holds.  The quad of [copyTexture]
      goes through the vertex shader and covers one pixel, see
      [quadCovers].  What the fan draw of [drawPoint] covers is left
      open, see [fanCovers]. *)

From Corelib Require Import PrimFloat.
From Stdlib Require Import QArith ZArith List Bool Lia Lqa.
From Stdlib Require Import Qround Qminmax Qabs.
Import ListNotations.

Set Implicit Arguments.

(* ================================================================== *)
(** * JavaScript numbers *)
(* ================================================================== *)

Module JS.

Inductive number : Type :=
| Fin (q : Q)
| NaN
| PInf
| NInf.

Definition Qltb (a b : Q) : bool := negb (Qle_bool b a).

Definition ofZ (z : Z) : number := Fin (inject_Z z).

Definition isNaN (a : number) : bool :=
  match a with NaN => true | _ => false end.

(** [a < b] *)
Definition lt (a b : number) : bool :=
  match a, b with
  | NaN, _ | _, NaN => false
  | Fin x, Fin y => Qltb x y
  | NInf, NInf => false
  | NInf, _ => true
  | _, NInf => false
  | PInf, _ => false
  | _, PInf => true
  end.

(** [a > b] *)
Definition gt (a b : number) : bool := lt b a.

Definition neg (a : number) : number :=
  match a with
  | Fin q => Fin (- q)
  | NaN => NaN
  | PInf => NInf
  | NInf => PInf
  end.

Definition add (a b : number) : number :=
  match a, b with
  | NaN, _ | _, NaN => NaN
  | Fin x, Fin y => Fin (x + y)
  | PInf, NInf | NInf, PInf => NaN
  | PInf, _ | _, PInf => PInf
  | NInf, _ | _, NInf => NInf
  end.

Definition sub (a b : number) : number := add a (neg b).

(** the sign of a finite factor decides what an infinity becomes *)
Definition scale_inf (x : Q) (inf : number) : number :=
  match x ?= 0 with
  | Eq => NaN
  | Gt => inf
  | Lt => neg inf
  end.

Definition mul (a b : number) : number :=
  match a, b with
  | NaN, _ | _, NaN => NaN
  | Fin x, Fin y => Fin (x * y)
  | Fin x, inf => scale_inf x inf
  | inf, Fin y => scale_inf y inf
  | PInf, PInf | NInf, NInf => PInf
  | PInf, NInf | NInf, PInf => NInf
  end.

(** [x ** 2] and [Math.pow(x, 2)] *)
Definition sq (a : number) : number := mul a a.

(** [Math.sqrt(v) > c] for a constant [c >= 0]: the root of a finite
    [v] exceeds [c] exactly when [v] exceeds [c * c] (a negative [v] has
    root [NaN]); [Math.sqrt(Infinity)] is [Infinity]. *)
Definition sqrt_gt (v : number) (c : Q) : bool :=
  match v with
  | Fin q => Qltb (c * c) q
  | PInf => true
  | NaN | NInf => false
  end.

(** [Math.sqrt(v) < c] for a constant [c > 0] *)
Definition sqrt_lt (v : number) (c : Q) : bool :=
  match v with
  | Fin q => Qle_bool 0 q && Qltb q (c * c)
  | _ => false
  end.

(** [Math.floor(Math.sqrt(q) / 2)] for a finite [q >= 0]: the largest
    integer [n] with [(2 n)^2 <= q]. *)
Definition floor_half_sqrt (q : Q) : Z := Z.sqrt (Qfloor (q / 4)).

(** value equality of numbers ([===] on finite values) *)
Definition eqv (a b : number) : Prop :=
  match a, b with
  | Fin x, Fin y => x == y
  | PInf, PInf | NInf, NInf => True
  | _, _ => False
  end.

End JS.

Import JS.

(* ================================================================== *)
(** * Gesture labels and the stability filter (camera-gesture.js) *)
(* ================================================================== *)

Inductive GestureLabel : Type :=
| none | point | draw | peace | palm | rock | three | tap | fist.

Definition label_eqb (a b : GestureLabel) : bool :=
  match a, b with
  | none, none | point, point | draw, draw | peace, peace | palm, palm
  | rock, rock | three, three | tap, tap | fist, fist => true
  | _, _ => false
  end.

(** [arr.slice(-n)] for an integer [n >= 0]: the last [n] elements, the
    whole array when [n] exceeds the length, and (since [-0] is [0]) the
    whole array when [n = 0]. *)
Definition slice_last {A} (n : nat) (arr : list A) : list A :=
  match n with
  | O => arr
  | _ => skipn (length arr - n) arr
  end.

(** [arr[arr.length - 1]]; [None] stands for [undefined] *)
Definition last_elem {A} (arr : list A) : option A :=
  nth_error arr (length arr - 1).

(** [getStableGesture()], reading [this.gestureHistory] and
    [this.gestureStabilityFrames].  The result [None] is JavaScript's
    [undefined], returned only for an empty history with window 0. *)
Definition getStableGesture (gestureHistory : list GestureLabel)
    (gestureStabilityFrames : nat) : option GestureLabel :=
  if (length gestureHistory <? gestureStabilityFrames)%nat then Some none
  else
    match last_elem gestureHistory with
    | Some recentGesture =>
        let isStable :=
          forallb (fun g => label_eqb g recentGesture)
                  (slice_last gestureStabilityFrames gestureHistory) in
        Some (if isStable then recentGesture else none)
    | None =>
        (* [every] over the empty slice holds: [undefined] is returned *)
        if forallb (fun _ : GestureLabel => false)
                   (slice_last gestureStabilityFrames gestureHistory)
        then None else Some none
    end.

(** The history update of [processGestures]: push, then one [shift] when
    the history is longer than the window. *)
Definition pushHistory (gestureHistory : list GestureLabel)
    (gestureStabilityFrames : nat) (gesture : GestureLabel)
  : list GestureLabel :=
  let h := gestureHistory ++ [gesture] in
  if (gestureStabilityFrames <? length h)%nat then tl h else h.

(* ================================================================== *)
(** * The gesture classifier (camera-gesture.js and its variant) *)
(* ================================================================== *)

(** One landmark of the hand skeleton: [{x, y}] (the depth is not read). *)
Record Landmark : Type := mkLandmark { lx : number; ly : number }.

(** The five per-finger booleans of [recognizeGesture]. *)
Record Fingers : Type := mkFingers {
  indexExtended : bool;
  middleExtended : bool;
  ringExtended : bool;
  pinkyExtended : bool;
  thumbExtended : bool
}.

(** [[i, m, r, p, t].filter(Boolean).length] *)
Definition extendedCount (f : Fingers) : nat :=
  length (filter (fun b : bool => b)
            [indexExtended f; middleExtended f; ringExtended f;
             pinkyExtended f; thumbExtended f]).

(** The landmarks a call reads; a missing entry is [undefined] and
    reading its coordinate throws. *)
Record KeyPoints : Type := mkKeyPoints {
  wrist : Landmark;        (* 0 *)
  thumbTip : Landmark;     (* 4 *)
  indexPip : Landmark;     (* 6 *)
  indexTip : Landmark;     (* 8 *)
  middlePip : Landmark;    (* 10 *)
  middleTip : Landmark;    (* 12 *)
  ringPip : Landmark;      (* 14 *)
  ringTip : Landmark;      (* 16 *)
  pinkyPip : Landmark;     (* 18 *)
  pinkyTip : Landmark      (* 20 *)
}.

Definition keyPoints (landmarks : list Landmark) : option KeyPoints :=
  match nth_error landmarks 0, nth_error landmarks 4,
        nth_error landmarks 6, nth_error landmarks 8,
        nth_error landmarks 10, nth_error landmarks 12,
        nth_error landmarks 14, nth_error landmarks 16,
        nth_error landmarks 18, nth_error landmarks 20 with
  | Some l0, Some l4, Some l6, Some l8, Some l10, Some l12,
    Some l14, Some l16, Some l18, Some l20 =>
      Some (mkKeyPoints l0 l4 l6 l8 l10 l12 l14 l16 l18 l20)
  | _, _, _, _, _, _, _, _, _, _ => None
  end.

(** the sum of squares under [Math.sqrt] in both distances *)
Definition distance2 (a b : Landmark) : number :=
  add (sq (sub (lx a) (lx b))) (sq (sub (ly a) (ly b))).

Definition fingersOf (k : KeyPoints) : Fingers :=
  {| indexExtended := lt (ly (indexTip k)) (ly (indexPip k));
     middleExtended := lt (ly (middleTip k)) (ly (middlePip k));
     ringExtended := lt (ly (ringTip k)) (ly (ringPip k));
     pinkyExtended := lt (ly (pinkyTip k)) (ly (pinkyPip k));
     (* thumbDistanceFromWrist > 0.1 *)
     thumbExtended := sqrt_gt (distance2 (thumbTip k) (wrist k)) (1 # 10) |}.

(** [fingerDistance < 0.08] *)
Definition fingersClose (k : KeyPoints) : bool :=
  sqrt_lt (distance2 (indexTip k) (middleTip k)) (8 # 100).

(** The decision list of [recognizeGesture] in camera-gesture.js. *)
Definition classify (f : Fingers) (close : bool) : GestureLabel :=
  let n := extendedCount f in
  if (4 <=? n)%nat then palm
  else if (n =? 1)%nat && indexExtended f then point
  else if (n =? 2)%nat && indexExtended f && middleExtended f then
    (if close then draw else peace)
  else if (n =? 3)%nat && indexExtended f && pinkyExtended f
          && thumbExtended f then rock
  else if (n =? 3)%nat && indexExtended f && middleExtended f
          && ringExtended f then three
  else if (n =? 1)%nat && thumbExtended f && negb (indexExtended f) then tap
  else if indexExtended f then point
  else none.

(** The decision list of the variant (unnamed/part_000): no [tap] rule. *)
Definition classify_variant (f : Fingers) (close : bool) : GestureLabel :=
  let n := extendedCount f in
  if (4 <=? n)%nat then palm
  else if (n =? 1)%nat && indexExtended f then point
  else if (n =? 2)%nat && indexExtended f && middleExtended f then
    (if close then draw else peace)
  else if (n =? 3)%nat && indexExtended f && pinkyExtended f
          && thumbExtended f then rock
  else if (n =? 3)%nat && indexExtended f && middleExtended f
          && ringExtended f then three
  else if indexExtended f then point
  else none.

(** [recognizeGesture(landmarks)]; [None] is the [TypeError] of reading a
    coordinate of a missing landmark. *)
Definition recognizeGesture (landmarks : list Landmark)
  : option GestureLabel :=
  match keyPoints landmarks with
  | Some k => Some (classify (fingersOf k) (fingersClose k))
  | None => None
  end.

Definition recognizeGesture_variant (landmarks : list Landmark)
  : option GestureLabel :=
  match keyPoints landmarks with
  | Some k => Some (classify_variant (fingersOf k) (fingersClose k))
  | None => None
  end.

(** The fingers of a landmark list, when all read landmarks exist. *)
Definition fingers (landmarks : list Landmark) : option Fingers :=
  option_map fingersOf (keyPoints landmarks).

(* ================================================================== *)
(** * The coordinate mapping (camera-gesture.js) *)
(* ================================================================== *)

(** [(1 - p.x) * width], the mirrored horizontal coordinate *)
Definition mapX (x width : number) : number := mul (sub (Fin 1) x) width.

(** [p.y * height] *)
Definition mapY (y height : number) : number := mul y height.


(** The same expressions, evaluated as the code evaluates them: on
    binary64 numbers, each operation rounded to nearest. *)
Module Binary64.

Definition mapX (x width : float) : float := ((1 - x) * width)%float.

Definition mapY (y height : float) : float := (y * height)%float.




End Binary64.

(* ================================================================== *)
(** * Pixels, shaders and blending (webgl-utils.js, drawPoint) *)
(* ================================================================== *)

(** An RGBA colour with components in [0, 1]. *)
Record Pixel : Type := mkPixel { red : Q; green : Q; blue : Q; alpha : Q }.

(** the clear colour of [setupRenderTargets] and [clear] *)
Definition white : Pixel := mkPixel 1 1 1 1.

(** the content of a texture created with no data *)
Definition transparent : Pixel := mkPixel 0 0 0 0.

(** GLSL [clamp] and [smoothstep] *)
Definition clamp (x lo hi : Q) : Q := Qmin (Qmax x lo) hi.

Definition smoothstep (edge0 edge1 x : Q) : Q :=
  let t := clamp ((x - edge0) / (edge1 - edge0)) 0 1 in
  t * t * (3 - 2 * t).

(** The uniforms [drawPoint] sends for a stamp (to the locations of the
    tool's program, which is not the program in use: see [drawCircle]).
    The eraser sends no colour. *)
Record Uniforms : Type := mkUniforms {
  u_center : Q * Q;
  u_radius : number;
  u_resolution : Q * Q;
  u_color : option (Q * Q * Q * number)
}.

(** [BRUSH_FRAGMENT_SHADER], on the values of its uniforms; [dist] is
    [distance(gl_FragCoord.xy, u_center)] *)
Definition BRUSH_FRAGMENT_SHADER (radius : Q) (color : Pixel) (dist : Q)
  : Pixel :=
  let a := 1 - smoothstep (radius - 1) (radius + 1) dist in
  let a := a * alpha color in
  mkPixel (red color) (green color) (blue color) a.

(** [ERASER_FRAGMENT_SHADER] *)
Definition ERASER_FRAGMENT_SHADER (radius : Q) (dist : Q) : Pixel :=
  let a := smoothstep (radius - 1) (radius + 1) dist in
  mkPixel 1 1 1 a.

Inductive Tool : Type := Pen | Eraser.

Definition isEraser (t : Tool) : bool :=
  match t with Eraser => true | Pen => false end.

Inductive BlendFactor : Type := ZERO | SRC_ALPHA | ONE_MINUS_SRC_ALPHA.

(** the arguments of [gl.blendFunc] that [drawPoint] sets for the tool *)
Definition blendFunc (t : Tool) : BlendFactor * BlendFactor :=
  if isEraser t then (ZERO, ONE_MINUS_SRC_ALPHA)
  else (SRC_ALPHA, ONE_MINUS_SRC_ALPHA).

Definition factor (f : BlendFactor) (src : Pixel) : Q :=
  match f with
  | ZERO => 0
  | SRC_ALPHA => alpha src
  | ONE_MINUS_SRC_ALPHA => 1 - alpha src
  end.

Definition clamp01 (x : Q) : Q := clamp x 0 1.

Definition clampPixel (p : Pixel) : Pixel :=
  mkPixel (clamp01 (red p)) (clamp01 (green p))
          (clamp01 (blue p)) (clamp01 (alpha p)).

(** The blend equation of [gl.blendFunc(sfactor, dfactor)]: each of the
    four components is [src * sfactor + dst * dfactor], the fragment
    colour and the result clamped to [0, 1]. *)
Definition blend (fs : BlendFactor * BlendFactor) (frag dst : Pixel)
  : Pixel :=
  let src := clampPixel frag in
  let s := factor (fst fs) src in
  let d := factor (snd fs) src in
  clampPixel (mkPixel (red src * s + red dst * d)
                      (green src * s + green dst * d)
                      (blue src * s + blue dst * d)
                      (alpha src * s + alpha dst * d)).

(* ================================================================== *)
(** * The GPU store *)
(* ================================================================== *)

(** The content of a colour buffer, by pixel coordinates. *)
Definition Image : Type := Z -> Z -> Pixel.

(** The two textures of [setupRenderTargets] and their framebuffers;
    [createFramebuffer] attaches a texture for good. *)
Inductive TexId : Type := TexA | TexB.
Inductive FbId : Type := FbA | FbB.

Definition attachment (f : FbId) : TexId :=
  match f with FbA => TexA | FbB => TexB end.

(** The render passes issued, latest first. *)
Inductive GLEvent : Type :=
| EvCopy (src : TexId) (target : option FbId)
| EvStamp (t : Tool) (target : option FbId) (u : Uniforms)
| EvClear (target : option FbId).

Record GPU : Type := mkGPU {
  texA : Image;
  texB : Image;
  screen : Image;
  boundFramebuffer : option FbId;
  glTrace : list GLEvent
}.

Definition readTexture (g : GPU) (t : TexId) : Image :=
  match t with TexA => texA g | TexB => texB g end.

(** the colour buffer behind a framebuffer binding; [None] is the canvas *)
Definition readTarget (g : GPU) (target : option FbId) : Image :=
  match target with
  | Some f => readTexture g (attachment f)
  | None => screen g
  end.

Definition writeTarget (g : GPU) (target : option FbId) (img : Image)
  : GPU :=
  match target with
  | Some FbA => mkGPU img (texB g) (screen g) (boundFramebuffer g) (glTrace g)
  | Some FbB => mkGPU (texA g) img (screen g) (boundFramebuffer g) (glTrace g)
  | None => mkGPU (texA g) (texB g) img (boundFramebuffer g) (glTrace g)
  end.

Definition bindFramebuffer (g : GPU) (target : option FbId) : GPU :=
  mkGPU (texA g) (texB g) (screen g) target (glTrace g).

Definition logEvent (g : GPU) (ev : GLEvent) : GPU :=
  mkGPU (texA g) (texB g) (screen g) (boundFramebuffer g) (ev :: glTrace g).

(** [gl.clearColor(1, 1, 1, 1); gl.clear(COLOR_BUFFER_BIT)] on the bound
    framebuffer *)
Definition glClear (g : GPU) : GPU :=
  logEvent (writeTarget g (boundFramebuffer g) (fun _ _ => white))
           (EvClear (boundFramebuffer g)).

(** the [copyTexture] passes into a framebuffer among the passes *)
Definition isSeed (ev : GLEvent) : bool :=
  match ev with EvCopy _ (Some _) => true | _ => false end.

Definition isStamp (ev : GLEvent) : bool :=
  match ev with EvStamp _ _ _ => true | _ => false end.

Definition seedCount (g : GPU) : nat := length (filter isSeed (glTrace g)).
Definition stampCount (g : GPU) : nat := length (filter isStamp (glTrace g)).

(* ================================================================== *)
(** * The drawing engine (drawing-engine.js) *)
(* ================================================================== *)

Record Point : Type := mkPoint { px : number; py : number }.

(** [Math.min(a, b)] *)
Definition Math_min (a b : number) : number :=
  match a, b with
  | NaN, _ | _, NaN => NaN
  | NInf, _ | _, NInf => NInf
  | PInf, x | x, PInf => x
  | Fin x, Fin y => Fin (Qmin x y)
  end.

(** [Math.max(a, b)] *)
Definition Math_max (a b : number) : number :=
  match a, b with
  | NaN, _ | _, NaN => NaN
  | PInf, _ | _, PInf => PInf
  | NInf, x | x, NInf => x
  | Fin x, Fin y => Fin (Qmax x y)
  end.

(** [Math.max(0.1, Math.min(1.0, pressure))], the expression of
    [setPressure], on any number *)
Definition clampPressure (pressure : number) : number :=
  Math_max (Fin (1 # 10)) (Math_min (Fin 1) pressure).

Record StrokePoint : Type := mkStrokePoint {
  sx : number;
  sy : number;
  spressure : number
}.

(** The fields of a [DrawingEngine].  Coordinates and pressures are any
    JavaScript number. *)
Record DrawingEngine : Type := mkEngine {
  canvasWidth : Z;
  canvasHeight : Z;
  currentTool : Tool;
  currentColor : Pixel;
  brushSize : Z;
  isDrawing : bool;
  lastPoint : option Point;
  pressure : number;
  strokePoints : list StrokePoint;
  smoothingFactor : Q;
  frontTexture : TexId;
  backTexture : TexId;
  frontFramebuffer : FbId;
  backFramebuffer : FbId;
  gl : GPU;
  (** the coordinates reported by [console.warn], latest first *)
  warnings : list (number * number)
}.

Definition withTool (e : DrawingEngine) (t : Tool) : DrawingEngine :=
  mkEngine (canvasWidth e) (canvasHeight e) t (currentColor e)
    (brushSize e) (isDrawing e) (lastPoint e) (pressure e)
    (strokePoints e) (smoothingFactor e) (frontTexture e) (backTexture e)
    (frontFramebuffer e) (backFramebuffer e) (gl e) (warnings e).

Definition withColor (e : DrawingEngine) (c : Pixel) : DrawingEngine :=
  mkEngine (canvasWidth e) (canvasHeight e) (currentTool e) c
    (brushSize e) (isDrawing e) (lastPoint e) (pressure e)
    (strokePoints e) (smoothingFactor e) (frontTexture e) (backTexture e)
    (frontFramebuffer e) (backFramebuffer e) (gl e) (warnings e).

Definition withBrushSize (e : DrawingEngine) (s : Z) : DrawingEngine :=
  mkEngine (canvasWidth e) (canvasHeight e) (currentTool e)
    (currentColor e) s (isDrawing e) (lastPoint e) (pressure e)
    (strokePoints e) (smoothingFactor e) (frontTexture e) (backTexture e)
    (frontFramebuffer e) (backFramebuffer e) (gl e) (warnings e).

Definition withIsDrawing (e : DrawingEngine) (b : bool) : DrawingEngine :=
  mkEngine (canvasWidth e) (canvasHeight e) (currentTool e)
    (currentColor e) (brushSize e) b (lastPoint e) (pressure e)
    (strokePoints e) (smoothingFactor e) (frontTexture e) (backTexture e)
    (frontFramebuffer e) (backFramebuffer e) (gl e) (warnings e).

Definition withLastPoint (e : DrawingEngine) (p : option Point)
  : DrawingEngine :=
  mkEngine (canvasWidth e) (canvasHeight e) (currentTool e)
    (currentColor e) (brushSize e) (isDrawing e) p (pressure e)
    (strokePoints e) (smoothingFactor e) (frontTexture e) (backTexture e)
    (frontFramebuffer e) (backFramebuffer e) (gl e) (warnings e).

Definition withPressure (e : DrawingEngine) (p : number) : DrawingEngine :=
  mkEngine (canvasWidth e) (canvasHeight e) (currentTool e)
    (currentColor e) (brushSize e) (isDrawing e) (lastPoint e) p
    (strokePoints e) (smoothingFactor e) (frontTexture e) (backTexture e)
    (frontFramebuffer e) (backFramebuffer e) (gl e) (warnings e).

Definition withStrokePoints (e : DrawingEngine) (l : list StrokePoint)
  : DrawingEngine :=
  mkEngine (canvasWidth e) (canvasHeight e) (currentTool e)
    (currentColor e) (brushSize e) (isDrawing e) (lastPoint e) (pressure e)
    l (smoothingFactor e) (frontTexture e) (backTexture e)
    (frontFramebuffer e) (backFramebuffer e) (gl e) (warnings e).

Definition withGl (e : DrawingEngine) (g : GPU) : DrawingEngine :=
  mkEngine (canvasWidth e) (canvasHeight e) (currentTool e)
    (currentColor e) (brushSize e) (isDrawing e) (lastPoint e) (pressure e)
    (strokePoints e) (smoothingFactor e) (frontTexture e) (backTexture e)
    (frontFramebuffer e) (backFramebuffer e) g (warnings e).

Definition warn (e : DrawingEngine) (x y : number) : DrawingEngine :=
  mkEngine (canvasWidth e) (canvasHeight e) (currentTool e)
    (currentColor e) (brushSize e) (isDrawing e) (lastPoint e) (pressure e)
    (strokePoints e) (smoothingFactor e) (frontTexture e) (backTexture e)
    (frontFramebuffer e) (backFramebuffer e) (gl e) ((x, y) :: warnings e).

(** [setTool], [setColor] (the parsed colour, alpha set to 1),
    [setBrushSize], [setPressure] *)
Definition setTool (e : DrawingEngine) (tool : Tool) : DrawingEngine :=
  withTool e tool.

Definition setColor (e : DrawingEngine) (r g b : Q) : DrawingEngine :=
  withColor e (mkPixel r g b 1).

Definition setBrushSize (e : DrawingEngine) (size : Z) : DrawingEngine :=
  withBrushSize e size.

Definition setPressure (e : DrawingEngine) (p : number) : DrawingEngine :=
  withPressure e (clampPressure p).

(** [swapBuffers] *)
Definition swapBuffers (e : DrawingEngine) : DrawingEngine :=
  mkEngine (canvasWidth e) (canvasHeight e) (currentTool e)
    (currentColor e) (brushSize e) (isDrawing e) (lastPoint e) (pressure e)
    (strokePoints e) (smoothingFactor e) (backTexture e) (frontTexture e)
    (backFramebuffer e) (frontFramebuffer e) (gl e) (warnings e).

(** [VERTEX_SHADER_SOURCE] with the identity transform, followed by the
    viewport transform for the viewport [(0, 0, width, height)]
    ([renderToScreen] sets it in every pass): the window coordinates of
    the vertex [(ax, ay)]. *)
Definition vertexWindow (width height : Z) (ax ay : Q) : Q * Q :=
  let clipX := (ax / inject_Z width) * 2 - 1 in
  let clipY := - ((ay / inject_Z height) * 2 - 1) in
  ((clipX + 1) / 2 * inject_Z width, (clipY + 1) / 2 * inject_Z height).

(** The pixels of a [width] x [height] target that the quad of
    [quadBuffer] covers.  Its vertices are [(-1, -1)], [(1, -1)],
    [(-1, 1)], [(1, 1)], which the vertex shader divides by
    [u_resolution]: a pixel is covered when its centre lies in the
    rectangle between the window positions of [(-1, 1)] and [(1, -1)]. *)
Definition quadCovers (width height : Z) (i j : Z) : bool :=
  let lo := vertexWindow width height (-1) 1 in
  let hi := vertexWindow width height 1 (-1) in
  let cx := inject_Z i + (1 # 2) in
  let cy := inject_Z j + (1 # 2) in
  (0 <=? i)%Z && (i <? width)%Z && (0 <=? j)%Z && (j <? height)%Z
  && Qle_bool (fst lo) cx && Qle_bool cx (fst hi)
  && Qle_bool (snd lo) cy && Qle_bool cy (snd hi).

(** GLSL [mix] and [FRAGMENT_SHADER_SOURCE], the fragment shader of
    [mainProgram]: [mix(texColor, u_color, u_alpha)] *)
Definition mix (x y a : Q) : Q := x * (1 - a) + y * a.

Definition FRAGMENT_SHADER (texColor u_color : Pixel) (u_alpha : Q)
  : Pixel :=
  mkPixel (mix (red texColor) (red u_color) u_alpha)
          (mix (green texColor) (green u_color) u_alpha)
          (mix (blue texColor) (blue u_color) u_alpha)
          (mix (alpha texColor) (alpha u_color) u_alpha).

(** The fragment of [mainProgram] under the uniforms [copyTexture] sets,
    [u_color = (1, 1, 1, 1)] and [u_alpha = 1]: with that [u_alpha] the
    [mix] is [u_color] whatever the texel ([mainFragment_mix]), so the
    sample of the source texture is not modelled. *)
Definition mainFragment : Pixel := white.

(** the blend function in effect outside the fan draw of [drawPoint]:
    [initWebGL] sets it and [drawPoint] restores it *)
Definition defaultBlend : BlendFactor * BlendFactor :=
  (SRC_ALPHA, ONE_MINUS_SRC_ALPHA).

(** [copyTexture(sourceTexture, targetFramebuffer)]: binds the target,
    selects [mainProgram] and draws the quad.  The pass writes the
    blended fragment of [mainProgram] to the pixels the quad covers (one
    pixel, [quadCovers_corner]) and leaves the others: nothing of the
    source texture reaches the target. *)
Definition copyTexture (e : DrawingEngine) (sourceTexture : TexId)
    (targetFramebuffer : option FbId) : DrawingEngine :=
  let g := bindFramebuffer (gl e) targetFramebuffer in
  let dst := readTarget g targetFramebuffer in
  let img : Image := fun i j =>
    if quadCovers (canvasWidth e) (canvasHeight e) i j
    then blend defaultBlend mainFragment (dst i j)
    else dst i j in
  withGl e (logEvent (writeTarget g targetFramebuffer img)
                     (EvCopy sourceTexture targetFramebuffer)).

(** [renderToScreen] *)
Definition renderToScreen (e : DrawingEngine) : DrawingEngine :=
  let e := withGl e (bindFramebuffer (gl e) None) in
  copyTexture e (backTexture e) None.

(** The seed: the [copyTexture] pass from the front texture into the
    back framebuffer with which [drawPoint] starts (lines 226-231). *)
Definition seed (e : DrawingEngine) : DrawingEngine :=
  let e := withGl e (bindFramebuffer (gl e) (Some (backFramebuffer e))) in
  copyTexture e (frontTexture e) (Some (backFramebuffer e)).

(** [clear] *)
Definition clear (e : DrawingEngine) : DrawingEngine :=
  let g := glClear (bindFramebuffer (gl e) (Some (frontFramebuffer e))) in
  let g := glClear (bindFramebuffer g (Some (backFramebuffer e))) in
  renderToScreen (withGl e g).

(** the test with which [drawPoint] rejects a coordinate pair *)
Definition invalidCoordinates (e : DrawingEngine) (x y : number) : bool :=
  isNaN x || isNaN y || lt x (Fin 0) || lt y (Fin 0)
  || gt x (ofZ (canvasWidth e)) || gt y (ofZ (canvasHeight e)).

(** the uniforms of a stamp at the finite centre [(x, y)]; the colour is
    set for the brush program only, and the eraser shader does not read
    it *)
Definition stampUniforms (e : DrawingEngine) (x y : Q) : Uniforms :=
  {| u_center := (x, inject_Z (canvasHeight e) - y);
     u_radius := mul (ofZ (brushSize e)) (pressure e);
     u_resolution := (inject_Z (canvasWidth e), inject_Z (canvasHeight e));
     u_color := if isEraser (currentTool e) then None
                else Some (red (currentColor e), green (currentColor e),
                           blue (currentColor e), pressure e) |}.

(** [smoothPoint(x, y)] *)
Definition smoothPoint (e : DrawingEngine) (x y : number) : Point :=
  if (length (strokePoints e) <? 2)%nat then mkPoint x y
  else
    match last_elem (strokePoints e) with
    | Some lastPoint =>
        let smoothX :=
          add (sx lastPoint)
              (mul (sub x (sx lastPoint)) (Fin (smoothingFactor e))) in
        let smoothY :=
          add (sy lastPoint)
              (mul (sub y (sy lastPoint)) (Fin (smoothingFactor e))) in
        mkPoint smoothX smoothY
    | None => mkPoint x y (* not reached: the array has two entries *)
    end.

(** [Math.max(1, Math.floor(distance / 2))] of [drawLine] *)
Inductive Steps : Type :=
| StepsFin (n : Z)
| StepsNaN
| StepsInf.

Definition lineSteps (x1 y1 x2 y2 : number) : Steps :=
  match add (sq (sub x2 x1)) (sq (sub y2 y1)) with
  | Fin d2 => StepsFin (Z.max 1 (floor_half_sqrt d2))
  | PInf => StepsInf
  | NaN | NInf => StepsNaN
  end.

(** the point of the line at [t = i / steps] *)
Definition linePoint (x1 y1 x2 y2 : number) (steps : Z) (i : nat) : Point :=
  let t := Fin (inject_Z (Z.of_nat i) / inject_Z steps) in
  mkPoint (add x1 (mul (sub x2 x1) t)) (add y1 (mul (sub y2 y1) t)).

Section Rasterizer.

(** Which pixels of the bound framebuffer the fan draw of [drawPoint]
    generates fragments for.  The source does not determine it: the call
    asks for 34 vertices of [circleBuffer], which holds 33, with the
    texture-coordinate array of [copyTexture] still enabled on
    [quadBuffer], which holds 4, and an implementation either refuses
    such a call (INVALID_OPERATION, no pixel) or serves the missing
    vertices.  It is the same for every stamp:
    the vertices are read under [mainProgram], whose uniforms are those
    of [copyTexture], not the stamp's. *)
Variable fanCovers : Z -> Z -> bool.

(** [gl.drawArrays(gl.TRIANGLE_FAN, 0, 34)] in [drawPoint], into the
    bound framebuffer.  The program in use is [mainProgram]:
    [copyTexture] selects it after [drawPoint]'s own [useProgram], and
    nothing selects the tool's program again.  So the uniforms [u] that
    [drawPoint] sends to the locations of the tool's program reach no
    program, and every fragment is that of [mainProgram] under the
    uniforms of [copyTexture]; it is blended with the function
    [drawPoint] sets for the tool. *)
Definition drawCircle (g : GPU) (t : Tool) (u : Uniforms) : GPU :=
  let dst := readTarget g (boundFramebuffer g) in
  let img : Image := fun i j =>
    if fanCovers i j then blend (blendFunc t) mainFragment (dst i j)
    else dst i j in
  logEvent (writeTarget g (boundFramebuffer g) img)
           (EvStamp t (boundFramebuffer g) u).

(** [drawPoint(x, y)] *)
Definition drawPoint (e : DrawingEngine) (x y : number) : DrawingEngine :=
  if invalidCoordinates e x y then warn e x y
  else
    match x, y with
    | Fin qx, Fin qy =>
        let e := seed e in
        let e := withGl e (drawCircle (gl e) (currentTool e)
                                      (stampUniforms e qx qy)) in
        renderToScreen e
    | _, _ => e (* not reached: an accepted coordinate is finite *)
    end.

(** the body of the loop of [drawLine], for [i .. i + count - 1] *)
Fixpoint drawLineFrom (e : DrawingEngine) (x1 y1 x2 y2 : number)
    (steps : Z) (i count : nat) : DrawingEngine :=
  match count with
  | O => e
  | S count' =>
      let p := linePoint x1 y1 x2 y2 steps i in
      drawLineFrom (drawPoint e (px p) (py p)) x1 y1 x2 y2 steps
                   (S i) count'
  end.

(** [drawLine(x1, y1, x2, y2)]; [None] when the loop never ends
    ([steps] is [Infinity]). *)
Definition drawLine (e : DrawingEngine) (x1 y1 x2 y2 : number)
  : option DrawingEngine :=
  match lineSteps x1 y1 x2 y2 with
  | StepsFin n => Some (drawLineFrom e x1 y1 x2 y2 n 0 (S (Z.to_nat n)))
  | StepsNaN => Some e
  | StepsInf => None
  end.

(** [startStroke(x, y, pressure)] *)
Definition startStroke (e : DrawingEngine) (x y : number) (p : number)
  : DrawingEngine :=
  let e := withIsDrawing e true in
  let e := withLastPoint e (Some (mkPoint x y)) in
  let e := withStrokePoints e [mkStrokePoint x y p] in
  let e := setPressure e p in
  drawPoint e x y.

(** [continueStroke(x, y, pressure)] *)
Definition continueStroke (e : DrawingEngine) (x y : number) (p : number)
  : option DrawingEngine :=
  if negb (isDrawing e) then Some e
  else
    let e := setPressure e p in
    let smoothedPoint := smoothPoint e x y in
    let e := withStrokePoints e
               (strokePoints e
                ++ [mkStrokePoint (px smoothedPoint) (py smoothedPoint) p]) in
    let drawn :=
      match lastPoint e with
      | Some lp => drawLine e (px lp) (py lp)
                            (px smoothedPoint) (py smoothedPoint)
      | None => Some e
      end in
    option_map (fun e => withLastPoint e (Some smoothedPoint)) drawn.

(** [endStroke] *)
Definition endStroke (e : DrawingEngine) : DrawingEngine :=
  let e := withIsDrawing e false in
  let e := withLastPoint e None in
  let e := withStrokePoints e [] in
  swapBuffers e.

(** The calls of the engine's API. *)
Inductive Call : Type :=
| CStartStroke (x y : number) (p : number)
| CContinueStroke (x y : number) (p : number)
| CEndStroke
| CSetTool (t : Tool)
| CSetColor (r g b : Q)
| CSetBrushSize (size : Z)
| CClear.

Definition call (e : DrawingEngine) (c : Call) : option DrawingEngine :=
  match c with
  | CStartStroke x y p => Some (startStroke e x y p)
  | CContinueStroke x y p => continueStroke e x y p
  | CEndStroke => Some (endStroke e)
  | CSetTool t => Some (setTool e t)
  | CSetColor r g b => Some (setColor e r g b)
  | CSetBrushSize s => Some (setBrushSize e s)
  | CClear => Some (clear e)
  end.

Fixpoint run (e : DrawingEngine) (cs : list Call) : option DrawingEngine :=
  match cs with
  | [] => Some e
  | c :: cs' =>
      match call e c with
      | Some e' => run e' cs'
      | None => None
      end
  end.

End Rasterizer.

(** The engine after its constructor, for a canvas of the given size:
    fields set, both textures created and cleared to white
    ([setupRenderTargets]), then [clear()]. *)
Definition newEngine (width height : Z) : DrawingEngine :=
  let g0 := mkGPU (fun _ _ => transparent) (fun _ _ => transparent)
                  (fun _ _ => transparent) None [] in
  let g1 := glClear (bindFramebuffer g0 (Some FbA)) in
  let g2 := glClear (bindFramebuffer g1 (Some FbB)) in
  let g3 := bindFramebuffer g2 None in
  clear (mkEngine width height Pen (mkPixel 0 0 0 1) 5 false None (Fin 1) []
                  (1 # 10) TexA TexB FbA FbB g3 []).

(** The render-target invariant: each framebuffer field holds the
    framebuffer of its texture field, and front and back differ. *)
Definition wellFormed (e : DrawingEngine) : Prop :=
  attachment (frontFramebuffer e) = frontTexture e /\
  attachment (backFramebuffer e) = backTexture e /\
  frontTexture e <> backTexture e.

(** the images a reader sees *)
Definition frontImage (e : DrawingEngine) : Image :=
  readTexture (gl e) (frontTexture e).

Definition backImage (e : DrawingEngine) : Image :=
  readTexture (gl e) (backTexture e).

(* ================================================================== *)
(** * Brush size in the application (main.js) *)
(* ================================================================== *)

Record DrawingApp : Type := mkApp {
  appBrushSize : Z;
  drawingEngine : option DrawingEngine
}.

(** [DrawingApp.setBrushSize(size)] *)
Definition appSetBrushSize (app : DrawingApp) (size : Z) : DrawingApp :=
  mkApp size (option_map (fun e => setBrushSize e size) (drawingEngine app)).

(** the two bracket keys of [handleKeyboard] *)
Inductive BracketKey : Type := BracketLeft | BracketRight.

Definition handleKeyboard (app : DrawingApp) (k : BracketKey) : DrawingApp :=
  match k with
  | BracketLeft => appSetBrushSize app (Z.max 1 (appBrushSize app - 1))
  | BracketRight => appSetBrushSize app (Z.min 50 (appBrushSize app + 1))
  end.

(** the application after its constructor and [init] *)
Definition newApp (width height : Z) : DrawingApp :=
  mkApp 5 (Some (newEngine width height)).

(* ================================================================== *)
(** * Statement-side definitions and example inputs *)
(* ================================================================== *)

(** The statement side: the most recent raw label, and a window that is
    full and uniform (the last [N] entries read from the newest end). *)
Definition mostRecent (h : list GestureLabel) : option GestureLabel :=
  hd_error (rev h).

Definition uniformWindow (h : list GestureLabel) (N : nat) : Prop :=
  (N <= length h)%nat /\ exists g, firstn N (rev h) = repeat g N.

(** A hand with the four fingers up and the thumb folded onto the wrist. *)
Definition fourFingersUp : list Landmark :=
  map (fun i : nat =>
         if existsb (Nat.eqb i) [8; 12; 16; 20]%nat
         then mkLandmark (Fin (1 # 2)) (Fin (3 # 10))
         else mkLandmark (Fin (1 # 2)) (Fin (1 # 2)))
      (seq 0 21).

(** Two fan draws for the examples: the call refused (no pixel), and the
    call served with the fan over the pixel of the window corner, where
    the vertices of both vertex buffers lie. *)
Definition noFan (i j : Z) : bool := false.

Definition cornerFan (height : Z) (i j : Z) : bool :=
  (i =? 0)%Z && (j =? height - 1)%Z.

(** The fields a render pass leaves alone. *)
Definition sameControl (e e' : DrawingEngine) : Prop :=
  canvasWidth e' = canvasWidth e /\ canvasHeight e' = canvasHeight e /\
  currentTool e' = currentTool e /\ currentColor e' = currentColor e /\
  brushSize e' = brushSize e /\ isDrawing e' = isDrawing e /\
  lastPoint e' = lastPoint e /\ pressure e' = pressure e /\
  strokePoints e' = strokePoints e /\
  smoothingFactor e' = smoothingFactor e /\
  frontTexture e' = frontTexture e /\ backTexture e' = backTexture e /\
  frontFramebuffer e' = frontFramebuffer e /\
  backFramebuffer e' = backFramebuffer e.

(** The statement side of the boundary validation: a coordinate that is
    not finite, or a finite centre outside [0, width] x [0, height]. *)
Definition nonFinite (a : number) : Prop := a = NaN \/ a = PInf \/ a = NInf.

Definition outsideSurface (e : DrawingEngine) (x y : Q) : Prop :=
  x < 0 \/ inject_Z (canvasWidth e) < x \/
  y < 0 \/ inject_Z (canvasHeight e) < y.

Definition badCentre (e : DrawingEngine) (x y : number) : Prop :=
  nonFinite x \/ nonFinite y \/
  exists qx qy, x = Fin qx /\ y = Fin qy /\ outsideSurface e qx qy.

(** the blend of [smoothPoint], on finite coordinates *)
Definition blendToward (prev raw factor : Q) : Q :=
  prev + (raw - prev) * factor.

(** the engine [continueStroke] hands to [drawLine]: pressure set and the
    new point recorded *)
Definition recorded (e : DrawingEngine) (pt : Point) (p : number)
  : DrawingEngine :=
  withStrokePoints (setPressure e p)
    (strokePoints e ++ [mkStrokePoint (px pt) (py pt) p]).

(** what the passes of a stamp do to an image: the quad of [copyTexture]
    and the fan of [drawPoint] *)
Definition afterCopy (width height : Z) (dst : Image) : Image :=
  fun i j =>
    if quadCovers width height i j
    then blend defaultBlend mainFragment (dst i j)
    else dst i j.

Definition afterFan (fanCovers : Z -> Z -> bool) (t : Tool) (dst : Image)
  : Image :=
  fun i j =>
    if fanCovers i j then blend (blendFunc t) mainFragment (dst i j)
    else dst i j.

(** as many seeds as stamps were issued between [e] and [e'] *)
Definition seedPerStamp (e e' : DrawingEngine) : Prop :=
  (seedCount (gl e') + stampCount (gl e)
   = stampCount (gl e') + seedCount (gl e))%nat.

(** the engine of an 800 x 600 canvas, fresh from its constructor *)
Definition engine0 : DrawingEngine := newEngine 800 600.

(** a stroke of two samples ten pixels apart *)
Definition strokeA : list Call :=
  [CStartStroke (Fin 10) (Fin 10) (Fin 1);
   CContinueStroke (Fin 20) (Fin 10) (Fin 1)].

(** the engine in a stroke that has recorded two points *)
Definition afterTwoPoints : DrawingEngine :=
  match run noFan engine0 strokeA with
  | Some e => e
  | None => engine0
  end.

(** an image of one colour *)
Definition uniformImage (p : Pixel) : Image := fun _ _ => p.




Definition inBrushRange (n : Z) : Prop := (1 <= n <= 50)%Z.

(** the engine's brush size follows the application's *)
Definition brushInSync (app : DrawingApp) : Prop :=
  match drawingEngine app with
  | Some e => brushSize e = appBrushSize app
  | None => True
  end.

(* ================================================================== *)
(** * Pixels (statement side) *)
(* ================================================================== *)

(** a colour a texture can hold: every component in [0, 1] *)
Definition validPixel (p : Pixel) : Prop :=
  (0 <= red p <= 1) /\ (0 <= green p <= 1) /\
  (0 <= blue p <= 1) /\ (0 <= alpha p <= 1).

(** the same colour, component by component *)
Definition pixelEq (p q : Pixel) : Prop :=
  red p == red q /\ green p == green q /\
  blue p == blue q /\ alpha p == alpha q.

(* ================================================================== *)
(** * Invariants of the drawing engine (statement side) *)
(* ================================================================== *)

(** the range [setPressure] clamps to *)
Definition pressureInRange (e : DrawingEngine) : Prop :=
  exists q, pressure e = Fin q /\ 1 # 10 <= q <= 1.

(** a call whose pressure sample, if it has one, is not [NaN] *)
Definition definedSample (c : Call) : bool :=
  match c with
  | CStartStroke _ _ p | CContinueStroke _ _ p => negb (isNaN p)
  | _ => true
  end.

(** A stroke in progress has a last point, which is the last recorded
    stroke point; an idle engine has neither. *)
Definition strokeState (e : DrawingEngine) : Prop :=
  if isDrawing e
  then exists lp sp,
      lastPoint e = Some lp /\ last_elem (strokePoints e) = Some sp /\
      sx sp = px lp /\ sy sp = py lp
  else lastPoint e = None /\ strokePoints e = [].

(** An image whose pixels are colours a texture can hold, and whose
    pixel under the quad of [copyTexture] is opaque unless the fan draw
    reaches it. *)
Definition settledImage (fanCovers : Z -> Z -> bool) (width height : Z)
    (img : Image) : Prop :=
  forall i j,
    validPixel (img i j) /\
    (quadCovers width height i j = true -> fanCovers i j = false ->
     alpha (img i j) == 1).

Definition texturesSettled (fanCovers : Z -> Z -> bool) (e : DrawingEngine)
  : Prop :=
  settledImage fanCovers (canvasWidth e) (canvasHeight e) (frontImage e) /\
  settledImage fanCovers (canvasWidth e) (canvasHeight e) (backImage e).

(** an image that is white at every pixel *)
Definition whiteImage (img : Image) : Prop :=
  forall i j, pixelEq (img i j) white.

(** a call that selects no tool outside [allowed] *)
Definition callAllowed (allowed : Tool -> bool) (c : Call) : bool :=
  match c with
  | CSetTool t => allowed t
  | _ => true
  end.

(** The render-target invariant, a tool among [allowed], and a property
    [I] of images that holds of the front and of the back image. *)
Definition keepsImages (allowed : Tool -> bool)
    (I : Z -> Z -> Image -> Prop) (e : DrawingEngine) : Prop :=
  wellFormed e /\ allowed (currentTool e) = true /\
  I (canvasWidth e) (canvasHeight e) (frontImage e) /\
  I (canvasWidth e) (canvasHeight e) (backImage e).

Definition anyTool (t : Tool) : bool := true.

Definition isPen (t : Tool) : bool := negb (isEraser t).

(** the calls that commit or reset the image *)
Definition changesFront (c : Call) : bool :=
  match c with
  | CEndStroke | CClear => true
  | _ => false
  end.

(* ================================================================== *)
(** * The camera pipeline (camera-gesture.js) *)
(* ================================================================== *)

(** How a call ends: it returns, it throws, or its loop never ends. *)
Inductive Outcome (A : Type) : Type :=
| Done (a : A)
| Throws
| Hangs.

Arguments Done {A} a.
Arguments Throws {A}.
Arguments Hangs {A}.

(** The fields of a [CameraGestureDetector] that the gesture pipeline
    reads and writes.  [None] for [currentGesture] is [undefined]. *)
Record Detector : Type := mkDetector {
  detIsDrawing : bool;
  currentGesture : option GestureLabel;
  detHistory : list GestureLabel;
  stabilityFrames : nat;
  lastFingerPos : option Point;
  detEngine : DrawingEngine
}.

(** the detector after its constructor, on a given engine; the window
    [gestureStabilityFrames] is 1 in the source *)
Definition newDetector (engine : DrawingEngine) (window : nat) : Detector :=
  mkDetector false (Some none) [] window None engine.

(** [drawingGestures.includes(g)] of [handleDrawingMovement] *)
Definition isDrawingGesture (g : option GestureLabel) : bool :=
  match g with
  | Some point | Some draw | Some peace | Some palm | Some three => true
  | _ => false
  end.

Definition gesture_eqb (a b : option GestureLabel) : bool :=
  match a, b with
  | Some x, Some y => label_eqb x y
  | None, None => true
  | _, _ => false
  end.

(** What a tap on a zone of [setupTapZones] does to the engine: a tool
    or colour button is clicked ([selectTool], [selectColor]), the clear
    button is clicked and [clearCanvas] is called once more, the slider
    is set ([setBrushSize]). *)
Inductive UiAction : Type :=
| UiTool (t : Tool)
| UiColor (r g b : Q)
| UiClear
| UiBrush (size : Z).

Definition uiEffect (a : UiAction) (e : DrawingEngine) : DrawingEngine :=
  match a with
  | UiTool t => setTool e t
  | UiColor r g b => setColor e r g b
  | UiClear => clear (clear e)
  | UiBrush size => setBrushSize e size
  end.

Definition withDetEngine (d : Detector) (e : DrawingEngine) : Detector :=
  mkDetector (detIsDrawing d) (currentGesture d) (detHistory d)
    (stabilityFrames d) (lastFingerPos d) e.

(** [endDrawing] *)
Definition endDrawing (d : Detector) : Detector :=
  if negb (detIsDrawing d) then d
  else mkDetector false (currentGesture d) (detHistory d)
         (stabilityFrames d) None (endStroke (detEngine d)).

(** [handleGestureChange(gesture)] *)
Definition handleGestureChange (d : Detector) (gesture : option GestureLabel)
  : Detector :=
  match gesture with
  | Some point | Some draw | Some peace | Some three =>
      withDetEngine d (setTool (detEngine d) Pen)
  | Some palm => withDetEngine d (setTool (detEngine d) Eraser)
  | Some rock | Some tap | Some fist => endDrawing d
  | Some none | None => endDrawing d
  end.

Section Camera.

Variable fanCovers : Z -> Z -> bool.

(** [startDrawing(fingerPos)]: the stroke starts at the mapped finger
    position with pressure 1 *)
Definition startDrawing (d : Detector) (fingerPos : Landmark) : Detector :=
  if detIsDrawing d then d
  else
    let e := detEngine d in
    let x := mapX (lx fingerPos) (ofZ (canvasWidth e)) in
    let y := mapY (ly fingerPos) (ofZ (canvasHeight e)) in
    mkDetector true (currentGesture d) (detHistory d) (stabilityFrames d)
      (lastFingerPos d) (startStroke fanCovers e x y (Fin 1)).

(** [continueDrawing(x, y)] *)
Definition continueDrawing (d : Detector) (x y : number)
  : Outcome Detector :=
  if negb (detIsDrawing d) then Done d
  else
    match continueStroke fanCovers (detEngine d) x y (Fin 1) with
    | Some e => Done (withDetEngine d e)
    | None => Hangs
    end.

(** [handleDrawingMovement(landmarks)], for the landmark of the index
    tip; [tapped] is what [performTap] hits in this frame, if anything
    (a zone under the cursor, the cooldown over) *)
Definition handleDrawingMovement (d : Detector) (indexTip : Landmark)
    (tapped : option UiAction) : Outcome Detector :=
  let e := detEngine d in
  let canvasX := mapX (lx indexTip) (ofZ (canvasWidth e)) in
  let canvasY := mapY (ly indexTip) (ofZ (canvasHeight e)) in
  if isDrawingGesture (currentGesture d) && negb (detIsDrawing d)
  then Done (startDrawing d indexTip)
  else
    match (if detIsDrawing d then continueDrawing d canvasX canvasY
           else Done d) with
    | Done d1 =>
        let d2 :=
          match tapped with
          | Some a =>
              if gesture_eqb (currentGesture d1) (Some tap)
              then withDetEngine d1 (uiEffect a (detEngine d1))
              else d1
          | None => d1
          end in
        Done (mkDetector (detIsDrawing d2) (currentGesture d2)
                (detHistory d2) (stabilityFrames d2)
                (Some (mkPoint canvasX canvasY)) (detEngine d2))
    | Throws => Throws
    | Hangs => Hangs
    end.

(** [processGestures(landmarks)]: one frame with a hand *)
Definition processGestures (d : Detector) (landmarks : list Landmark)
    (tapped : option UiAction) : Outcome Detector :=
  match recognizeGesture landmarks, nth_error landmarks 8 with
  | Some gesture, Some indexTip =>
      let h := pushHistory (detHistory d) (stabilityFrames d) gesture in
      let stableGesture := getStableGesture h (stabilityFrames d) in
      let d1 := mkDetector (detIsDrawing d) (currentGesture d) h
                  (stabilityFrames d) (lastFingerPos d) (detEngine d) in
      let d2 :=
        if gesture_eqb stableGesture (currentGesture d1) then d1
        else handleGestureChange
               (mkDetector (detIsDrawing d1) stableGesture (detHistory d1)
                  (stabilityFrames d1) (lastFingerPos d1) (detEngine d1))
               stableGesture in
      if gesture_eqb stableGesture (Some none) then Done d2
      else handleDrawingMovement d2 indexTip tapped
  | _, _ => Throws
  end.

(** the branch of [onResults] for a frame without a hand *)
Definition noHand (d : Detector) : Detector :=
  let d1 := if detIsDrawing d then endDrawing d else d in
  mkDetector (detIsDrawing d1) (Some none) (detHistory d1)
    (stabilityFrames d1) (lastFingerPos d1) (detEngine d1).

(** A frame of the camera: a hand with what a tap would hit, or none. *)
Inductive Frame : Type :=
| Hand (landmarks : list Landmark) (tapped : option UiAction)
| NoHand.

Definition onFrame (d : Detector) (f : Frame) : Outcome Detector :=
  match f with
  | Hand landmarks tapped => processGestures d landmarks tapped
  | NoHand => Done (noHand d)
  end.

Fixpoint onFrames (d : Detector) (fs : list Frame) : Outcome Detector :=
  match fs with
  | [] => Done d
  | f :: fs' =>
      match onFrame d f with
      | Done d' => onFrames d' fs'
      | Throws => Throws
      | Hangs => Hangs
      end
  end.

End Camera.

(** the history after a run of labels, as [processGestures] updates it *)
Definition feed (h : list GestureLabel) (N : nat) (gs : list GestureLabel)
  : list GestureLabel :=
  fold_left (fun h g => pushHistory h N g) gs h.

(** the tool a stable gesture selects, if it selects one *)
Definition gestureTool (g : option GestureLabel) : option Tool :=
  match g with
  | Some palm => Some Eraser
  | Some point | Some draw | Some peace | Some three => Some Pen
  | _ => None
  end.

(** What holds of the detector between frames: its flag is the engine's,
    a stroke is in progress only under a drawing gesture, the tool is the
    one the current gesture selects, the history fits the window and the
    stroke state of the engine is coherent. *)
Definition detectorInvariant (d : Detector) : Prop :=
  detIsDrawing d = isDrawing (detEngine d)
  /\ (detIsDrawing d = true -> isDrawingGesture (currentGesture d) = true)
  /\ (forall t, gestureTool (currentGesture d) = Some t ->
                currentTool (detEngine d) = t)
  /\ (length (detHistory d) <= stabilityFrames d)%nat.

(** the detector of the source (window 1) on the fresh engine, and what
    one frame of the hand [fourFingersUp] makes of it *)
Definition detector0 : Detector := newDetector engine0 1.

Definition afterPalmFrame : Detector :=
  match processGestures noFan detector0 fourFingersUp None with
  | Done d => d
  | _ => detector0
  end.

(* ================================================================== *)
(** * Colours from strings (webgl-utils.js, drawing-engine.js) *)
(* ================================================================== *)

From Stdlib Require Ascii.

(** A colour string is the list of its characters.  Every character the
    pattern of [hexToRgb] accepts is ASCII, so a string with any other
    character is one the pattern rejects, here as in the source. *)
Module Hex.

Import Ascii.
Local Open Scope char_scope.

(** one character of the class [[a-f\d]] under the [i] flag *)
Definition hexDigit (c : ascii) : option Z :=
  match c with
  | "0" => Some 0%Z | "1" => Some 1%Z | "2" => Some 2%Z | "3" => Some 3%Z
  | "4" => Some 4%Z | "5" => Some 5%Z | "6" => Some 6%Z | "7" => Some 7%Z
  | "8" => Some 8%Z | "9" => Some 9%Z
  | "a" | "A" => Some 10%Z
  | "b" | "B" => Some 11%Z
  | "c" | "C" => Some 12%Z
  | "d" | "D" => Some 13%Z
  | "e" | "E" => Some 14%Z
  | "f" | "F" => Some 15%Z
  | _ => None
  end.

(** [parseInt(s, 16)] of a group of two hexadecimal digits *)
Definition parseHexPair (a b : ascii) : option Z :=
  match hexDigit a, hexDigit b with
  | Some x, Some y => Some (16 * x + y)%Z
  | _, _ => None
  end.

(** [/^#?([a-f\d]{2})([a-f\d]{2})([a-f\d]{2})$/i.exec(hex)]: the three
    groups as numbers, [None] for [null].  When the string starts with
    [#] the optional [#] takes it: without it the first digit would have
    to be that [#]. *)
Definition hexGroups (hex : list ascii) : option (Z * Z * Z) :=
  let digits := match hex with
                | "#" :: rest => rest
                | _ => hex
                end in
  match digits with
  | [r1; r2; g1; g2; b1; b2] =>
      match parseHexPair r1 r2, parseHexPair g1 g2, parseHexPair b1 b2 with
      | Some r, Some g, Some b => Some (r, g, b)
      | _, _, _ => None
      end
  | _ => None
  end.

(** [WebGLUtils.hexToRgb(hex)]: the components [{r, g, b}] *)
Definition hexToRgb (hex : list ascii) : Q * Q * Q :=
  match hexGroups hex with
  | Some (r, g, b) =>
      (inject_Z r / 255, inject_Z g / 255, inject_Z b / 255)
  | None => (0, 0, 0)
  end.

(** the three-digit form of white *)
Definition shortWhite : list ascii := ["#"; "f"; "f"; "f"].

End Hex.

(** [DrawingEngine.setColor(color)] for a colour string: the components
    of [hexToRgb] with alpha 1 *)
Definition setColorString (e : DrawingEngine) (color : list Ascii.ascii)
  : DrawingEngine :=
  let '(r, g, b) := Hex.hexToRgb color in setColor e r g b.

(* ================================================================== *)
(** * More of JavaScript's arithmetic *)
(* ================================================================== *)

(** [a / b]; a zero divisor is the positive zero *)
Definition div (a b : number) : number :=
  match a, b with
  | NaN, _ | _, NaN => NaN
  | Fin x, Fin y =>
      if Qeq_bool y 0 then
        match x ?= 0 with
        | Eq => NaN
        | Gt => PInf
        | Lt => NInf
        end
      else Fin (x / y)
  | Fin _, _ => Fin 0
  | PInf, Fin y => match y ?= 0 with Lt => NInf | _ => PInf end
  | NInf, Fin y => match y ?= 0 with Lt => PInf | _ => NInf end
  | _, _ => NaN
  end.

(** [a <= b] and [a >= b] *)
Definition leq (a b : number) : bool :=
  match a, b with
  | NaN, _ | _, NaN => false
  | _, _ => negb (lt b a)
  end.

Definition geq (a b : number) : bool := leq b a.

(** [Math.round(a)]: the nearest integer, a half rounded up *)
Definition Math_round (a : number) : number :=
  match a with
  | Fin q => ofZ (Qfloor (q + (1 # 2)))
  | _ => a
  end.

(* ================================================================== *)
(** * The brush slider as a tap zone (camera-gesture.js) *)
(* ================================================================== *)

(** What [getBoundingClientRect()] returns; [right] and [bottom] are
    derived as in a [DOMRect] of non-negative size. *)
Record Rect : Type := mkRect {
  rectLeft : number;
  rectTop : number;
  rectWidth : number;
  rectHeight : number
}.

Definition rectRight (r : Rect) : number := add (rectLeft r) (rectWidth r).
Definition rectBottom (r : Rect) : number := add (rectTop r) (rectHeight r).

(** the hit test of [checkHoverAndTap] for one zone *)
Definition inZone (r : Rect) (screenX screenY : number) : bool :=
  geq screenX (rectLeft r) && leq screenX (rectRight r)
  && geq screenY (rectTop r) && leq screenY (rectBottom r).

(** the value the slider zone's [action(x, y)] gives the slider *)
Definition sliderAction (rect : Rect) (x : number) : number :=
  let percent := div (sub x (rectLeft rect)) (rectWidth rect) in
  Math_round (add (Fin 1) (mul percent (Fin 49))).

(** a rectangle of finite coordinates *)
Definition finiteRect (l t w h : Q) : Rect :=
  mkRect (Fin l) (Fin t) (Fin w) (Fin h).

(* ================================================================== *)
(** * Touch pressure (GestureHandler, unnamed/part_001) *)
(* ================================================================== *)

Definition pressureHistorySize : nat := 5.

(** [calculatePressure(force, radiusX, radiusY)] on
    [this.pressureHistory]: the new history and the returned mean.  An
    argument [None] is [undefined]. *)
Definition calculatePressure (pressureHistory : list number)
    (force radiusX radiusY : option number) : list number * number :=
  let fromRadius :=
    match radiusX, radiusY with
    | Some rx, Some ry =>
        let avgRadius := div (add rx ry) (Fin 2) in
        Math_min (div avgRadius (Fin 20)) (Fin 1)
    | _, _ => Fin 1
    end in
  let pressure :=
    match force with
    | Some f => if gt f (Fin 0) then Math_min (mul f (Fin 2)) (Fin 1)
                else fromRadius
    | None => fromRadius
    end in
  let h := pressureHistory ++ [pressure] in
  let h := if (pressureHistorySize <? length h)%nat then tl h else h in
  (h, div (fold_left add h (Fin 0)) (ofZ (Z.of_nat (length h)))).

(** a finite pressure between 0 and 1 *)
Definition unitPressure (p : number) : Prop :=
  exists q, p = Fin q /\ 0 <= q <= 1.

(** an argument that is [undefined] or a finite number *)
Definition finiteArg (a : option number) : Prop :=
  match a with
  | None | Some (Fin _) => True
  | Some _ => False
  end.

(** an argument that is [undefined] or a finite number, not negative *)
Definition sizeArg (a : option number) : Prop :=
  match a with
  | None => True
  | Some (Fin q) => 0 <= q
  | Some _ => False
  end.

(** a point with finite coordinates within one pixel of the drawing
    surface of [e] *)
Definition nearSurface (e : DrawingEngine) (x y : number) : Prop :=
  exists qx qy,
    x = Fin qx /\ y = Fin qy /\
    -1 <= qx <= inject_Z (canvasWidth e) + 1 /\
    -1 <= qy <= inject_Z (canvasHeight e) + 1.

(** A canvas of at most 2^31 pixels each way, a smoothing factor in
    [0, 1], and the last point and every recorded point of the stroke in
    progress within one pixel of the surface. *)
Definition boundedStroke (e : DrawingEngine) : Prop :=
  (0 <= canvasWidth e <= 2 ^ 31)%Z /\
  (0 <= canvasHeight e <= 2 ^ 31)%Z /\
  0 <= smoothingFactor e <= 1 /\
  (forall lp, lastPoint e = Some lp -> nearSurface e (px lp) (py lp)) /\
  Forall (fun sp => nearSurface e (sx sp) (sy sp)) (strokePoints e).

(** A frame with the hand in view: no hand, or the 21 landmarks of a
    hand whose index tip is inside the camera frame, [0, 1] x [0, 1]. *)
Definition frameInView (f : Frame) : Prop :=
  match f with
  | Hand landmarks _ =>
      length landmarks = 21%nat /\
      exists tip tx ty,
        nth_error landmarks 8 = Some tip /\
        lx tip = Fin tx /\ ly tip = Fin ty /\
        0 <= tx <= 1 /\ 0 <= ty <= 1
  | NoHand => True
  end.

(* ================================================================== *)
(** * The mouse path of GestureHandler (unnamed/part_001) *)
(* ================================================================== *)

(** [a || b] on numbers: [a] unless it is falsy (zero or [NaN]) *)
Definition orElse (a b : number) : number :=
  match a with
  | Fin q => if Qeq_bool q 0 then b else a
  | NaN => b
  | _ => a
  end.

Record Velocity : Type := mkVelocity { vx : number; vy : number }.

(** The fields of a [GestureHandler] that its mouse handlers read or
    write; the canvas is the engine's. *)
Record GestureHandler : Type := mkHandler {
  ghIsDrawing : bool;
  gestureStartTime : number;
  gestureStartPos : option Point;
  lastMoveTime : number;
  velocity : Velocity;
  ghPressure : number;
  pressureHistory : list number;
  ghEngine : DrawingEngine
}.

(** the handler after its constructor *)
Definition newHandler (engine : DrawingEngine) : GestureHandler :=
  mkHandler false (Fin 0) None (Fin 0) (mkVelocity (Fin 0) (Fin 0)) (Fin 1)
            []
            engine.

(** [getCanvasCoordinates(clientX, clientY)] for the bounding rectangle
    [rect] of the canvas *)
Definition getCanvasCoordinates (e : DrawingEngine) (rect : Rect)
    (clientX clientY : number) : Point :=
  let scaleX := div (ofZ (canvasWidth e)) (rectWidth rect) in
  let scaleY := div (ofZ (canvasHeight e)) (rectHeight rect) in
  mkPoint (mul (sub clientX (rectLeft rect)) scaleX)
          (mul (sub clientY (rectTop rect)) scaleY).

(** [calculateVelocity(x, y, timestamp)] *)
Definition calculateVelocity (h : GestureHandler) (x y timestamp : number)
  : GestureHandler :=
  let v :=
    if gt (lastMoveTime h) (Fin 0) then
      let deltaTime := sub timestamp (lastMoveTime h) in
      let startX := match gestureStartPos h with
                    | Some p => orElse (px p) x
                    | None => x
                    end in
      let startY := match gestureStartPos h with
                    | Some p => orElse (py p) y
                    | None => y
                    end in
      let deltaX := sub x startX in
      let deltaY := sub y startY in
      if gt deltaTime (Fin 0)
      then mkVelocity (mul (div deltaX deltaTime) (Fin 1000))
                      (mul (div deltaY deltaTime) (Fin 1000))
      else velocity h
    else velocity h in
  mkHandler (ghIsDrawing h) (gestureStartTime h) (gestureStartPos h)
            timestamp v (ghPressure h) (pressureHistory h) (ghEngine h).

Section Mouse.

Variable fanCovers : Z -> Z -> bool.

(** [startGesture(x, y, timestamp, pressure)] without a touch *)
Definition startGesture (h : GestureHandler) (x y timestamp : number)
    (pressure : number) : GestureHandler :=
  mkHandler true timestamp (Some (mkPoint x y)) timestamp (velocity h)
            pressure [pressure]
            (startStroke fanCovers (ghEngine h) x y pressure).

(** [continueGesture(x, y, timestamp, pressure)] without a touch *)
Definition continueGesture (h : GestureHandler) (x y timestamp : number)
    (pressure : number) : Outcome GestureHandler :=
  match continueStroke fanCovers (ghEngine h) x y pressure with
  | Some e =>
      Done (mkHandler (ghIsDrawing h) (gestureStartTime h)
              (gestureStartPos h) (lastMoveTime h) (velocity h) pressure
              (pressureHistory h) e)
  | None => Hangs
  end.

(** [endGesture(x, y, timestamp)] *)
Definition endGesture (h : GestureHandler) : GestureHandler :=
  mkHandler false (gestureStartTime h) (gestureStartPos h) (lastMoveTime h)
            (mkVelocity (Fin 0) (Fin 0)) (ghPressure h) []
            (endStroke (ghEngine h)).

(** A mouse event as its handler sees it: the client coordinates, with
    the bounding rectangle of the canvas and [Date.now()] at that time.
    [mouseleave] is handled as [mouseup]. *)
Inductive MouseKind : Type := MouseDown | MouseMove | MouseUp.

Record MouseEvent : Type := mkMouseEvent {
  kind : MouseKind;
  clientX : number;
  clientY : number;
  canvasRect : Rect;
  now : number
}.

(** [handleMouseDown], [handleMouseMove], [handleMouseUp] *)
Definition handleMouse (h : GestureHandler) (ev : MouseEvent)
  : Outcome GestureHandler :=
  let coords := getCanvasCoordinates (ghEngine h) (canvasRect ev)
                  (clientX ev) (clientY ev) in
  match kind ev with
  | MouseDown =>
      Done (startGesture h (px coords) (py coords) (now ev) (Fin 1))
  | MouseMove =>
      if negb (ghIsDrawing h) then Done h
      else
        continueGesture
          (calculateVelocity h (px coords) (py coords) (now ev))
          (px coords) (py coords) (now ev) (Fin 1)
  | MouseUp =>
      if negb (ghIsDrawing h) then Done h else Done (endGesture h)
  end.

Fixpoint handleMouseEvents (h : GestureHandler) (evs : list MouseEvent)
  : Outcome GestureHandler :=
  match evs with
  | [] => Done h
  | ev :: evs' =>
      match handleMouse h ev with
      | Done h' => handleMouseEvents h' evs'
      | Throws => Throws
      | Hangs => Hangs
      end
  end.

End Mouse.

(** A mouse event with finite client coordinates over a canvas whose
    bounding rectangle is finite and at least one pixel wide and high; a
    press or a move has the pointer inside the rectangle. *)
Definition overCanvas (ev : MouseEvent) : Prop :=
  exists cx cy l t w h,
    clientX ev = Fin cx /\ clientY ev = Fin cy /\
    canvasRect ev = finiteRect l t w h /\ 1 <= w /\ 1 <= h /\
    (kind ev <> MouseUp -> 0 <= cx - l <= w /\ 0 <= cy - t <= h).

(** the handler's flag is the engine's, and the stroke in progress is
    bounded *)
Definition handlerInvariant (h : GestureHandler) : Prop :=
  ghIsDrawing h = isDrawing (ghEngine h) /\ boundedStroke (ghEngine h).

(** a press, a move and a release over a canvas shown at half its size *)
Definition dragEvents : list MouseEvent :=
  [mkMouseEvent MouseDown (Fin 10) (Fin 10) (finiteRect 0 0 400 300) (Fin 1000);
   mkMouseEvent MouseMove (Fin 20) (Fin 10) (finiteRect 0 0 400 300) (Fin 1016);
   mkMouseEvent MouseUp (Fin 20) (Fin 10) (finiteRect 0 0 400 300) (Fin 1032)].

(** what one mouse event leaves of the handler, by its kind *)
Definition afterMouse (k : MouseKind) (h h' : GestureHandler) : Prop :=
  match k with
  | MouseDown => ghIsDrawing h' = true
  | MouseMove | MouseUp =>
      ghIsDrawing h' = (match k with MouseUp => false | _ => ghIsDrawing h end)
      /\ (ghIsDrawing h = false -> h' = h)
  end.

(* ================================================================== *)
(** * Properties of the number model *)
(* ================================================================== *)

Lemma Qltb_true (a b : Q) : Qltb a b = true <-> a < b.
Proof.
  unfold Qltb. rewrite negb_true_iff, <- not_true_iff_false, Qle_bool_iff.
  split; [apply Qnot_le_lt | apply Qlt_not_le].
Qed.

(** Where the sum of squares has a rational root [r], the comparisons of
    squares are the comparisons of the root. *)
Lemma sqrt_gt_root (r c : Q) :
  0 <= r -> 0 <= c -> (sqrt_gt (Fin (r * r)) c = true <-> c < r).
Proof.
  intros Hr Hc. unfold sqrt_gt. rewrite Qltb_true. split; intros H.
  - destruct (Qlt_le_dec c r) as [Hlt | Hle]; [assumption | nra].
  - nra.
Qed.

Lemma sqrt_lt_root (r c : Q) :
  0 <= r -> 0 < c -> (sqrt_lt (Fin (r * r)) c = true <-> r < c).
Proof.
  intros Hr Hc. unfold sqrt_lt.
  rewrite andb_true_iff, Qle_bool_iff, Qltb_true. split.
  - intros [_ H]. destruct (Qlt_le_dec r c) as [Hlt | Hle]; [assumption | nra].
  - intros H. split; nra.
Qed.

(** [floor_half_sqrt q] is the integer [n] with [2 n <= sqrt q < 2 (n + 1)]. *)
Lemma floor_half_sqrt_spec (q : Q) :
  0 <= q ->
  (0 <= floor_half_sqrt q)%Z /\
  inject_Z (2 * floor_half_sqrt q) * inject_Z (2 * floor_half_sqrt q) <= q /\
  q < inject_Z (2 * (floor_half_sqrt q + 1))
      * inject_Z (2 * (floor_half_sqrt q + 1)).
Proof.
  intros Hq. unfold floor_half_sqrt.
  set (a := Qfloor (q / 4)).
  assert (Hlo : inject_Z a <= q / 4) by apply Qfloor_le.
  assert (Hhi : q / 4 < inject_Z (a + 1)) by apply Qlt_floor.
  assert (Ha : (0 <= a)%Z).
  { change 0%Z with (Qfloor 0). apply Qfloor_resp_le.
    apply Qle_shift_div_l; lra. }
  destruct (Z.sqrt_spec a Ha) as [H1 H2].
  set (n := Z.sqrt a) in *.
  assert (Hn : (0 <= n)%Z) by apply Z.sqrt_nonneg.
  split; [exact Hn |].
  rewrite <- !inject_Z_mult.
  assert (Hq4 : q / 4 == q * (1 # 4)) by (unfold Qdiv; reflexivity).
  rewrite Hq4 in Hlo, Hhi.
  split.
  - apply Qle_trans with (inject_Z (4 * a)).
    + rewrite <- Zle_Qle. nia.
    + rewrite inject_Z_mult. change (inject_Z 4) with 4. lra.
  - apply Qlt_le_trans with (inject_Z (4 * (a + 1))).
    + rewrite inject_Z_mult. change (inject_Z 4) with 4. lra.
    + rewrite <- Zle_Qle. nia.
Qed.

(* ================================================================== *)
(** * Properties of the stability filter *)
(* ================================================================== *)

Section StabilityFilter.

Lemma label_eqb_spec (a b : GestureLabel) : reflect (a = b) (label_eqb a b).
Proof. destruct a, b; simpl; constructor; congruence. Qed.

Lemma last_elem_rev {A} (l : list A) : last_elem l = hd_error (rev l).
Proof.
  unfold last_elem.
  destruct l as [| a l'] using rev_ind; [reflexivity |].
  rewrite rev_unit, length_app; simpl.
  replace (length l' + 1 - 1)%nat with (length l') by lia.
  rewrite nth_error_app2 by lia.
  now rewrite Nat.sub_diag.
Qed.

Lemma slice_last_rev {A} (n : nat) (l : list A) :
  (1 <= n)%nat -> rev (slice_last n l) = firstn n (rev l).
Proof.
  intros Hn. destruct n as [| n']; [lia |].
  unfold slice_last. now rewrite firstn_rev.
Qed.

Lemma forallb_eq_repeat (g : GestureLabel) (l : list GestureLabel) :
  forallb (fun x => label_eqb x g) l = true <-> l = repeat g (length l).
Proof.
  induction l as [| a l IH]; simpl; [tauto |].
  rewrite andb_true_iff, IH. split.
  - intros [Ha Hl]. destruct (label_eqb_spec a g); [subst | discriminate].
    now f_equal.
  - intros H. injection H as Ha Hl. subst a. split; [| assumption].
    now destruct (label_eqb_spec g g).
Qed.

Lemma rev_repeat_same {A} (a : A) (n : nat) : rev (repeat a n) = repeat a n.
Proof.
  induction n as [| n IH]; [reflexivity |].
  simpl. rewrite IH. clear IH.
  induction n as [| n IH]; [reflexivity |].
  simpl. now rewrite IH.
Qed.

(** The code's test [isStable] decides the statement's uniform window. *)
Lemma isStable_iff (h : list GestureLabel) (N : nat) (r : GestureLabel) :
  (1 <= N <= length h)%nat -> mostRecent h = Some r ->
  forallb (fun g => label_eqb g r) (slice_last N h) = true
  <-> uniformWindow h N.
Proof.
  intros [HN Hlen] Hr. unfold mostRecent in Hr.
  assert (Hl : length (slice_last N h) = N).
  { rewrite <- length_rev, (slice_last_rev h HN), length_firstn, length_rev.
    lia. }
  rewrite forallb_eq_repeat, Hl. split.
  - intros Hs. split; [assumption |]. exists r.
    now rewrite <- (slice_last_rev h HN), Hs, rev_repeat_same.
  - intros [_ [g Hg]].
    assert (r = g).
    { destruct (rev h) as [| r' t]; [discriminate |].
      injection Hr as ->. destruct N; [lia |]. simpl in Hg. congruence. }
    subst g.
    now rewrite <- (rev_involutive (slice_last N h)), (slice_last_rev h HN),
      Hg, rev_repeat_same.
Qed.

Lemma mostRecent_nonempty (h : list GestureLabel) :
  (1 <= length h)%nat -> exists r, mostRecent h = Some r.
Proof.
  intros Hlen. unfold mostRecent.
  destruct (rev h) as [| r t] eqn:Hr; [| now exists r].
  apply (f_equal (@length _)) in Hr. rewrite length_rev in Hr.
  simpl in Hr. lia.
Qed.

(** After [processGestures] has pushed a label, it is the most recent. *)
Lemma mostRecent_pushHistory (h : list GestureLabel) (N : nat)
    (g : GestureLabel) :
  (1 <= N)%nat -> mostRecent (pushHistory h N g) = Some g.
Proof.
  intros HN. unfold pushHistory, mostRecent.
  destruct (Nat.ltb_spec N (length (h ++ [g]))) as [Hlt | _].
  - destruct h as [| a h']; simpl in *; [lia |].
    now rewrite rev_unit.
  - now rewrite rev_unit.
Qed.

(** What the code computes, by the cases of the statement. *)
Lemma getStableGesture_cases (h : list GestureLabel) (N : nat) :
  (1 <= N)%nat ->
  (uniformWindow h N /\
   exists g, mostRecent h = Some g /\ getStableGesture h N = Some g)
  \/ (~ uniformWindow h N /\ getStableGesture h N = Some none).
Proof.
  intros HN. unfold getStableGesture.
  destruct (Nat.ltb_spec (length h) N) as [Hlt | Hge].
  - right. split; [| reflexivity]. intros [Hlen _]. lia.
  - destruct (mostRecent_nonempty h) as [r Hr]; [lia |].
    rewrite last_elem_rev. fold (mostRecent h). rewrite Hr.
    pose proof (@isStable_iff h N r (conj HN Hge) Hr) as Hiff.
    destruct (forallb _ _).
    + left. split; [now apply Hiff |]. now exists r.
    + right. split; [| reflexivity]. intros Hu. apply Hiff in Hu.
      discriminate.
Qed.

(** C1.  For every gesture history and every window [N >= 1]: when the
    history has at least [N] entries and its last [N] entries are all
    identical, the stable output is the most recent raw label; otherwise
    it is [none].  When the most recent label is not itself [none], the
    output equals it if and only if the window is full and uniform (when
    it is [none], both cases give [none]).  With window 1 the filter
    passes the latest label through, also right after [processGestures]
    has pushed it; with window 3 a history ending [A, A, B] ([A <> B])
    gives [none] and one ending [B, B, B] gives [B]. *)
Theorem C1_stable_output (h : list GestureLabel) (N : nat) :
  (1 <= N)%nat ->
  (uniformWindow h N ->
   exists g, mostRecent h = Some g /\ getStableGesture h N = Some g)
  /\ (~ uniformWindow h N -> getStableGesture h N = Some none)
  /\ (forall g, mostRecent h = Some g -> g <> none ->
        (getStableGesture h N = Some g <-> uniformWindow h N))
  /\ (forall g, mostRecent h = Some g -> getStableGesture h 1 = Some g)
  /\ (forall g, getStableGesture (pushHistory h 1 g) 1 = Some g)
  /\ (forall A B pre, A <> B ->
        getStableGesture (pre ++ [A; A; B]) 3 = Some none)
  /\ (forall B pre, getStableGesture (pre ++ [B; B; B]) 3 = Some B).
Proof.
  intros HN.
  assert (Hend : forall pre (a b c : GestureLabel),
             firstn 3 (rev (pre ++ [a; b; c])) = [c; b; a]).
  { intros pre a b c. now rewrite rev_app_distr. }
  assert (Hlen3 : forall pre (a b c : GestureLabel),
             (3 <= length (pre ++ [a; b; c]))%nat).
  { intros. rewrite length_app. simpl. lia. }
  assert (Hpass : forall h1 g, mostRecent h1 = Some g ->
                        getStableGesture h1 1 = Some g).
  { intros h1 g Hg.
    assert (Hu : uniformWindow h1 1).
    { unfold mostRecent in Hg. split.
      - rewrite <- length_rev. destruct (rev h1); [discriminate | simpl; lia].
      - exists g. destruct (rev h1); [discriminate |].
        simpl in *. congruence. }
    destruct (@getStableGesture_cases h1 1 (le_n 1))
      as [[_ [g' [Hg' H]]] | [Hn _]]; [congruence | contradiction]. }
  split; [| split; [| split; [| split; [| split; [| split]]]]].
  - intros Hu.
    destruct (getStableGesture_cases h HN) as [[_ H] | [Hn _]];
      [assumption | contradiction].
  - intros Hn.
    destruct (getStableGesture_cases h HN) as [[Hu _] | [_ H]];
      [contradiction | assumption].
  - intros g Hg Hne.
    destruct (getStableGesture_cases h HN)
      as [[Hu [g' [Hg' H]]] | [Hn H]]; rewrite H; split; intros H'.
    + assumption.
    + congruence.
    + congruence.
    + contradiction.
  - intros g Hg. now apply Hpass.
  - intros g. apply Hpass. now apply mostRecent_pushHistory.
  - intros A B pre HAB.
    destruct (@getStableGesture_cases (pre ++ [A; A; B]) 3)
      as [[[_ [g Hu]] _] | [_ H]]; [lia | | assumption].
    rewrite Hend in Hu. simpl in Hu. congruence.
  - intros B pre.
    destruct (@getStableGesture_cases (pre ++ [B; B; B]) 3)
      as [[_ [g [Hg H]]] | [Hn _]]; [lia | |].
    + unfold mostRecent in Hg. rewrite rev_app_distr in Hg.
      simpl in Hg. congruence.
    + exfalso. apply Hn. split; [apply Hlen3 |].
      exists B. now rewrite Hend.
Qed.

Lemma C1_stable_output_witness :
  (1 <= 3)%nat /\
  getStableGesture [point; palm; palm; palm] 3 = Some palm.
Proof.
  split; [lia |].
  destruct (@C1_stable_output [point; palm; palm; palm] 3) as [Hst _];
    [lia |].
  destruct Hst as [g [Hg H]].
  - split; [simpl; lia | now exists palm].
  - unfold mostRecent in Hg. simpl in Hg. congruence.
Defined.

End StabilityFilter.

(* ================================================================== *)
(** * Properties of the gesture classifier *)
(* ================================================================== *)

Section Classifier.

(** A full landmark set has every landmark the classifier reads. *)
Lemma keyPoints_defined (landmarks : list Landmark) :
  length landmarks = 21%nat -> exists k, keyPoints landmarks = Some k.
Proof.
  intros Hlen.
  do 21 (destruct landmarks as [| ? landmarks]; [discriminate |]).
  unfold keyPoints. simpl. eauto.
Qed.

Lemma fingers_defined (landmarks : list Landmark) :
  length landmarks = 21%nat -> exists f, fingers landmarks = Some f.
Proof.
  intros Hlen. destruct (keyPoints_defined landmarks Hlen) as [k Hk].
  exists (fingersOf k). unfold fingers. now rewrite Hk.
Qed.

(** the count is the number of true booleans among the five *)
Lemma extendedCount_sum (f : Fingers) :
  extendedCount f =
  (Nat.b2n (indexExtended f) + Nat.b2n (middleExtended f)
   + Nat.b2n (ringExtended f) + Nat.b2n (pinkyExtended f)
   + Nat.b2n (thumbExtended f))%nat.
Proof. destruct f as [[] [] [] [] []]; reflexivity. Qed.

Lemma classify_palm (f : Fingers) (close : bool) :
  (4 <= extendedCount f)%nat ->
  classify f close = palm /\ classify_variant f close = palm.
Proof.
  intros H. unfold classify, classify_variant.
  apply Nat.leb_le in H. now rewrite H.
Qed.

(** C2.  For every landmark set whose five per-finger booleans (index,
    middle, ring, pinky by tip above joint; thumb by a wrist-to-tip
    distance above 0.1) count at least four true, [recognizeGesture]
    returns [palm], whichever fingers they are; so does the variant of
    the classifier. *)
Theorem C2_four_extended_is_palm (landmarks : list Landmark) (f : Fingers) :
  fingers landmarks = Some f ->
  (4 <= extendedCount f)%nat ->
  recognizeGesture landmarks = Some palm /\
  recognizeGesture_variant landmarks = Some palm.
Proof.
  unfold fingers, recognizeGesture, recognizeGesture_variant.
  destruct (keyPoints landmarks) as [k |]; [| discriminate].
  simpl. intros [= <-] Hcount.
  destruct (classify_palm (fingersOf k) (fingersClose k) Hcount) as [-> ->].
  now split.
Qed.

Lemma C2_four_extended_is_palm_witness :
  fingers fourFingersUp = Some (mkFingers true true true true false) /\
  (4 <= extendedCount (mkFingers true true true true false))%nat /\
  recognizeGesture fourFingersUp = Some palm /\
  recognizeGesture_variant fourFingersUp = Some palm.
Proof.
  split; [reflexivity |]. split; [apply Nat.leb_le; reflexivity |].
  apply (@C2_four_extended_is_palm fourFingersUp
           (mkFingers true true true true false));
    [reflexivity | apply Nat.leb_le; reflexivity].
Defined.

End Classifier.

(* ================================================================== *)
(** * Properties of the coordinate mapping *)
(* ================================================================== *)



(* ================================================================== *)
(** * Properties of the drawing engine *)
(* ================================================================== *)

Section EngineFacts.

Variable fanCovers : Z -> Z -> bool.

Local Abbreviation drawPoint := (drawPoint fanCovers).
Local Abbreviation drawLineFrom := (drawLineFrom fanCovers).
Local Abbreviation drawLine := (drawLine fanCovers).
Local Abbreviation startStroke := (startStroke fanCovers).
Local Abbreviation continueStroke := (continueStroke fanCovers).
Local Abbreviation call := (call fanCovers).
Local Abbreviation run := (run fanCovers).

Lemma sameControl_refl (e : DrawingEngine) : sameControl e e.
Proof. unfold sameControl; tauto. Qed.

Lemma sameControl_trans (e1 e2 e3 : DrawingEngine) :
  sameControl e1 e2 -> sameControl e2 e3 -> sameControl e1 e3.
Proof. unfold sameControl; intuition congruence. Qed.

(** An accepted coordinate pair is finite and inside the surface. *)
Lemma accepted_finite (e : DrawingEngine) (x y : number) :
  invalidCoordinates e x y = false ->
  exists qx qy, x = Fin qx /\ y = Fin qy.
Proof.
  unfold invalidCoordinates.
  destruct x, y; simpl; try discriminate; eauto;
    rewrite ?orb_true_r; try discriminate.
Qed.

Lemma drawPoint_rejected (e : DrawingEngine) (x y : number) :
  invalidCoordinates e x y = true -> drawPoint e x y = warn e x y.
Proof. intros H. unfold drawPoint. now rewrite H. Qed.

Lemma drawPoint_accepted (e : DrawingEngine) (qx qy : Q) :
  invalidCoordinates e (Fin qx) (Fin qy) = false ->
  drawPoint e (Fin qx) (Fin qy) =
  renderToScreen
    (withGl (seed e)
       (drawCircle fanCovers (gl (seed e))
          (currentTool e) (stampUniforms e qx qy))).
Proof. intros H. unfold drawPoint. now rewrite H. Qed.

Lemma drawPoint_sameControl (e : DrawingEngine) (x y : number) :
  sameControl e (drawPoint e x y).
Proof.
  unfold drawPoint.
  destruct (invalidCoordinates e x y); [unfold sameControl; simpl; tauto |].
  destruct x, y; try apply sameControl_refl.
  unfold sameControl; simpl; tauto.
Qed.

Lemma drawLineFrom_sameControl (x1 y1 x2 y2 : number) (steps : Z)
    (count i : nat) (e : DrawingEngine) :
  sameControl e (drawLineFrom e x1 y1 x2 y2 steps i count).
Proof.
  revert i e. induction count as [| c IH]; intros i e; simpl.
  - apply sameControl_refl.
  - eapply sameControl_trans; [apply drawPoint_sameControl | apply IH].
Qed.

Lemma drawLine_sameControl (e e' : DrawingEngine) (x1 y1 x2 y2 : number) :
  drawLine e x1 y1 x2 y2 = Some e' -> sameControl e e'.
Proof.
  unfold drawLine.
  destruct (lineSteps x1 y1 x2 y2) as [n | |]; intros [= <-].
  - exact (@drawLineFrom_sameControl x1 y1 x2 y2 n (S (Z.to_nat n)) 0%nat e).
  - apply sameControl_refl.
Qed.

(** A line between finite points has finitely many steps: the loop ends. *)
Lemma lineSteps_finite (x1 y1 x2 y2 : Q) :
  exists n, lineSteps (Fin x1) (Fin y1) (Fin x2) (Fin y2) = StepsFin n
            /\ (1 <= n)%Z.
Proof.
  unfold lineSteps. simpl. eexists. split; [reflexivity | lia].
Qed.

Lemma drawLine_finite (e : DrawingEngine) (x1 y1 x2 y2 : Q) :
  exists e', drawLine e (Fin x1) (Fin y1) (Fin x2) (Fin y2) = Some e'.
Proof.
  unfold drawLine.
  destruct (lineSteps_finite x1 y1 x2 y2) as [n [-> _]]. eauto.
Qed.

Lemma badCentre_invalid (e : DrawingEngine) (x y : number) :
  badCentre e x y -> invalidCoordinates e x y = true.
Proof.
  unfold invalidCoordinates, gt, ofZ. rewrite !orb_true_iff.
  intros [Hx | [Hy | [qx [qy [-> [-> Hout]]]]]].
  - destruct Hx as [-> | [-> | ->]]; simpl; tauto.
  - destruct Hy as [-> | [-> | ->]]; simpl; tauto.
  - simpl. rewrite !Qltb_true. unfold outsideSurface in Hout. tauto.
Qed.

(** C5.  A stamp whose centre has a non-finite coordinate or lies outside
    [0, width] x [0, height] is dropped: [drawPoint] returns, having only
    reported the coordinates; the GPU store (both textures, the screen,
    the passes) and so the back buffer are unchanged, and every control
    field, the stroke-in-progress flag among them, keeps its value.  A
    stroke started at such a centre is in progress all the same. *)
Theorem C5_bad_centre_dropped (e : DrawingEngine) (x y : number) :
  badCentre e x y ->
  drawPoint e x y = warn e x y
  /\ gl (drawPoint e x y) = gl e
  /\ backImage (drawPoint e x y) = backImage e
  /\ isDrawing (drawPoint e x y) = isDrawing e
  /\ sameControl e (drawPoint e x y)
  /\ (forall p, gl (startStroke e x y p) = gl e
                /\ isDrawing (startStroke e x y p) = true).
Proof.
  intros Hbad. apply badCentre_invalid in Hbad.
  rewrite (drawPoint_rejected e x y Hbad).
  repeat split; try reflexivity.
  - unfold startStroke. now rewrite drawPoint_rejected.
  - unfold startStroke. now rewrite drawPoint_rejected.
Qed.

(** C10.  [continueStroke] while no stroke is in progress returns at once:
    the engine (last point, stroke points, pressure, tool state, both
    render buffers) is the one it was given. *)
Theorem C10_continue_when_idle (e : DrawingEngine) (x y p : number) :
  isDrawing e = false -> continueStroke e x y p = Some e.
Proof. intros H. unfold continueStroke. now rewrite H. Qed.

Lemma last_elem_snoc {A} (l : list A) (a : A) : last_elem (l ++ [a]) = Some a.
Proof. now rewrite last_elem_rev, rev_unit. Qed.

Lemma continueStroke_drawing (e : DrawingEngine) (x y : number) (p : number)
    (lp : Point) :
  isDrawing e = true -> lastPoint e = Some lp ->
  let sm := smoothPoint (setPressure e p) x y in
  continueStroke e x y p =
  option_map (fun e' => withLastPoint e' (Some sm))
    (drawLine (recorded e sm p) (px lp) (py lp) (px sm) (py sm)).
Proof.
  intros Hd Hl. unfold continueStroke. rewrite Hd. simpl.
  now rewrite Hl.
Qed.

(** C8 as the code has it.  In a stroke that has recorded at least two
    points, a new raw sample [(x, y)] is recorded as the previous recorded
    point blended toward it by the factor 0.1, in each coordinate; that
    point, with the sample's pressure, is appended to the stroke, the line
    from the last point to it is what [drawLine] rasterises, and it
    becomes the last point.  While the stroke has recorded fewer than two
    points, the raw sample itself is recorded and rasterised. *)
Theorem C8_smoothed_point (e : DrawingEngine) (x y : Q) (p : number)
    (prev : StrokePoint) (a b lastX lastY : Q) :
  isDrawing e = true ->
  smoothingFactor e = 1 # 10 ->
  lastPoint e = Some (mkPoint (Fin lastX) (Fin lastY)) ->
  last_elem (strokePoints e) = Some prev ->
  sx prev = Fin a -> sy prev = Fin b ->
  let sm :=
    if (2 <=? length (strokePoints e))%nat
    then mkPoint (Fin (blendToward a x (1 # 10)))
                 (Fin (blendToward b y (1 # 10)))
    else mkPoint (Fin x) (Fin y) in
  exists drawn,
    drawLine (recorded e sm p) (Fin lastX) (Fin lastY) (px sm) (py sm)
    = Some drawn
    /\ continueStroke e (Fin x) (Fin y) p
       = Some (withLastPoint drawn (Some sm))
    /\ strokePoints (withLastPoint drawn (Some sm))
       = strokePoints e ++ [mkStrokePoint (px sm) (py sm) p]
    /\ lastPoint (withLastPoint drawn (Some sm)) = Some sm.
Proof.
  intros Hd Hf Hl Hprev Ha Hb sm.
  assert (Hsm : smoothPoint (setPressure e p) (Fin x) (Fin y) = sm).
  { unfold smoothPoint, sm. simpl strokePoints. simpl smoothingFactor.
    rewrite Hprev, Ha, Hb, Hf.
    destruct (Nat.ltb_spec (length (strokePoints e)) 2) as [Hlt | Hge].
    - destruct (Nat.leb_spec 2 (length (strokePoints e))); [lia |].
      reflexivity.
    - destruct (Nat.leb_spec 2 (length (strokePoints e))); [| lia].
      reflexivity. }
  assert (Hfin : exists sx' sy', sm = mkPoint (Fin sx') (Fin sy')).
  { unfold sm. destruct (2 <=? _)%nat; eauto. }
  destruct Hfin as [sx' [sy' Hfin]].
  destruct (drawLine_finite (recorded e sm p) lastX lastY sx' sy')
    as [drawn Hdrawn].
  exists drawn.
  assert (Hline : drawLine (recorded e sm p) (Fin lastX) (Fin lastY)
                    (px sm) (py sm) = Some drawn).
  { rewrite Hfin. simpl px. simpl py. rewrite <- Hfin. exact Hdrawn. }
  split; [exact Hline |]. split.
  - rewrite (continueStroke_drawing e (Fin x) (Fin y) p Hd Hl).
    simpl. rewrite Hsm. simpl px. simpl py. rewrite Hline. reflexivity.
  - apply drawLine_sameControl in Hline.
    destruct Hline as (_ & _ & _ & _ & _ & _ & _ & _ & Hsp & _).
    split; [| reflexivity]. simpl. rewrite Hsp. reflexivity.
Qed.

Lemma invalid_badCentre (e : DrawingEngine) (x y : number) :
  invalidCoordinates e x y = true -> badCentre e x y.
Proof.
  unfold invalidCoordinates, gt, ofZ, badCentre, nonFinite, outsideSurface.
  rewrite !orb_true_iff.
  destruct x as [qx | | |];
    [| intros _; left; auto | intros _; left; auto | intros _; left; auto].
  destruct y as [qy | | |];
    [| intros _; right; left; auto | intros _; right; left; auto
     | intros _; right; left; auto].
  simpl. rewrite !Qltb_true. intros H. right. right. exists qx, qy.
  intuition discriminate.
Qed.

(** ** The passes issued: seeds and stamps *)

Lemma glTrace_writeTarget (g : GPU) (t : option FbId) (img : Image) :
  glTrace (writeTarget g t img) = glTrace g.
Proof. destruct t as [[] |]; reflexivity. Qed.

Lemma drawPoint_accepted_trace (e : DrawingEngine) (qx qy : Q) :
  invalidCoordinates e (Fin qx) (Fin qy) = false ->
  glTrace (gl (drawPoint e (Fin qx) (Fin qy))) =
  EvCopy (backTexture e) None
  :: EvStamp (currentTool e) (Some (backFramebuffer e))
             (stampUniforms e qx qy)
  :: EvCopy (frontTexture e) (Some (backFramebuffer e))
  :: glTrace (gl e).
Proof.
  intros H. rewrite (drawPoint_accepted e qx qy H).
  unfold renderToScreen, copyTexture, drawCircle, seed, copyTexture.
  repeat (progress (simpl; rewrite ?glTrace_writeTarget)).
  destruct (backFramebuffer e); reflexivity.
Qed.

Lemma seedPerStamp_refl (e : DrawingEngine) : seedPerStamp e e.
Proof. unfold seedPerStamp. lia. Qed.

Lemma seedPerStamp_trans (e1 e2 e3 : DrawingEngine) :
  seedPerStamp e1 e2 -> seedPerStamp e2 e3 -> seedPerStamp e1 e3.
Proof. unfold seedPerStamp. lia. Qed.

Lemma seedPerStamp_same_gl (e e' : DrawingEngine) :
  gl e' = gl e -> seedPerStamp e e'.
Proof. unfold seedPerStamp. intros ->. lia. Qed.

Lemma drawPoint_counts (e : DrawingEngine) (x y : number) :
  (invalidCoordinates e x y = false ->
   seedCount (gl (drawPoint e x y)) = S (seedCount (gl e)) /\
   stampCount (gl (drawPoint e x y)) = S (stampCount (gl e)))
  /\ (invalidCoordinates e x y = true ->
      seedCount (gl (drawPoint e x y)) = seedCount (gl e) /\
      stampCount (gl (drawPoint e x y)) = stampCount (gl e)).
Proof.
  split; intros H.
  - destruct (accepted_finite e x y H) as [qx [qy [-> ->]]].
    unfold seedCount, stampCount.
    rewrite (drawPoint_accepted_trace e qx qy H). simpl. lia.
  - rewrite (drawPoint_rejected e x y H). split; reflexivity.
Qed.

Lemma drawPoint_seedPerStamp (e : DrawingEngine) (x y : number) :
  seedPerStamp e (drawPoint e x y).
Proof.
  unfold seedPerStamp.
  destruct (drawPoint_counts e x y) as [Hok Hbad].
  destruct (invalidCoordinates e x y).
  - destruct (Hbad eq_refl) as [-> ->]. lia.
  - destruct (Hok eq_refl) as [-> ->]. lia.
Qed.

Lemma drawLineFrom_seedPerStamp (x1 y1 x2 y2 : number) (steps : Z)
    (count i : nat) (e : DrawingEngine) :
  seedPerStamp e (drawLineFrom e x1 y1 x2 y2 steps i count).
Proof.
  revert i e. induction count as [| c IH]; intros i e; simpl.
  - apply seedPerStamp_refl.
  - eapply seedPerStamp_trans; [apply drawPoint_seedPerStamp | apply IH].
Qed.

Lemma drawLine_seedPerStamp (e e' : DrawingEngine) (x1 y1 x2 y2 : number) :
  drawLine e x1 y1 x2 y2 = Some e' -> seedPerStamp e e'.
Proof.
  unfold drawLine.
  destruct (lineSteps x1 y1 x2 y2) as [n | |]; intros [= <-].
  - exact (@drawLineFrom_seedPerStamp x1 y1 x2 y2 n (S (Z.to_nat n)) 0%nat e).
  - apply seedPerStamp_refl.
Qed.

Lemma clear_seedPerStamp (e : DrawingEngine) : seedPerStamp e (clear e).
Proof.
  unfold seedPerStamp, seedCount, stampCount, clear, renderToScreen,
    copyTexture, glClear.
  destruct (frontFramebuffer e), (backFramebuffer e); simpl; lia.
Qed.

Lemma call_seedPerStamp (e e' : DrawingEngine) (c : Call) :
  call e c = Some e' -> seedPerStamp e e'.
Proof.
  destruct c as [x y p | x y p | | t | r g b | size |]; simpl.
  - intros [= <-]. unfold startStroke.
    eapply seedPerStamp_trans; [| apply drawPoint_seedPerStamp].
    now apply seedPerStamp_same_gl.
  - unfold continueStroke.
    destruct (isDrawing e); simpl; [| intros [= <-]; apply seedPerStamp_refl].
    destruct (lastPoint e) as [lp |]; simpl.
    + destruct (drawLine _ _ _ _ _) as [d |] eqn:Hd; simpl; [| discriminate].
      intros [= <-]. apply drawLine_seedPerStamp in Hd.
      unfold seedPerStamp in *. simpl in *. exact Hd.
    + intros [= <-]. now apply seedPerStamp_same_gl.
  - intros [= <-]. now apply seedPerStamp_same_gl.
  - intros [= <-]. now apply seedPerStamp_same_gl.
  - intros [= <-]. now apply seedPerStamp_same_gl.
  - intros [= <-]. now apply seedPerStamp_same_gl.
  - intros [= <-]. apply clear_seedPerStamp.
Qed.

(** C3 as the code has it.  The seed, the [copyTexture] pass from the
    front texture into the back framebuffer, is the first pass of every stamp
    that passes the validation: an accepted [drawPoint] issues exactly one
    seed and one stamp, a rejected one issues neither, and over any
    sequence of API calls as many seeds as stamps are issued. *)
Theorem C3_seed_per_stamp (e : DrawingEngine) :
  (forall x y,
      invalidCoordinates e x y = false ->
      seedCount (gl (drawPoint e x y)) = S (seedCount (gl e)) /\
      stampCount (gl (drawPoint e x y)) = S (stampCount (gl e)))
  /\ (forall x y,
      invalidCoordinates e x y = true ->
      seedCount (gl (drawPoint e x y)) = seedCount (gl e) /\
      stampCount (gl (drawPoint e x y)) = stampCount (gl e))
  /\ (forall cs e', run e cs = Some e' -> seedPerStamp e e').
Proof.
  split; [intros x y; apply drawPoint_counts |].
  split; [intros x y; apply drawPoint_counts |].
  intros cs. revert e. induction cs as [| c cs IH]; intros e e'; simpl.
  - intros [= <-]. apply seedPerStamp_refl.
  - destruct (call e c) as [e1 |] eqn:Hc; [| discriminate].
    intros Hrun. eapply seedPerStamp_trans.
    + exact (call_seedPerStamp e c Hc).
    + apply IH. exact Hrun.
Qed.

(** ** Commit and seed *)

Lemma wellFormed_sameControl (e e' : DrawingEngine) :
  sameControl e e' -> wellFormed e -> wellFormed e'.
Proof.
  unfold sameControl, wellFormed.
  intros (_ & _ & _ & _ & _ & _ & _ & _ & _ & _ & -> & -> & -> & ->).
  tauto.
Qed.

Lemma wellFormed_swapBuffers (e : DrawingEngine) :
  wellFormed e -> wellFormed (swapBuffers e).
Proof. unfold wellFormed. simpl. intuition congruence. Qed.

Lemma clear_sameControl (e : DrawingEngine) : sameControl e (clear e).
Proof. unfold sameControl. simpl. tauto. Qed.

Lemma call_wellFormed (e e' : DrawingEngine) (c : Call) :
  call e c = Some e' -> wellFormed e -> wellFormed e'.
Proof.
  destruct c as [x y p | x y p | | t | r g b | size |]; simpl.
  - intros [= <-]. unfold startStroke. intros Hwf.
    eapply wellFormed_sameControl; [apply drawPoint_sameControl |].
    exact Hwf.
  - unfold continueStroke.
    destruct (isDrawing e); simpl; [| now intros [= <-]].
    destruct (lastPoint e) as [lp |]; simpl.
    + destruct (drawLine _ _ _ _ _) as [d |] eqn:Hd; simpl; [| discriminate].
      intros [= <-] Hwf. apply drawLine_sameControl in Hd.
      apply (wellFormed_sameControl Hd) in Hwf. exact Hwf.
    + now intros [= <-].
  - intros [= <-]. unfold endStroke. intros Hwf.
    now apply wellFormed_swapBuffers.
  - now intros [= <-].
  - now intros [= <-].
  - now intros [= <-].
  - intros [= <-]. apply wellFormed_sameControl, clear_sameControl.
Qed.

Lemma run_wellFormed (cs : list Call) (e e' : DrawingEngine) :
  run e cs = Some e' -> wellFormed e -> wellFormed e'.
Proof.
  revert e. induction cs as [| c cs IH]; intros e; simpl.
  - now intros [= <-].
  - destruct (call e c) as [e1 |] eqn:Hc; [| discriminate].
    intros Hrun Hwf. apply (IH e1 Hrun). exact (call_wellFormed _ Hc Hwf).
Qed.

Lemma readTexture_written (g : GPU) (f : FbId) (img : Image) :
  readTexture (writeTarget g (Some f) img) (attachment f) = img.
Proof. destruct f; reflexivity. Qed.

Lemma readTexture_logEvent (g : GPU) (ev : GLEvent) (t : TexId) :
  readTexture (logEvent g ev) t = readTexture g t.
Proof. destruct t; reflexivity. Qed.

Lemma readTexture_bindFramebuffer (g : GPU) (f : option FbId) (t : TexId) :
  readTexture (bindFramebuffer g f) t = readTexture g t.
Proof. destruct t; reflexivity. Qed.

(** the seed writes to the back buffer only, and only where the quad of
    the pass lies; it reads nothing of the front buffer *)
Lemma seed_images (e : DrawingEngine) :
  wellFormed e ->
  backImage (seed e)
  = afterCopy (canvasWidth e) (canvasHeight e) (backImage e)
  /\ frontImage (seed e) = frontImage e.
Proof.
  intros (Hf & Hb & Hne). unfold backImage, frontImage, afterCopy.
  destruct e as [cw ch tool col bs dr lp pr sp sf ft bt ff bf g wn].
  simpl in Hf, Hb, Hne.
  destruct ft, bt, ff, bf; simpl in Hf, Hb; try discriminate;
    try (exfalso; apply Hne; reflexivity);
    split; reflexivity.
Qed.

(** the commit makes the back buffer the front buffer *)
Lemma endStroke_commits (e : DrawingEngine) :
  frontImage (endStroke e) = backImage e /\
  backImage (endStroke e) = frontImage e.
Proof. split; reflexivity. Qed.

End EngineFacts.

(** ** The claims at concrete inputs *)

(** The constructor establishes the render-target invariant (and every
    API call keeps it, [run_wellFormed]). *)
Lemma newEngine_wellFormed (width height : Z) :
  wellFormed (newEngine width height).
Proof. repeat split; discriminate. Qed.

Lemma engine0_wellFormed : wellFormed engine0.
Proof. apply newEngine_wellFormed. Qed.

(** C3 as stated fails on the code: the stroke [strokeA], ended, issues
    seven seeds (one in [startStroke], six along the line of
    [continueStroke]) where the claim has exactly one. *)
Lemma C3_seed_once_counterexample :
  seedCount (gl engine0) = 0%nat /\
  option_map (fun e => seedCount (gl e))
    (run noFan engine0 (strokeA ++ [CEndStroke]))
  = Some 7%nat /\
  7%nat <> 1%nat.
Proof. split; [| split]; [vm_compute; reflexivity .. | discriminate]. Qed.

Lemma C3_seed_per_stamp_witness :
  invalidCoordinates engine0 (Fin 10) (Fin 10) = false /\
  seedCount (gl (drawPoint noFan engine0 (Fin 10) (Fin 10)))
  = S (seedCount (gl engine0)).
Proof.
  split; [vm_compute; reflexivity |].
  destruct (C3_seed_per_stamp noFan engine0) as [Hok _].
  destruct (Hok (Fin 10) (Fin 10)) as [Hseed _]; [vm_compute; reflexivity |].
  exact Hseed.
Defined.

Lemma run_strokeA :
  run noFan engine0 strokeA = Some afterTwoPoints.
Proof.
  unfold afterTwoPoints.
  assert (Hsome : match run noFan engine0 strokeA with
                  | Some _ => true
                  | None => false
                  end = true) by (vm_compute; reflexivity).
  destruct (run noFan engine0 strokeA);
    [reflexivity | discriminate].
Qed.

Lemma C5_bad_centre_dropped_witness :
  badCentre engine0 (Fin 900) NaN /\
  badCentre engine0 (Fin 900) (Fin 10) /\
  drawPoint noFan engine0 (Fin 900) NaN
  = warn engine0 (Fin 900) NaN /\
  gl (drawPoint noFan engine0 (Fin 900) (Fin 10)) = gl engine0.
Proof.
  assert (H1 : badCentre engine0 (Fin 900) NaN).
  { right. left. left. reflexivity. }
  assert (H2 : badCentre engine0 (Fin 900) (Fin 10)).
  { right. right. exists 900, 10. repeat split. right. left. reflexivity. }
  split; [exact H1 |]. split; [exact H2 |]. split.
  - apply (@C5_bad_centre_dropped noFan engine0 _ _ H1).
  - apply (@C5_bad_centre_dropped noFan engine0 _ _ H2).
Defined.

(** C8 as stated fails on the code: the first sample after
    [startStroke(0, 0)] is recorded as it is, [(10, 0)], where the blend
    by 0.1 would be [(1, 0)]. *)
Lemma C8_first_sample_counterexample :
  option_map (fun e => last_elem (strokePoints e))
    (continueStroke noFan
       (startStroke noFan engine0 (Fin 0) (Fin 0) (Fin 1))
       (Fin 10) (Fin 0) (Fin 1))
  = Some (Some (mkStrokePoint (Fin 10) (Fin 0) (Fin 1)))
  /\ blendToward 0 10 (1 # 10) == 1
  /\ ~ eqv (Fin 10) (Fin (blendToward 0 10 (1 # 10))).
Proof.
  split; [vm_compute; reflexivity |].
  split; [reflexivity |].
  simpl. intros H. discriminate H.
Qed.

Lemma C8_smoothed_point_witness :
  isDrawing afterTwoPoints = true /\
  smoothingFactor afterTwoPoints = 1 # 10 /\
  lastPoint afterTwoPoints = Some (mkPoint (Fin 20) (Fin 10)) /\
  last_elem (strokePoints afterTwoPoints)
  = Some (mkStrokePoint (Fin 20) (Fin 10) (Fin 1)) /\
  exists drawn,
    continueStroke noFan afterTwoPoints (Fin 40) (Fin 30) (Fin 1)
    = Some (withLastPoint drawn
              (Some (mkPoint (Fin (blendToward 20 40 (1 # 10)))
                             (Fin (blendToward 10 30 (1 # 10)))))).
Proof.
  assert (H1 : isDrawing afterTwoPoints = true)
    by (vm_compute; reflexivity).
  assert (H2 : smoothingFactor afterTwoPoints = 1 # 10)
    by (vm_compute; reflexivity).
  assert (H3 : lastPoint afterTwoPoints = Some (mkPoint (Fin 20) (Fin 10)))
    by (vm_compute; reflexivity).
  assert (H4 : last_elem (strokePoints afterTwoPoints)
               = Some (mkStrokePoint (Fin 20) (Fin 10) (Fin 1)))
    by (vm_compute; reflexivity).
  repeat (split; [assumption |]).
  destruct (@C8_smoothed_point noFan afterTwoPoints 40 30 (Fin 1)
              (mkStrokePoint (Fin 20) (Fin 10) (Fin 1)) 20 10 20 10
              H1 H2 H3 H4 eq_refl eq_refl) as [drawn [_ [Hc _]]].
  exists drawn. exact Hc.
Defined.

Lemma C10_continue_when_idle_witness :
  isDrawing engine0 = false /\
  continueStroke noFan engine0 (Fin 10) (Fin 10) (Fin 1)
  = Some engine0.
Proof.
  split; [vm_compute; reflexivity |].
  apply (@C10_continue_when_idle noFan engine0).
  vm_compute; reflexivity.
Defined.

(* ================================================================== *)
(** * Properties of the stamp blending *)
(* ================================================================== *)

Section Blending.

Lemma clamp01_range (x : Q) : 0 <= clamp01 x <= 1.
Proof.
  unfold clamp01, clamp.
  destruct (Q.max_spec x 0) as [[H1 H2] | [H1 H2]];
    destruct (Q.min_spec (Qmax x 0) 1) as [[H3 H4] | [H3 H4]];
    rewrite H4; try rewrite H2; split; lra.
Qed.

Lemma clamp01_id (x : Q) : 0 <= x <= 1 -> clamp01 x == x.
Proof.
  intros [H0 H1]. unfold clamp01, clamp.
  rewrite (Q.max_l x 0 H0). now apply Q.min_l.
Qed.

Lemma clamp01_le (x b : Q) : x <= b -> 0 <= b -> clamp01 x <= b.
Proof.
  intros Hx Hb. unfold clamp01, clamp.
  apply Qle_trans with (Qmax x 0); [apply Q.le_min_l |].
  now apply Q.max_lub.
Qed.

Lemma Qsquare_nonneg (x : Q) : 0 <= x * x.
Proof. destruct (Qlt_le_dec x 0); nra. Qed.

Lemma clamp01_one : clamp01 1 == 1.
Proof. apply clamp01_id. lra. Qed.

Lemma clamp01_zero : clamp01 0 == 0.
Proof. apply clamp01_id. lra. Qed.

Lemma clamp01_eqv (x v : Q) : x == v -> 0 <= v <= 1 -> clamp01 x == v.
Proof.
  intros Hx Hv. rewrite <- Hx in Hv. rewrite (clamp01_id Hv). exact Hx.
Qed.

(** a blended pixel is a colour a texture can hold *)
Lemma blend_valid (fs : BlendFactor * BlendFactor) (frag dst : Pixel) :
  validPixel (blend fs frag dst).
Proof.
  unfold validPixel, blend. cbn [red green blue alpha clampPixel].
  repeat split; apply clamp01_range.
Qed.

(** with [u_alpha = 1] the fragment of [mainProgram] is [u_color],
    whatever the texel *)
Lemma mainFragment_mix (texColor : Pixel) :
  pixelEq (FRAGMENT_SHADER texColor white 1) mainFragment.
Proof.
  unfold pixelEq, FRAGMENT_SHADER, mix, mainFragment, white.
  cbn [red green blue alpha]. repeat split; ring.
Qed.

(** an opaque white fragment under [blendFunc(SRC_ALPHA,
    ONE_MINUS_SRC_ALPHA)] replaces the pixel *)
Lemma blend_default_main (dst : Pixel) :
  pixelEq (blend defaultBlend mainFragment dst) white.
Proof.
  pose proof clamp01_one as H1.
  unfold pixelEq, blend, defaultBlend, mainFragment, white.
  cbn [fst snd factor red green blue alpha clampPixel].
  repeat split; apply clamp01_eqv; try lra; rewrite !H1; ring.
Qed.

Lemma blend_pen_main (dst : Pixel) :
  pixelEq (blend (blendFunc Pen) mainFragment dst) white.
Proof. exact (blend_default_main dst). Qed.

(** under [blendFunc(ZERO, ONE_MINUS_SRC_ALPHA)] it clears the pixel *)
Lemma blend_eraser_main (dst : Pixel) :
  pixelEq (blend (blendFunc Eraser) mainFragment dst) transparent.
Proof.
  pose proof clamp01_one as H1.
  unfold pixelEq, blend, blendFunc, mainFragment, white, transparent.
  cbn [isEraser fst snd factor red green blue alpha clampPixel].
  repeat split; apply clamp01_eqv; try lra; rewrite !H1; ring.
Qed.

(** the quad of [copyTexture] is two pixels wide around the window
    corner [(0, height)] *)
Lemma vertexWindow_eq (width height : Z) (ax ay : Q) :
  (1 <= width)%Z -> (1 <= height)%Z ->
  fst (vertexWindow width height ax ay) == ax /\
  snd (vertexWindow width height ax ay) == inject_Z height - ay.
Proof.
  intros Hw Hh.
  assert (Hw' : ~ inject_Z width == 0).
  { assert (H : inject_Z 0 < inject_Z width) by (rewrite <- Zlt_Qlt; lia).
    change (inject_Z 0) with 0 in H. lra. }
  assert (Hh' : ~ inject_Z height == 0).
  { assert (H : inject_Z 0 < inject_Z height) by (rewrite <- Zlt_Qlt; lia).
    change (inject_Z 0) with 0 in H. lra. }
  unfold vertexWindow. cbn [fst snd]. split; field; assumption.
Qed.

(** it covers one pixel of the target, the one at that corner *)
Lemma quadCovers_corner (width height i j : Z) :
  (1 <= width)%Z -> (1 <= height)%Z ->
  (quadCovers width height i j = true <-> i = 0%Z /\ j = (height - 1)%Z).
Proof.
  intros Hw Hh.
  destruct (@vertexWindow_eq width height (-1) 1 Hw Hh) as [Hx0 Hy0].
  destruct (@vertexWindow_eq width height 1 (-1) Hw Hh) as [Hx1 Hy1].
  unfold quadCovers. cbv zeta.
  rewrite !andb_true_iff, !Qle_bool_iff, Hx0, Hy0, Hx1, Hy1.
  rewrite !Z.leb_le, !Z.ltb_lt.
  split.
  - intros (((((((Hi0 & Hiw) & Hj0) & Hjh) & Ha) & Hb) & Hc) & Hd).
    assert (Hi : inject_Z i < inject_Z 1)
      by (change (inject_Z 1) with 1; lra).
    assert (Hj : inject_Z (height - 1) < inject_Z (j + 1)).
    { rewrite inject_Z_plus. unfold Z.sub. rewrite inject_Z_plus.
      change (inject_Z 1) with 1. change (inject_Z (- (1))) with (- (1)).
      lra. }
    rewrite <- Zlt_Qlt in Hi, Hj. lia.
  - intros [-> ->].
    unfold Z.sub. rewrite inject_Z_plus.
    change (inject_Z (- (1))) with (- (1)). change (inject_Z 0) with 0.
    repeat split; try lia; lra.
Qed.

(** X7.  What a [copyTexture] pass writes.  On a canvas of at least one
    pixel each way the quad of the pass covers exactly one pixel of its
    target, column 0 of the last row of the window; there the pass
    writes opaque white, and every other pixel of the target keeps its
    value.  The source texture does not enter the result: two passes
    that differ in it leave the same target. *)
Theorem X7_copy_writes_one_pixel (e : DrawingEngine) (src src' : TexId)
    (target : option FbId) (i j : Z) :
  (1 <= canvasWidth e)%Z -> (1 <= canvasHeight e)%Z ->
  (quadCovers (canvasWidth e) (canvasHeight e) i j = true
   <-> i = 0%Z /\ j = (canvasHeight e - 1)%Z)
  /\ readTarget (gl (copyTexture e src target)) target
     = afterCopy (canvasWidth e) (canvasHeight e)
                 (readTarget (gl e) target)
  /\ (quadCovers (canvasWidth e) (canvasHeight e) i j = true ->
      pixelEq (readTarget (gl (copyTexture e src target)) target i j)
              white)
  /\ (quadCovers (canvasWidth e) (canvasHeight e) i j = false ->
      readTarget (gl (copyTexture e src target)) target i j
      = readTarget (gl e) target i j)
  /\ readTarget (gl (copyTexture e src' target)) target
     = readTarget (gl (copyTexture e src target)) target.
Proof.
  intros Hw Hh.
  assert (Hcopy : forall s,
            readTarget (gl (copyTexture e s target)) target
            = afterCopy (canvasWidth e) (canvasHeight e)
                        (readTarget (gl e) target)).
  { intros s0. unfold copyTexture, afterCopy.
    destruct target as [[] |]; reflexivity. }
  split; [now apply quadCovers_corner |].
  split; [apply Hcopy |]. rewrite !Hcopy. unfold afterCopy.
  split; [intros ->; apply blend_default_main |].
  split; [intros ->; reflexivity | reflexivity].
Qed.

End Blending.

Lemma X7_copy_writes_one_pixel_witness :
  (1 <= canvasWidth engine0)%Z /\ (1 <= canvasHeight engine0)%Z /\
  quadCovers (canvasWidth engine0) (canvasHeight engine0) 0 599 = true /\
  pixelEq (readTarget (gl (copyTexture engine0 TexA (Some FbB)))
                      (Some FbB) 0%Z 599%Z)
          white.
Proof.
  assert (Hw : (1 <= canvasWidth engine0)%Z)
    by (vm_compute; intros H; discriminate H).
  assert (Hh : (1 <= canvasHeight engine0)%Z)
    by (vm_compute; intros H; discriminate H).
  assert (Hq : quadCovers (canvasWidth engine0) (canvasHeight engine0)
                 0 599 = true) by (vm_compute; reflexivity).
  split; [exact Hw |]. split; [exact Hh |]. split; [exact Hq |].
  destruct (@X7_copy_writes_one_pixel engine0 TexA TexA (Some FbB)
              0%Z 599%Z Hw Hh) as (_ & _ & H & _).
  exact (H Hq).
Defined.

(* ================================================================== *)
(** * Properties of the brush size *)
(* ================================================================== *)

Section BrushSize.

Lemma appSetBrushSize_stores (app : DrawingApp) (size : Z) :
  appBrushSize (appSetBrushSize app size) = size /\
  brushInSync (appSetBrushSize app size).
Proof.
  split; [reflexivity |].
  unfold brushInSync, appSetBrushSize. simpl.
  now destruct (drawingEngine app).
Qed.

Lemma handleKeyboard_range (app : DrawingApp) (k : BracketKey) :
  inBrushRange (appBrushSize app) ->
  inBrushRange (appBrushSize (handleKeyboard app k)).
Proof. unfold inBrushRange. destruct k; simpl; lia. Qed.

(** C9 as stated fails on the code: [setBrushSize(100)] stores 100. *)
Lemma C9_unclamped_counterexample :
  brushSize (setBrushSize engine0 100) = 100%Z /\
  appBrushSize (appSetBrushSize (newApp 800 600) 100) = 100%Z /\
  ~ inBrushRange 100.
Proof.
  split; [reflexivity |]. split; [reflexivity |].
  unfold inBrushRange. lia.
Qed.

(** C9 as the code has it.  [setBrushSize] stores its input as it is, in
    the application and in the engine.  The bracket keys step the radius
    by one and stop at 1 and at 50: from a radius in [1, 50] they give a
    radius in [1, 50], so after any sequence of bracket keys on the new
    application the radius is in [1, 50]. *)
Theorem C9_brush_size (app : DrawingApp) (e : DrawingEngine) (size : Z) :
  brushSize (setBrushSize e size) = size
  /\ appBrushSize (appSetBrushSize app size) = size
  /\ brushInSync (appSetBrushSize app size)
  /\ (forall k, inBrushRange (appBrushSize app) ->
        inBrushRange (appBrushSize (handleKeyboard app k))
        /\ brushInSync (handleKeyboard app k))
  /\ (forall keys width height,
        inBrushRange
          (appBrushSize (fold_left handleKeyboard keys (newApp width height)))).
Proof.
  split; [reflexivity |]. split; [reflexivity |].
  split; [apply appSetBrushSize_stores |]. split.
  - intros k Hr. split; [now apply handleKeyboard_range |].
    destruct k; apply appSetBrushSize_stores.
  - intros keys width height.
    assert (H : inBrushRange (appBrushSize (newApp width height)))
      by (unfold inBrushRange; simpl; lia).
    revert H. generalize (newApp width height) as a.
    induction keys as [| k keys IH]; intros a Ha; simpl; [exact Ha |].
    apply IH. now apply handleKeyboard_range.
Qed.

Lemma C9_brush_size_witness :
  inBrushRange (appBrushSize (newApp 800 600)) /\
  inBrushRange (appBrushSize (handleKeyboard (newApp 800 600) BracketRight)).
Proof.
  assert (H : inBrushRange (appBrushSize (newApp 800 600)))
    by (unfold inBrushRange; simpl; lia).
  split; [exact H |].
  destruct (C9_brush_size (newApp 800 600) engine0 7)
    as (_ & _ & _ & Hk & _).
  destruct (Hk BracketRight H) as [Hr _]. exact Hr.
Defined.

End BrushSize.

(* ================================================================== *)
(** * Invariants of the drawing engine *)
(* ================================================================== *)

Section EngineInvariants.

Variable fanCovers : Z -> Z -> bool.

Local Abbreviation drawPoint := (drawPoint fanCovers).
Local Abbreviation drawLineFrom := (drawLineFrom fanCovers).
Local Abbreviation drawLine := (drawLine fanCovers).
Local Abbreviation startStroke := (startStroke fanCovers).
Local Abbreviation continueStroke := (continueStroke fanCovers).
Local Abbreviation call := (call fanCovers).
Local Abbreviation run := (run fanCovers).

(** a property kept by every call is kept by every run *)
Lemma run_invariant (P : DrawingEngine -> Prop) :
  (forall e e' c, P e -> call e c = Some e' -> P e') ->
  forall cs e e', P e -> run e cs = Some e' -> P e'.
Proof.
  intros Hstep cs. induction cs as [| c cs IH]; intros e e' HP; simpl.
  - now intros [= <-].
  - destruct (call e c) as [e1 |] eqn:Hc; [| discriminate].
    intros Hrun. apply (IH e1 e'); [| exact Hrun].
    exact (Hstep e e1 c HP Hc).
Qed.

(** the two ways [continueStroke] returns *)
Lemma continueStroke_cases (e e' : DrawingEngine) (x y : number) (p : number) :
  continueStroke e x y p = Some e' ->
  (isDrawing e = false /\ e' = e)
  \/ (isDrawing e = true /\
      let sm := smoothPoint (setPressure e p) x y in
      exists d,
        e' = withLastPoint d (Some sm) /\
        ((exists lp, lastPoint e = Some lp /\
                     drawLine (recorded e sm p) (px lp) (py lp)
                              (px sm) (py sm) = Some d)
         \/ (lastPoint e = None /\ d = recorded e sm p))).
Proof.
  unfold continueStroke.
  destruct (isDrawing e); simpl; [| intros [= <-]; now left].
  intros H. right. split; [reflexivity |].
  destruct (lastPoint e) as [lp |]; simpl in H.
  - destruct (drawLine _ _ _ _ _) as [d |] eqn:Hd; simpl in H;
      [| discriminate].
    injection H as <-. exists d. split; [reflexivity |].
    left. exists lp. split; [reflexivity | exact Hd].
  - injection H as <-. eexists. split; [reflexivity |]. now right.
Qed.

Lemma continueStroke_control (e e' : DrawingEngine) (x y : number)
    (p : number) :
  continueStroke e x y p = Some e' -> isDrawing e = true ->
  let sm := smoothPoint (setPressure e p) x y in
  sameControl (withLastPoint (recorded e sm p) (Some sm)) e'.
Proof.
  intros H Hd sm.
  destruct (continueStroke_cases e x y p H) as [[Hf _] | [_ Hc]];
    [congruence |].
  destruct Hc as [d [-> [[lp [_ Hline]] | [_ ->]]]].
  - apply drawLine_sameControl in Hline.
    unfold sameControl in *. simpl in *. tauto.
  - apply sameControl_refl.
Qed.

Lemma clamp_pressure_range (p : Q) :
  1 # 10 <= Qmax (1 # 10) (Qmin 1 p) <= 1.
Proof.
  destruct (Q.min_spec 1 p) as [[H1 H2] | [H1 H2]];
    destruct (Q.max_spec (1 # 10) (Qmin 1 p)) as [[H3 H4] | [H3 H4]];
    rewrite H4; try rewrite H2; rewrite ?H2 in H3; split; lra.
Qed.

(** the clamp of [setPressure] on a sample that is a number *)
Lemma clampPressure_range (p : number) :
  isNaN p = false ->
  exists q, clampPressure p = Fin q /\ 1 # 10 <= q <= 1.
Proof.
  destruct p as [q | | |]; simpl; intros H; try discriminate H.
  - eexists. split; [reflexivity | apply clamp_pressure_range].
  - exists 1. split; [reflexivity | lra].
  - exists (1 # 10). split; [reflexivity | lra].
Qed.

(** the pressure after a call: the one before, or the clamped sample *)
Lemma call_pressure (e e' : DrawingEngine) (c : Call) :
  call e c = Some e' ->
  pressure e' = pressure e
  \/ exists x y p,
       (c = CStartStroke x y p \/ c = CContinueStroke x y p)
       /\ pressure e' = clampPressure p.
Proof.
  destruct c as [x y p | x y p | | t | r g b | size |]; simpl.
  - intros [= <-]. right. exists x, y, p. split; [now left |].
    destruct (drawPoint_sameControl fanCovers
                (setPressure
                   (withStrokePoints
                      (withLastPoint (withIsDrawing e true)
                         (Some (mkPoint x y)))
                      [mkStrokePoint x y p]) p) x y)
      as (_ & _ & _ & _ & _ & _ & _ & Hpr & _).
    unfold startStroke. rewrite Hpr. reflexivity.
  - intros H. destruct (isDrawing e) eqn:Hd.
    + right. exists x, y, p. split; [now right |].
      destruct (continueStroke_control e x y p H Hd)
        as (_ & _ & _ & _ & _ & _ & _ & Hpr & _).
      rewrite Hpr. reflexivity.
    + left. unfold continueStroke in H. rewrite Hd in H. simpl in H.
      now injection H as <-.
  - intros [= <-]. now left.
  - intros [= <-]. now left.
  - intros [= <-]. now left.
  - intros [= <-]. now left.
  - intros [= <-]. now left.
Qed.

Lemma call_pressure_any (e e' : DrawingEngine) (c : Call) :
  pressure e = NaN \/ pressureInRange e ->
  call e c = Some e' ->
  pressure e' = NaN \/ pressureInRange e'.
Proof.
  unfold pressureInRange. intros Hp Hc.
  destruct (call_pressure e c Hc) as [-> | (x & y & p & _ & Hpr)];
    [exact Hp |].
  destruct (isNaN p) eqn:Hn.
  - left. rewrite Hpr. destruct p; try discriminate Hn. reflexivity.
  - right. rewrite Hpr. now apply clampPressure_range.
Qed.

Lemma run_pressure (cs : list Call) (e e' : DrawingEngine) :
  forallb definedSample cs = true ->
  pressureInRange e -> run e cs = Some e' -> pressureInRange e'.
Proof.
  revert e. induction cs as [| c cs IH]; intros e Hcs Hp; simpl.
  - now intros [= <-].
  - simpl in Hcs. apply andb_prop in Hcs. destruct Hcs as [Hc Hcs].
    destruct (call e c) as [e1 |] eqn:Hcall; [| discriminate].
    apply (IH e1 Hcs). unfold pressureInRange in *.
    destruct (call_pressure e c Hcall) as [-> | (x & y & p & Hk & Hpr)];
      [exact Hp |].
    rewrite Hpr. apply clampPressure_range.
    destruct Hk as [-> | ->]; simpl in Hc;
      now apply negb_true_iff in Hc.
Qed.

(** X1.  The pressure of the engine is the clamp of its last sample: 1
    after the constructor, then [Math.max(0.1, Math.min(1.0, p))] for the
    sample [p] of every [startStroke] and of every [continueStroke] of a
    stroke in progress.  After any calls it is therefore a number of
    [0.1, 1] or [NaN]; when no sample was [NaN] it is in [0.1, 1], and
    the radius [drawPoint] computes for a stamp, [brushSize * pressure],
    lies between a tenth of the brush size and the brush size.  A [NaN]
    sample is not clamped: after [startStroke(x, y, NaN)] the pressure is
    [NaN]. *)
Theorem X1_pressure_clamped (width height : Z) (cs : list Call)
    (e : DrawingEngine) :
  run (newEngine width height) cs = Some e ->
  (pressure e = NaN \/ pressureInRange e) /\
  (forallb definedSample cs = true ->
     pressureInRange e /\
     forall x y, (0 <= brushSize e)%Z ->
       exists r, u_radius (stampUniforms e x y) = Fin r /\
                 inject_Z (brushSize e) * (1 # 10) <= r
                 /\ r <= inject_Z (brushSize e)) /\
  (forall e0 x y, pressure (startStroke e0 x y NaN) = NaN).
Proof.
  intros Hrun.
  assert (H0 : pressureInRange (newEngine width height)).
  { exists 1. split; [reflexivity | lra]. }
  split; [| split].
  - apply (run_invariant (fun e => pressure e = NaN \/ pressureInRange e)
             call_pressure_any cs (newEngine width height));
      [now right | exact Hrun].
  - intros Hcs.
    pose proof (run_pressure cs Hcs H0 Hrun) as Hp.
    split; [exact Hp |].
    intros x y Hb. destruct Hp as [q [Hq Hr]].
    exists (inject_Z (brushSize e) * q). unfold stampUniforms. simpl.
    rewrite Hq. split; [reflexivity |].
    assert (Hz : 0 <= inject_Z (brushSize e)).
    { change 0 with (inject_Z 0). now rewrite <- Zle_Qle. }
    split; nra.
  - intros e0 x y.
    destruct (drawPoint_sameControl fanCovers
                (setPressure
                   (withStrokePoints
                      (withLastPoint (withIsDrawing e0 true)
                         (Some (mkPoint x y)))
                      [mkStrokePoint x y NaN]) NaN) x y)
      as (_ & _ & _ & _ & _ & _ & _ & Hpr & _).
    unfold startStroke. rewrite Hpr. reflexivity.
Qed.

(** ** The stroke state *)

Lemma strokeState_sameControl (e e' : DrawingEngine) :
  sameControl e e' -> strokeState e -> strokeState e'.
Proof.
  unfold sameControl, strokeState.
  intros (_ & _ & _ & _ & _ & -> & -> & _ & -> & _). tauto.
Qed.

Lemma call_strokeState (e e' : DrawingEngine) (c : Call) :
  strokeState e -> call e c = Some e' -> strokeState e'.
Proof.
  intros Hs.
  destruct c as [x y p | x y p | | t | r g b | size |]; simpl.
  - intros [= <-]. unfold startStroke.
    eapply strokeState_sameControl; [apply drawPoint_sameControl |].
    unfold strokeState. simpl.
    exists (mkPoint x y), (mkStrokePoint x y p). repeat split.
  - intros H. destruct (isDrawing e) eqn:Hd.
    + eapply strokeState_sameControl;
        [exact (continueStroke_control e x y p H Hd) |].
      unfold strokeState. simpl. rewrite Hd.
      eexists; eexists. split; [reflexivity |].
      split; [apply last_elem_snoc |]. split; reflexivity.
    + unfold continueStroke in H. rewrite Hd in H. simpl in H.
      now injection H as <-.
  - intros [= <-]. unfold strokeState. simpl. split; reflexivity.
  - now intros [= <-].
  - now intros [= <-].
  - now intros [= <-].
  - intros [= <-].
    exact (strokeState_sameControl (clear_sameControl e) Hs).
Qed.

(** X2.  After the constructor and any sequence of API calls, the stroke
    state is coherent: while a stroke is in progress there is a last
    point and it is the last recorded stroke point; while none is, there
    is no last point and no recorded point. *)
Theorem X2_stroke_state (width height : Z) (cs : list Call)
    (e : DrawingEngine) :
  run (newEngine width height) cs = Some e -> strokeState e.
Proof.
  apply (run_invariant strokeState call_strokeState cs
           (newEngine width height)).
  unfold strokeState. simpl. split; reflexivity.
Qed.

(** ** The two buffers during a stroke *)

(** an accepted stamp, on the images: the quad of the seed and the fan
    are drawn into the back buffer, the quad of [renderToScreen] onto the
    canvas, and the front buffer keeps its image *)
Lemma drawPoint_images (e : DrawingEngine) (qx qy : Q) :
  wellFormed e ->
  invalidCoordinates e (Fin qx) (Fin qy) = false ->
  backImage (drawPoint e (Fin qx) (Fin qy))
  = afterFan fanCovers (currentTool e)
      (afterCopy (canvasWidth e) (canvasHeight e) (backImage e))
  /\ screen (gl (drawPoint e (Fin qx) (Fin qy)))
     = afterCopy (canvasWidth e) (canvasHeight e) (screen (gl e))
  /\ frontImage (drawPoint e (Fin qx) (Fin qy)) = frontImage e.
Proof.
  intros (Hf & Hb & Hne) Hok.
  rewrite (drawPoint_accepted fanCovers e qx qy Hok).
  unfold backImage, frontImage, afterFan, afterCopy.
  destruct e as [cw ch tool col bs dr lp pr sp sf ft bt ff bf g wn].
  simpl in Hf, Hb, Hne.
  destruct ft, bt, ff, bf; simpl in Hf, Hb; try discriminate;
    try (exfalso; apply Hne; reflexivity);
    repeat split; reflexivity.
Qed.

Lemma drawPoint_frontImage (e : DrawingEngine) (x y : number) :
  wellFormed e -> frontImage (drawPoint e x y) = frontImage e.
Proof.
  intros Hwf.
  destruct (invalidCoordinates e x y) eqn:Hv.
  - now rewrite (drawPoint_rejected fanCovers e x y Hv).
  - destruct (accepted_finite e x y Hv) as [qx [qy [-> ->]]].
    now destruct (@drawPoint_images e qx qy Hwf Hv) as (_ & _ & H).
Qed.

Lemma drawLineFrom_frontImage (x1 y1 x2 y2 : number) (steps : Z)
    (count i : nat) (e : DrawingEngine) :
  wellFormed e ->
  frontImage (drawLineFrom e x1 y1 x2 y2 steps i count) = frontImage e.
Proof.
  revert i e. induction count as [| c IH]; intros i e Hwf; simpl.
  - reflexivity.
  - rewrite IH.
    + now apply drawPoint_frontImage.
    + exact (wellFormed_sameControl
               (drawPoint_sameControl fanCovers e _ _) Hwf).
Qed.

Lemma drawLine_frontImage (e e' : DrawingEngine) (x1 y1 x2 y2 : number) :
  wellFormed e -> drawLine e x1 y1 x2 y2 = Some e' ->
  frontImage e' = frontImage e.
Proof.
  intros Hwf. unfold drawLine.
  destruct (lineSteps x1 y1 x2 y2) as [n | |]; intros [= <-].
  - exact (@drawLineFrom_frontImage x1 y1 x2 y2 n (S (Z.to_nat n)) 0%nat
             e Hwf).
  - reflexivity.
Qed.

(** X3.  The front buffer is the committed image for the whole of a
    stroke: from a state with the render-target invariant, every call
    other than [endStroke] and [clear] (so every stamp of [startStroke]
    and of the lines of [continueStroke]) leaves the front image as it
    was. *)
Theorem X3_front_image_kept (e e' : DrawingEngine) (c : Call) :
  wellFormed e -> changesFront c = false -> call e c = Some e' ->
  frontImage e' = frontImage e.
Proof.
  intros Hwf Hc.
  destruct c as [x y p | x y p | | t | r g b | size |]; simpl;
    try discriminate Hc.
  - intros [= <-]. unfold startStroke.
    now rewrite drawPoint_frontImage.
  - intros H.
    destruct (continueStroke_cases e x y p H) as [[_ ->] | [_ Hcase]];
      [reflexivity |].
    destruct Hcase as [d [-> [[lp [_ Hline]] | [_ ->]]]].
    + change (frontImage d = frontImage e).
      now rewrite (@drawLine_frontImage
                     (recorded e (smoothPoint (setPressure e p) x y) p)
                     d _ _ _ _ Hwf Hline).
    + reflexivity.
  - now intros [= <-].
  - now intros [= <-].
  - now intros [= <-].
Qed.

(** X4.  What an accepted stamp does to the back buffer.  It is the
    back buffer as it was, with the pixel under the quad of the seed pass
    overwritten and the pixels of the fan blended with the fragment of
    the main program; every other pixel keeps its value.  Nothing of the
    front image enters it, and neither the centre of the stamp nor the
    colour, the brush size or the pressure of the engine does: two
    accepted stamps give the same back buffer. *)
Theorem X4_stamp_passes (e : DrawingEngine) (ax ay qx qy : Q) :
  wellFormed e ->
  invalidCoordinates e (Fin ax) (Fin ay) = false ->
  invalidCoordinates e (Fin qx) (Fin qy) = false ->
  backImage (drawPoint e (Fin qx) (Fin qy))
  = afterFan fanCovers (currentTool e)
      (afterCopy (canvasWidth e) (canvasHeight e) (backImage e))
  /\ frontImage (drawPoint e (Fin qx) (Fin qy)) = frontImage e
  /\ backImage (drawPoint e (Fin ax) (Fin ay))
     = backImage (drawPoint e (Fin qx) (Fin qy))
  /\ (forall r g b size p,
        backImage (drawPoint
                     (setPressure (setBrushSize (setColor e r g b) size) p)
                     (Fin qx) (Fin qy))
        = backImage (drawPoint e (Fin qx) (Fin qy)))
  /\ (forall i j,
        quadCovers (canvasWidth e) (canvasHeight e) i j = false ->
        fanCovers i j = false ->
        backImage (drawPoint e (Fin qx) (Fin qy)) i j = backImage e i j).
Proof.
  intros Hwf Ha Hq.
  destruct (@drawPoint_images e qx qy Hwf Hq) as (Hb & _ & Hfr).
  destruct (@drawPoint_images e ax ay Hwf Ha) as (Hb' & _ & _).
  split; [exact Hb |]. split; [exact Hfr |].
  split; [now rewrite Hb, Hb' |]. split.
  - intros r g b size p.
    destruct (@drawPoint_images
                (setPressure (setBrushSize (setColor e r g b) size) p)
                qx qy Hwf Hq) as (Hb2 & _ & _).
    rewrite Hb2, Hb. reflexivity.
  - intros i j Hquad Hfan. rewrite Hb. unfold afterFan, afterCopy.
    now rewrite Hfan, Hquad.
Qed.

(** X5.  [endStroke] commits whatever the back buffer holds.  A stroke
    whose only stamp is rejected commits the stale back buffer; after a
    committed one-stamp stroke, such a stroke brings the front image back
    to what it was before that stroke. *)
Theorem X5_rejected_stroke_commits_stale (e : DrawingEngine)
    (gx gy : Q) (p : number) (bx by' : number) :
  wellFormed e ->
  invalidCoordinates e (Fin gx) (Fin gy) = false ->
  invalidCoordinates e bx by' = true ->
  frontImage (endStroke (startStroke e bx by' p)) = backImage e
  /\ frontImage
       (endStroke
          (startStroke (endStroke (startStroke e (Fin gx) (Fin gy) p))
                       bx by' p))
     = frontImage e.
Proof.
  intros Hwf Hg Hb. split.
  - unfold startStroke. rewrite drawPoint_rejected by exact Hb.
    reflexivity.
  - set (e1 := endStroke (startStroke e (Fin gx) (Fin gy) p)).
    assert (Hb1 : invalidCoordinates e1 bx by' = true).
    { pose proof (drawPoint_sameControl fanCovers
                    (setPressure
                       (withStrokePoints
                          (withLastPoint (withIsDrawing e true)
                             (Some (mkPoint (Fin gx) (Fin gy))))
                          [mkStrokePoint (Fin gx) (Fin gy) p]) p)
                    (Fin gx) (Fin gy)) as (Hw & Hh & _).
      unfold invalidCoordinates, e1, endStroke, startStroke in *.
      simpl in *. rewrite Hw, Hh. exact Hb. }
    unfold startStroke at 1. rewrite drawPoint_rejected by exact Hb1.
    change (backImage e1 = frontImage e).
    unfold e1. destruct (endStroke_commits (startStroke e (Fin gx) (Fin gy) p))
      as [_ ->].
    unfold startStroke. now rewrite drawPoint_frontImage.
Qed.

(** [clear], on the images *)
Lemma clear_images (e : DrawingEngine) :
  wellFormed e ->
  frontImage (clear e) = uniformImage white
  /\ backImage (clear e) = uniformImage white
  /\ screen (gl (clear e))
     = afterCopy (canvasWidth e) (canvasHeight e) (screen (gl e)).
Proof.
  intros (Hf & Hb & Hne).
  unfold frontImage, backImage, uniformImage, afterCopy.
  destruct e as [cw ch tool col bs dr lp pr sp sf ft bt ff bf g wn].
  simpl in Hf, Hb, Hne.
  destruct ft, bt, ff, bf; simpl in Hf, Hb; try discriminate;
    try (exfalso; apply Hne; reflexivity);
    repeat split; reflexivity.
Qed.

(** X6.  [clear] makes the front buffer and the back buffer white and
    touches no control field: a stroke in progress stays in progress,
    with its points.  On the canvas it writes the one pixel under the
    quad of [renderToScreen]'s pass and leaves every other pixel as it
    was. *)
Theorem X6_clear_white (e : DrawingEngine) :
  wellFormed e ->
  frontImage (clear e) = uniformImage white
  /\ backImage (clear e) = uniformImage white
  /\ screen (gl (clear e))
     = afterCopy (canvasWidth e) (canvasHeight e) (screen (gl e))
  /\ (forall i j,
        quadCovers (canvasWidth e) (canvasHeight e) i j = false ->
        screen (gl (clear e)) i j = screen (gl e) i j)
  /\ sameControl e (clear e).
Proof.
  intros Hwf.
  destruct (@clear_images e Hwf) as (Hfr & Hbk & Hscreen).
  split; [exact Hfr |]. split; [exact Hbk |]. split; [exact Hscreen |].
  split; [| apply clear_sameControl].
  intros i j Hquad. rewrite Hscreen. unfold afterCopy. now rewrite Hquad.
Qed.

(** ** Properties of images kept by every call *)

Section ImageInvariant.

Variable allowed : Tool -> bool.
Variable I : Z -> Z -> Image -> Prop.

Hypothesis I_stamp :
  forall width height t img,
    allowed t = true -> I width height img ->
    I width height (afterFan fanCovers t (afterCopy width height img)).

Hypothesis I_white : forall width height, I width height (uniformImage white).

Lemma drawPoint_keeps (e : DrawingEngine) (x y : number) :
  keepsImages allowed I e -> keepsImages allowed I (drawPoint e x y).
Proof.
  intros (Hwf & Ht & Hfront & Hback).
  pose proof (drawPoint_sameControl fanCovers e x y) as Hsame.
  pose proof (wellFormed_sameControl Hsame Hwf) as Hwf'.
  destruct Hsame as (Hw & Hh & Htool & _).
  unfold keepsImages. rewrite Hw, Hh, Htool.
  split; [exact Hwf' |]. split; [exact Ht |].
  destruct (invalidCoordinates e x y) eqn:Hv.
  - rewrite (drawPoint_rejected fanCovers e x y Hv). now split.
  - destruct (accepted_finite e x y Hv) as [qx [qy [-> ->]]].
    destruct (@drawPoint_images e qx qy Hwf Hv) as (-> & _ & ->).
    split; [exact Hfront |]. now apply I_stamp.
Qed.

Lemma drawLineFrom_keeps (x1 y1 x2 y2 : number) (steps : Z)
    (count i : nat) (e : DrawingEngine) :
  keepsImages allowed I e ->
  keepsImages allowed I (drawLineFrom e x1 y1 x2 y2 steps i count).
Proof.
  revert i e. induction count as [| c IH]; intros i e H; simpl.
  - exact H.
  - apply IH. now apply drawPoint_keeps.
Qed.

Lemma drawLine_keeps (e e' : DrawingEngine) (x1 y1 x2 y2 : number) :
  keepsImages allowed I e -> drawLine e x1 y1 x2 y2 = Some e' ->
  keepsImages allowed I e'.
Proof.
  intros H. unfold drawLine.
  destruct (lineSteps x1 y1 x2 y2) as [n | |]; intros [= <-].
  - exact (@drawLineFrom_keeps x1 y1 x2 y2 n (S (Z.to_nat n)) 0%nat e H).
  - exact H.
Qed.

Lemma call_keeps (e e' : DrawingEngine) (c : Call) :
  callAllowed allowed c = true ->
  keepsImages allowed I e -> call e c = Some e' -> keepsImages allowed I e'.
Proof.
  intros Hc H.
  destruct c as [x y p | x y p | | t | r g b | size |]; simpl.
  - intros [= <-]. unfold startStroke. apply drawPoint_keeps. exact H.
  - intros Hcont.
    destruct (continueStroke_cases e x y p Hcont) as [[_ ->] | [_ Hcase]];
      [exact H |].
    destruct Hcase as [d [-> [[lp [_ Hline]] | [_ ->]]]].
    + change (keepsImages allowed I d).
      exact (@drawLine_keeps
               (recorded e (smoothPoint (setPressure e p) x y) p)
               d _ _ _ _ H Hline).
    + exact H.
  - intros [= <-]. destruct H as (Hwf & Ht & Hfront & Hback).
    split; [now apply wellFormed_swapBuffers |]. split; [exact Ht |].
    split; [exact Hback | exact Hfront].
  - intros [= <-]. destruct H as (Hwf & _ & Hfront & Hback).
    split; [exact Hwf |]. split; [exact Hc |]. split; assumption.
  - now intros [= <-].
  - now intros [= <-].
  - intros [= <-]. destruct H as (Hwf & Ht & _ & _).
    destruct (@clear_images e Hwf) as (Hfr & Hbk & _).
    pose proof (clear_sameControl e) as Hsame.
    split; [exact (wellFormed_sameControl Hsame Hwf) |].
    destruct Hsame as (Hw & Hh & Htool & _).
    rewrite Htool, Hw, Hh, Hfr, Hbk.
    split; [exact Ht |]. split; apply I_white.
Qed.

Lemma run_keeps (cs : list Call) (e e' : DrawingEngine) :
  forallb (callAllowed allowed) cs = true ->
  keepsImages allowed I e -> run e cs = Some e' -> keepsImages allowed I e'.
Proof.
  revert e. induction cs as [| c cs IH]; intros e Hcs H; simpl.
  - now intros [= <-].
  - simpl in Hcs. apply andb_prop in Hcs. destruct Hcs as [Hc Hcs].
    destruct (call e c) as [e1 |] eqn:Hcall; [| discriminate].
    intros Hrun. apply (IH e1 Hcs); [| exact Hrun].
    exact (@call_keeps e e1 c Hc H Hcall).
Qed.

End ImageInvariant.

(** ** What the passes of a stamp leave of an image *)

Lemma settled_stamp (width height : Z) (t : Tool) (img : Image) :
  anyTool t = true ->
  settledImage fanCovers width height img ->
  settledImage fanCovers width height
    (afterFan fanCovers t (afterCopy width height img)).
Proof.
  intros _ H i j. unfold afterFan, afterCopy.
  destruct (H i j) as [Hvalid Hquad].
  destruct (fanCovers i j) eqn:Hfan.
  - split; [apply blend_valid | discriminate].
  - destruct (quadCovers width height i j) eqn:Hq.
    + split; [apply blend_valid |]. intros _ _.
      destruct (blend_default_main (img i j)) as (_ & _ & _ & Ha).
      rewrite Ha. reflexivity.
    + split; [exact Hvalid | discriminate].
Qed.

Lemma settled_white (width height : Z) :
  settledImage fanCovers width height (uniformImage white).
Proof.
  intros i j. unfold uniformImage, validPixel, white. simpl.
  split; [repeat split; lra | reflexivity].
Qed.

Lemma white_stamp (width height : Z) (t : Tool) (img : Image) :
  isPen t = true ->
  whiteImage img ->
  whiteImage (afterFan fanCovers t (afterCopy width height img)).
Proof.
  intros Ht H i j. unfold afterFan, afterCopy.
  destruct t; [| discriminate Ht].
  destruct (fanCovers i j); [apply blend_pen_main |].
  destruct (quadCovers width height i j); [apply blend_default_main |].
  apply H.
Qed.

Lemma white_white : whiteImage (uniformImage white).
Proof. intros i j. unfold uniformImage, pixelEq. repeat split; reflexivity. Qed.

Lemma newEngine_keeps (allowed : Tool -> bool)
    (I : Z -> Z -> Image -> Prop) (width height : Z) :
  allowed Pen = true ->
  (forall w h, I w h (uniformImage white)) ->
  keepsImages allowed I (newEngine width height).
Proof.
  intros Hpen Hwhite.
  split; [apply newEngine_wellFormed |]. split; [exact Hpen |].
  split; apply Hwhite.
Qed.

Lemma anyTool_calls (cs : list Call) : forallb (callAllowed anyTool) cs = true.
Proof.
  induction cs as [| c cs IH]; [reflexivity |].
  simpl. rewrite IH. now destruct c.
Qed.

(** C6 on the code.  A stamp is what [drawPoint] does to the back
    buffer.  From the constructor on, whatever calls came before: with
    the eraser selected, no pixel of the back buffer has a larger alpha
    after the stamp than before it; with the pen selected, a pixel at the
    background value, white, is at the background value after it.  A
    stamp at rejected coordinates changes no pixel. *)
Theorem C6_stamp_alpha (width height : Z) (cs : list Call)
    (e : DrawingEngine) (x y : number) (i j : Z) :
  run (newEngine width height) cs = Some e ->
  (currentTool e = Eraser ->
   alpha (backImage (drawPoint e x y) i j) <= alpha (backImage e i j))
  /\ (currentTool e = Pen ->
      pixelEq (backImage e i j) white ->
      pixelEq (backImage (drawPoint e x y) i j) white).
Proof.
  intros Hrun.
  assert (Hk : keepsImages anyTool (settledImage fanCovers) e).
  { apply (@run_keeps anyTool (settledImage fanCovers)
             settled_stamp settled_white cs (newEngine width height) e
             (anyTool_calls cs)); [| exact Hrun].
    apply newEngine_keeps; [reflexivity | apply settled_white]. }
  destruct Hk as (Hwf & _ & _ & Hback).
  destruct (invalidCoordinates e x y) eqn:Hv.
  - rewrite (drawPoint_rejected fanCovers e x y Hv).
    change (backImage (warn e x y)) with (backImage e).
    split; intros; [apply Qle_refl | assumption].
  - destruct (accepted_finite e x y Hv) as [qx [qy [-> ->]]].
    destruct (@drawPoint_images e qx qy Hwf Hv) as (-> & _ & _).
    unfold afterFan, afterCopy.
    destruct (Hback i j) as [Hvalid Hquad].
    destruct (fanCovers i j) eqn:Hfan;
      [| destruct (quadCovers (canvasWidth e) (canvasHeight e) i j) eqn:Hq].
    + split.
      * intros ->.
        destruct (blend_eraser_main (afterCopy (canvasWidth e)
                                       (canvasHeight e) (backImage e) i j))
          as (_ & _ & _ & Ha).
        unfold afterCopy in Ha. rewrite Ha. apply Hvalid.
      * intros -> _. apply blend_pen_main.
    + split.
      * intros _.
        destruct (blend_default_main (backImage e i j)) as (_ & _ & _ & Ha).
        rewrite Ha, (Hquad eq_refl eq_refl). apply Qle_refl.
      * intros _ _. apply blend_default_main.
    + split; intros; [apply Qle_refl | assumption].
Qed.

(** X10.  Nothing drawn with the pen shows.  After the constructor and
    any calls that never select the eraser, the front and the back
    buffer are white at every pixel, whatever the colour, the brush size,
    the pressures and the points of the strokes: the fragment a pen
    stamp composites is the opaque white one of the main program. *)
Theorem X10_pen_draws_white (width height : Z) (cs : list Call)
    (e : DrawingEngine) :
  forallb (callAllowed isPen) cs = true ->
  run (newEngine width height) cs = Some e ->
  currentTool e = Pen
  /\ whiteImage (frontImage e) /\ whiteImage (backImage e).
Proof.
  intros Hcs Hrun.
  assert (Hk : keepsImages isPen (fun _ _ => whiteImage) e).
  { apply (@run_keeps isPen (fun _ _ => whiteImage)
             white_stamp (fun _ _ => white_white)
             cs (newEngine width height) e Hcs); [| exact Hrun].
    apply newEngine_keeps; [reflexivity | intros; apply white_white]. }
  destruct Hk as (_ & Ht & Hfront & Hback).
  split; [| now split].
  destruct (currentTool e); [reflexivity | discriminate Ht].
Qed.

(** X11.  An eraser stamp at accepted coordinates clears every pixel the
    fan reaches to transparent black, all channels 0, whatever the pixel
    held and whatever the centre, the brush size and the pressure: there
    is no soft edge.  Where the fan does not reach, the pixel under the
    quad of the seed pass is white and every other pixel keeps its
    value. *)
Theorem X11_eraser_stamp (e : DrawingEngine) (qx qy : Q) (i j : Z) :
  wellFormed e ->
  currentTool e = Eraser ->
  invalidCoordinates e (Fin qx) (Fin qy) = false ->
  (fanCovers i j = true ->
   pixelEq (backImage (drawPoint e (Fin qx) (Fin qy)) i j) transparent)
  /\ (fanCovers i j = false ->
      quadCovers (canvasWidth e) (canvasHeight e) i j = true ->
      pixelEq (backImage (drawPoint e (Fin qx) (Fin qy)) i j) white)
  /\ (fanCovers i j = false ->
      quadCovers (canvasWidth e) (canvasHeight e) i j = false ->
      backImage (drawPoint e (Fin qx) (Fin qy)) i j = backImage e i j).
Proof.
  intros Hwf Ht Hv.
  destruct (@drawPoint_images e qx qy Hwf Hv) as (-> & _ & _).
  unfold afterFan, afterCopy. rewrite Ht.
  split; [| split].
  - intros ->. apply blend_eraser_main.
  - intros -> ->. apply blend_default_main.
  - intros -> ->. reflexivity.
Qed.

End EngineInvariants.

Lemma X1_pressure_clamped_witness :
  run noFan (newEngine 800 600) strokeA = Some afterTwoPoints /\
  pressureInRange afterTwoPoints.
Proof.
  split; [exact run_strokeA |].
  destruct (@X1_pressure_clamped noFan 800 600 strokeA
              afterTwoPoints run_strokeA) as (_ & Hp & _).
  apply Hp. reflexivity.
Defined.

Lemma X2_stroke_state_witness :
  run noFan (newEngine 800 600) strokeA = Some afterTwoPoints /\
  strokeState afterTwoPoints.
Proof.
  split; [exact run_strokeA |].
  apply (@X2_stroke_state noFan 800 600 strokeA
           afterTwoPoints run_strokeA).
Defined.

Lemma X3_front_image_kept_witness :
  wellFormed engine0 /\
  changesFront (CStartStroke (Fin 10) (Fin 10) (Fin 1)) = false /\
  frontImage (startStroke noFan engine0 (Fin 10) (Fin 10) (Fin 1))
  = frontImage engine0.
Proof.
  split; [exact engine0_wellFormed |]. split; [reflexivity |].
  apply (@X3_front_image_kept noFan engine0 _
           (CStartStroke (Fin 10) (Fin 10) (Fin 1)) engine0_wellFormed eq_refl).
  reflexivity.
Defined.

Lemma engine0_accepts_10_10 :
  invalidCoordinates engine0 (Fin 10) (Fin 10) = false.
Proof. vm_compute. reflexivity. Qed.

Lemma engine0_accepts_20_10 :
  invalidCoordinates engine0 (Fin 20) (Fin 10) = false.
Proof. vm_compute. reflexivity. Qed.

Lemma X4_stamp_passes_witness :
  wellFormed engine0 /\
  invalidCoordinates engine0 (Fin 10) (Fin 10) = false /\
  invalidCoordinates engine0 (Fin 20) (Fin 10) = false /\
  backImage (drawPoint noFan engine0 (Fin 10) (Fin 10))
  = backImage (drawPoint noFan engine0 (Fin 20) (Fin 10)).
Proof.
  split; [exact engine0_wellFormed |].
  split; [exact engine0_accepts_10_10 |].
  split; [exact engine0_accepts_20_10 |].
  destruct (@X4_stamp_passes noFan engine0 10 10 20 10
              engine0_wellFormed engine0_accepts_10_10
              engine0_accepts_20_10) as (_ & _ & H & _).
  exact H.
Defined.

Lemma engine0_rejects_NaN :
  invalidCoordinates engine0 NaN (Fin 10) = true.
Proof. vm_compute. reflexivity. Qed.

Lemma X5_rejected_stroke_commits_stale_witness :
  wellFormed engine0 /\
  invalidCoordinates engine0 (Fin 10) (Fin 10) = false /\
  invalidCoordinates engine0 NaN (Fin 10) = true /\
  frontImage
    (endStroke
       (startStroke noFan
          (endStroke (startStroke noFan engine0
                        (Fin 10) (Fin 10) (Fin 1)))
          NaN (Fin 10) (Fin 1)))
  = frontImage engine0.
Proof.
  split; [exact engine0_wellFormed |].
  split; [exact engine0_accepts_10_10 |].
  split; [exact engine0_rejects_NaN |].
  apply (@X5_rejected_stroke_commits_stale noFan engine0
           10 10 (Fin 1) NaN (Fin 10)
           engine0_wellFormed engine0_accepts_10_10 engine0_rejects_NaN).
Defined.

Lemma X6_clear_white_witness :
  wellFormed afterTwoPoints /\
  frontImage (clear afterTwoPoints) = uniformImage white /\
  isDrawing (clear afterTwoPoints) = true.
Proof.
  assert (Hwf : wellFormed afterTwoPoints).
  { exact (@run_wellFormed noFan strokeA engine0 afterTwoPoints
             run_strokeA engine0_wellFormed). }
  split; [exact Hwf |].
  destruct (@X6_clear_white afterTwoPoints Hwf)
    as (Hfr & _ & _ & _ & Hsame).
  split; [exact Hfr |].
  destruct Hsame as (_ & _ & _ & _ & _ & Hd & _).
  rewrite Hd. vm_compute. reflexivity.
Defined.

Lemma eraser_wellFormed : wellFormed (setTool engine0 Eraser).
Proof. vm_compute. repeat split; try reflexivity. discriminate. Qed.

Lemma eraser_selected : currentTool (setTool engine0 Eraser) = Eraser.
Proof. vm_compute. reflexivity. Qed.

Lemma eraser_accepts_10_10 :
  invalidCoordinates (setTool engine0 Eraser) (Fin 10) (Fin 10) = false.
Proof. vm_compute. reflexivity. Qed.

Lemma C6_stamp_alpha_witness :
  run (cornerFan 600) (newEngine 800 600) [CSetTool Eraser]
  = Some (setTool engine0 Eraser) /\
  alpha (backImage (drawPoint (cornerFan 600) (setTool engine0 Eraser)
                              (Fin 10) (Fin 10)) 0%Z 599%Z)
  <= alpha (backImage (setTool engine0 Eraser) 0%Z 599%Z).
Proof.
  split; [reflexivity |].
  destruct (@C6_stamp_alpha (cornerFan 600) 800 600 [CSetTool Eraser]
              (setTool engine0 Eraser) (Fin 10) (Fin 10) 0%Z 599%Z eq_refl)
    as [H _].
  apply H. exact eraser_selected.
Defined.

Lemma X10_pen_draws_white_witness :
  forallb (callAllowed isPen) strokeA = true /\
  run noFan (newEngine 800 600) strokeA = Some afterTwoPoints /\
  whiteImage (backImage afterTwoPoints).
Proof.
  split; [reflexivity |]. split; [exact run_strokeA |].
  destruct (@X10_pen_draws_white noFan 800 600 strokeA afterTwoPoints
              eq_refl run_strokeA) as (_ & _ & H).
  exact H.
Defined.

Lemma X11_eraser_stamp_witness :
  wellFormed (setTool engine0 Eraser) /\
  currentTool (setTool engine0 Eraser) = Eraser /\
  invalidCoordinates (setTool engine0 Eraser) (Fin 10) (Fin 10) = false /\
  cornerFan 600 0%Z 599%Z = true /\
  pixelEq (backImage (drawPoint (cornerFan 600) (setTool engine0 Eraser)
                                (Fin 10) (Fin 10)) 0%Z 599%Z)
          transparent.
Proof.
  split; [exact eraser_wellFormed |]. split; [exact eraser_selected |].
  split; [exact eraser_accepts_10_10 |]. split; [reflexivity |].
  destruct (@X11_eraser_stamp (cornerFan 600) (setTool engine0 Eraser)
              10 10 0%Z 599%Z eraser_wellFormed eraser_selected
              eraser_accepts_10_10) as (H & _).
  apply H. reflexivity.
Defined.



(* ================================================================== *)
(** * Lines and the surface bounds *)
(* ================================================================== *)

Section LineStamps.

Variable fanCovers : Z -> Z -> bool.

Local Abbreviation drawPoint := (drawPoint fanCovers).
Local Abbreviation drawLineFrom := (drawLineFrom fanCovers).
Local Abbreviation drawLine := (drawLine fanCovers).

Lemma inject_Z_pos (n : Z) : (1 <= n)%Z -> 1 <= inject_Z n.
Proof. intros H. change 1 with (inject_Z 1). now rewrite <- Zle_Qle. Qed.

Lemma accepted_iff (e : DrawingEngine) (qx qy : Q) :
  invalidCoordinates e (Fin qx) (Fin qy) = false <->
  (0 <= qx <= inject_Z (canvasWidth e)) /\
  (0 <= qy <= inject_Z (canvasHeight e)).
Proof.
  unfold invalidCoordinates, gt, ofZ. simpl.
  rewrite !orb_false_iff. unfold Qltb.
  rewrite !negb_false_iff, !Qle_bool_iff. tauto.
Qed.

Lemma between (a b t lo hi : Q) :
  lo <= a <= hi -> lo <= b <= hi -> 0 <= t <= 1 ->
  lo <= a + (b - a) * t <= hi.
Proof. intros [Ha1 Ha2] [Hb1 Hb2] [Ht1 Ht2]. split; nra. Qed.

Lemma linePoint_accepted (e : DrawingEngine) (x1 y1 x2 y2 : Q) (n : Z)
    (i : nat) :
  invalidCoordinates e (Fin x1) (Fin y1) = false ->
  invalidCoordinates e (Fin x2) (Fin y2) = false ->
  (1 <= n)%Z -> (Z.of_nat i <= n)%Z ->
  exists qx qy,
    linePoint (Fin x1) (Fin y1) (Fin x2) (Fin y2) n i
    = mkPoint (Fin qx) (Fin qy)
    /\ invalidCoordinates e (Fin qx) (Fin qy) = false.
Proof.
  intros H1 H2 Hn Hi.
  apply accepted_iff in H1. apply accepted_iff in H2.
  destruct H1 as [Hx1 Hy1]. destruct H2 as [Hx2 Hy2].
  eexists; eexists. split; [reflexivity |].
  apply accepted_iff.
  assert (Ht : 0 <= inject_Z (Z.of_nat i) / inject_Z n <= 1).
  { assert (Hq : 1 <= inject_Z n) by now apply inject_Z_pos.
    assert (Hi0 : 0 <= inject_Z (Z.of_nat i)).
    { change 0 with (inject_Z 0). rewrite <- Zle_Qle. lia. }
    assert (Hin : inject_Z (Z.of_nat i) <= inject_Z n)
      by now rewrite <- Zle_Qle.
    split.
    - apply Qle_shift_div_l; lra.
    - apply Qle_shift_div_r; lra. }
  split; apply between; assumption.
Qed.

Lemma drawPoint_accepted_warnings (e : DrawingEngine) (qx qy : Q) :
  invalidCoordinates e (Fin qx) (Fin qy) = false ->
  warnings (drawPoint e (Fin qx) (Fin qy)) = warnings e.
Proof.
  intros H. now rewrite (drawPoint_accepted fanCovers e qx qy H).
Qed.

Lemma drawLineFrom_step (e : DrawingEngine) (x1 y1 x2 y2 : number)
    (n : Z) (i c : nat) :
  drawLineFrom e x1 y1 x2 y2 n i (S c)
  = drawLineFrom
      (drawPoint e (px (linePoint x1 y1 x2 y2 n i))
                   (py (linePoint x1 y1 x2 y2 n i)))
      x1 y1 x2 y2 n (S i) c.
Proof. reflexivity. Qed.

Lemma drawLineFrom_inside (e0 : DrawingEngine) (x1 y1 x2 y2 : Q) (n : Z) :
  invalidCoordinates e0 (Fin x1) (Fin y1) = false ->
  invalidCoordinates e0 (Fin x2) (Fin y2) = false ->
  (1 <= n)%Z ->
  forall (count i : nat) (e : DrawingEngine),
    (Z.of_nat i + Z.of_nat count <= n + 1)%Z ->
    canvasWidth e = canvasWidth e0 -> canvasHeight e = canvasHeight e0 ->
    stampCount
      (gl (drawLineFrom e (Fin x1) (Fin y1) (Fin x2) (Fin y2) n i count))
    = (stampCount (gl e) + count)%nat
    /\ warnings (drawLineFrom e (Fin x1) (Fin y1) (Fin x2) (Fin y2) n i count)
       = warnings e.
Proof.
  intros H1 H2 Hn count.
  induction count as [| c IH]; intros i e Hic Hw Hh.
  - simpl. split; [lia | reflexivity].
  - rewrite drawLineFrom_step.
    destruct (@linePoint_accepted e0 x1 y1 x2 y2 n i H1 H2 Hn)
      as [qx [qy [Hpt Hok]]]; [lia |].
    rewrite Hpt. cbn [px py].
    assert (Hok' : invalidCoordinates e (Fin qx) (Fin qy) = false).
    { unfold invalidCoordinates in *. now rewrite Hw, Hh. }
    pose proof (drawPoint_sameControl fanCovers e
                  (Fin qx) (Fin qy)) as (Hw' & Hh' & _).
    destruct (IH (S i) (drawPoint e (Fin qx) (Fin qy))) as [Hs Hwn];
      [lia | congruence | congruence |].
    rewrite Hs, Hwn.
    destruct (drawPoint_counts fanCovers e (Fin qx) (Fin qy))
      as [Hcnt _].
    destruct (Hcnt Hok') as [_ ->].
    split; [lia | now apply drawPoint_accepted_warnings].
Qed.

(** X8.  The accepted region is convex: a line between two accepted
    points loses no stamp.  [drawLine] returns, has stamped each of its
    [n + 1] points and has reported no coordinate. *)
Theorem X8_line_inside_surface (e : DrawingEngine) (x1 y1 x2 y2 : Q) :
  invalidCoordinates e (Fin x1) (Fin y1) = false ->
  invalidCoordinates e (Fin x2) (Fin y2) = false ->
  exists n e',
    lineSteps (Fin x1) (Fin y1) (Fin x2) (Fin y2) = StepsFin n
    /\ drawLine e (Fin x1) (Fin y1) (Fin x2) (Fin y2) = Some e'
    /\ stampCount (gl e') = (stampCount (gl e) + Z.to_nat n + 1)%nat
    /\ warnings e' = warnings e.
Proof.
  intros H1 H2.
  destruct (lineSteps_finite x1 y1 x2 y2) as [n [Hsteps Hn]].
  exists n. unfold drawLine. rewrite Hsteps.
  eexists. split; [reflexivity |]. split; [reflexivity |].
  destruct (@drawLineFrom_inside e x1 y1 x2 y2 n H1 H2 Hn
              (S (Z.to_nat n)) 0%nat e) as [Hs Hw];
    [lia | reflexivity | reflexivity |].
  split; [rewrite Hs; lia | exact Hw].
Qed.

End LineStamps.

Lemma X8_line_inside_surface_witness :
  invalidCoordinates engine0 (Fin 10) (Fin 10) = false /\
  invalidCoordinates engine0 (Fin 20) (Fin 10) = false /\
  exists n e',
    lineSteps (Fin 10) (Fin 10) (Fin 20) (Fin 10) = StepsFin n
    /\ drawLine noFan engine0 (Fin 10) (Fin 10) (Fin 20) (Fin 10)
       = Some e'
    /\ stampCount (gl e') = (stampCount (gl engine0) + Z.to_nat n + 1)%nat
    /\ warnings e' = warnings engine0.
Proof.
  split; [exact engine0_accepts_10_10 |].
  split; [exact engine0_accepts_20_10 |].
  apply (@X8_line_inside_surface noFan engine0 10 10 20 10
           engine0_accepts_10_10 engine0_accepts_20_10).
Defined.

(* ================================================================== *)
(** * The smoothstep of the tool shaders *)
(* ================================================================== *)

Section StampShape.

Lemma clamp01_eq (v w : Q) : v == w -> 0 <= w <= 1 -> clamp01 v == w.
Proof.
  intros Hvw Hw. rewrite <- Hvw. apply clamp01_id. rewrite Hvw. exact Hw.
Qed.

Lemma clamp01_below (x : Q) : x <= 0 -> clamp01 x == 0.
Proof.
  intros H. unfold clamp01, clamp.
  rewrite (Q.max_r x 0 H). apply Q.min_l. lra.
Qed.

Lemma clamp01_above (x : Q) : 1 <= x -> clamp01 x == 1.
Proof.
  intros H. unfold clamp01, clamp.
  rewrite (Q.max_l x 0) by lra. now apply Q.min_r.
Qed.

Lemma clamp01_mono (x y : Q) : x <= y -> clamp01 x <= clamp01 y.
Proof.
  intros H. unfold clamp01, clamp.
  apply Q.min_le_compat_r. now apply Q.max_le_compat_r.
Qed.

Lemma cubic_range (t : Q) : 0 <= t <= 1 -> 0 <= t * t * (3 - 2 * t) <= 1.
Proof.
  intros [H0 H1].
  pose proof (Qsquare_nonneg t) as Ht.
  pose proof (Qsquare_nonneg (1 - t)) as Ht1.
  split; nra.
Qed.

Lemma cubic_mono (a b : Q) :
  0 <= a -> a <= b -> b <= 1 ->
  a * a * (3 - 2 * a) <= b * b * (3 - 2 * b).
Proof.
  intros Ha Hab Hb.
  assert (H : b * b * (3 - 2 * b) - a * a * (3 - 2 * a)
              == (b - a) * (3 * (a + b) - 2 * (a * a + a * b + b * b)))
    by ring.
  assert (Haa : a * a <= a) by nra.
  assert (Hbb : b * b <= b) by nra.
  assert (Hab2 : a * b <= a) by nra.
  assert (H2 : 0 <= 3 * (a + b) - 2 * (a * a + a * b + b * b)) by nra.
  assert (H3 : 0 <= (b - a) * (3 * (a + b) - 2 * (a * a + a * b + b * b))).
  { apply Qmult_le_0_compat; lra. }
  lra.
Qed.

Lemma smoothstep_range (edge0 edge1 x : Q) :
  0 <= smoothstep edge0 edge1 x <= 1.
Proof. unfold smoothstep. apply cubic_range, clamp01_range. Qed.

Lemma smoothstep_below (edge0 edge1 x : Q) :
  edge0 < edge1 -> x <= edge0 -> smoothstep edge0 edge1 x == 0.
Proof.
  intros He Hle. unfold smoothstep.
  fold (clamp01 ((x - edge0) / (edge1 - edge0))).
  assert (H0 : clamp01 ((x - edge0) / (edge1 - edge0)) == 0).
  { apply clamp01_below. apply Qle_shift_div_r; lra. }
  rewrite H0. ring.
Qed.

Lemma smoothstep_above (edge0 edge1 x : Q) :
  edge0 < edge1 -> edge1 <= x -> smoothstep edge0 edge1 x == 1.
Proof.
  intros He Hge. unfold smoothstep.
  fold (clamp01 ((x - edge0) / (edge1 - edge0))).
  assert (H1 : clamp01 ((x - edge0) / (edge1 - edge0)) == 1).
  { apply clamp01_above. apply Qle_shift_div_l; lra. }
  rewrite H1. ring.
Qed.

Lemma smoothstep_mono (edge0 edge1 x y : Q) :
  edge0 < edge1 -> x <= y ->
  smoothstep edge0 edge1 x <= smoothstep edge0 edge1 y.
Proof.
  intros He Hxy. unfold smoothstep.
  fold (clamp01 ((x - edge0) / (edge1 - edge0))).
  fold (clamp01 ((y - edge0) / (edge1 - edge0))).
  pose proof (clamp01_range ((x - edge0) / (edge1 - edge0))) as Hx.
  pose proof (clamp01_range ((y - edge0) / (edge1 - edge0))) as Hy.
  apply cubic_mono; [apply Hx | | apply Hy].
  apply clamp01_mono. unfold Qdiv.
  apply Qmult_le_compat_r; [lra |].
  apply Qlt_le_weak, Qinv_lt_0_compat. lra.
Qed.

(** X9.  GLSL [smoothstep] between two edges [edge0 < edge1]: a value in
    [0, 1], 0 up to the first edge, 1 from the second on, and
    non-decreasing in between. *)
Theorem X9_smoothstep_shape (edge0 edge1 x y : Q) :
  edge0 < edge1 ->
  0 <= smoothstep edge0 edge1 x <= 1
  /\ (x <= edge0 -> smoothstep edge0 edge1 x == 0)
  /\ (edge1 <= x -> smoothstep edge0 edge1 x == 1)
  /\ (x <= y -> smoothstep edge0 edge1 x <= smoothstep edge0 edge1 y).
Proof.
  intros He.
  split; [apply smoothstep_range |].
  split; [now apply smoothstep_below |].
  split; [now apply smoothstep_above | now apply smoothstep_mono].
Qed.

Lemma X9_smoothstep_shape_witness :
  4 < 6 /\ smoothstep 4 6 3 == 0 /\ smoothstep 4 6 7 == 1
  /\ smoothstep 4 6 5 == 1 # 2.
Proof.
  assert (H : 4 < 6) by reflexivity.
  split; [exact H |].
  destruct (@X9_smoothstep_shape 4 6 3 7 H) as (_ & H0 & _ & _).
  destruct (@X9_smoothstep_shape 4 6 7 7 H) as (_ & _ & H1 & _).
  split; [apply H0; discriminate |].
  split; [apply H1; discriminate | reflexivity].
Defined.

End StampShape.

(* ================================================================== *)
(** * Properties of the camera pipeline *)
(* ================================================================== *)

Section CameraFacts.

Variable fanCovers : Z -> Z -> bool.

Local Abbreviation startStroke := (startStroke fanCovers).
Local Abbreviation continueStroke := (continueStroke fanCovers).
Local Abbreviation startDrawing := (startDrawing fanCovers).
Local Abbreviation continueDrawing := (continueDrawing fanCovers).
Local Abbreviation handleDrawingMovement :=
  (handleDrawingMovement fanCovers).
Local Abbreviation processGestures := (processGestures fanCovers).
Local Abbreviation onFrame := (onFrame fanCovers).
Local Abbreviation onFrames := (onFrames fanCovers).

Lemma gesture_eqb_spec (a b : option GestureLabel) :
  reflect (a = b) (gesture_eqb a b).
Proof.
  destruct a as [x |], b as [y |]; simpl; try (constructor; congruence).
  destruct (label_eqb_spec x y); constructor; congruence.
Qed.

Lemma startStroke_control (e : DrawingEngine) (x y : number) (p : number) :
  isDrawing (startStroke e x y p) = true
  /\ currentTool (startStroke e x y p) = currentTool e
  /\ strokePoints (startStroke e x y p) = [mkStrokePoint x y p]
  /\ lastPoint (startStroke e x y p) = Some (mkPoint x y).
Proof.
  unfold startStroke.
  destruct (drawPoint_sameControl fanCovers
              (setPressure
                 (withStrokePoints
                    (withLastPoint (withIsDrawing e true)
                       (Some (mkPoint x y)))
                    [mkStrokePoint x y p]) p) x y)
    as (_ & _ & Ht & _ & _ & Hd & Hl & _ & Hs & _).
  rewrite Ht, Hd, Hl, Hs. repeat split.
Qed.

Lemma continueStroke_drawing_control (e e' : DrawingEngine) (x y : number)
    (p : number) :
  continueStroke e x y p = Some e' -> isDrawing e = true ->
  isDrawing e' = true /\ currentTool e' = currentTool e.
Proof.
  intros H Hd.
  destruct (continueStroke_control fanCovers e x y p H Hd)
    as (_ & _ & Ht & _ & _ & Hd' & _).
  rewrite Ht, Hd'. simpl. now split.
Qed.

Lemma uiEffect_control (a : UiAction) (e : DrawingEngine) :
  isDrawing (uiEffect a e) = isDrawing e.
Proof. destruct a; reflexivity. Qed.

Lemma pushHistory_length (h : list GestureLabel) (N : nat) (g : GestureLabel) :
  (length h <= N)%nat -> (length (pushHistory h N g) <= N)%nat.
Proof.
  intros H. unfold pushHistory.
  destruct (Nat.ltb_spec N (length (h ++ [g]))) as [Hlt | Hge]; [| exact Hge].
  rewrite length_app in Hlt. simpl in Hlt.
  destruct h as [| a h']; simpl in *.
  - lia.
  - rewrite length_app. simpl. lia.
Qed.

Lemma endDrawing_invariant (d : Detector) :
  detIsDrawing d = isDrawing (detEngine d) ->
  detIsDrawing (endDrawing d) = false
  /\ isDrawing (detEngine (endDrawing d)) = false
  /\ currentGesture (endDrawing d) = currentGesture d
  /\ detHistory (endDrawing d) = detHistory d
  /\ stabilityFrames (endDrawing d) = stabilityFrames d.
Proof.
  intros H. unfold endDrawing.
  destruct (detIsDrawing d) eqn:Hd; simpl.
  - repeat split.
  - rewrite Hd, <- H. repeat split.
Qed.

(** the gesture change leaves the detector coherent for the new gesture *)
Lemma handleGestureChange_invariant (d : Detector) (g : option GestureLabel) :
  detIsDrawing d = isDrawing (detEngine d) ->
  currentGesture d = g ->
  (length (detHistory d) <= stabilityFrames d)%nat ->
  detectorInvariant (handleGestureChange d g)
  /\ currentGesture (handleGestureChange d g) = g
  /\ detHistory (handleGestureChange d g) = detHistory d
  /\ stabilityFrames (handleGestureChange d g) = stabilityFrames d.
Proof.
  intros H1 Hg Hlen. unfold detectorInvariant.
  destruct (endDrawing_invariant d H1) as (E1 & E2 & E3 & E4 & E5).
  destruct g as [[] |]; simpl;
    rewrite ?E1, ?E2, ?E3, ?E4, ?E5, ?Hg; simpl;
    repeat split; try assumption; try discriminate;
    try (intros t [= <-]; reflexivity).
Qed.

Lemma handleDrawingMovement_invariant (d d' : Detector) (tip : Landmark)
    (tapped : option UiAction) :
  detectorInvariant d ->
  handleDrawingMovement d tip tapped = Done d' ->
  detectorInvariant d'
  /\ currentGesture d' = currentGesture d
  /\ detHistory d' = detHistory d
  /\ stabilityFrames d' = stabilityFrames d
  /\ (isDrawingGesture (currentGesture d) = true -> detIsDrawing d' = true).
Proof.
  intros (I1 & I2 & I3 & I4). unfold handleDrawingMovement, detectorInvariant.
  destruct (isDrawingGesture (currentGesture d)) eqn:Hg;
    destruct (detIsDrawing d) eqn:Hd; simpl.
  - (* drawing gesture, stroke in progress: continue *)
    unfold continueDrawing. rewrite Hd. simpl.
    destruct (continueStroke (detEngine d) _ _ (Fin 1)) as [e' |] eqn:Hc;
      [| discriminate].
    destruct (continueStroke_drawing_control _ _ _ _ Hc (eq_sym I1))
      as [Hd' Ht'].
    assert (Hnt : gesture_eqb (currentGesture d) (Some tap) = false).
    { destruct (currentGesture d) as [[] |]; simpl in *;
        reflexivity || discriminate. }
    destruct tapped as [a |]; simpl; rewrite ?Hnt; intros [= <-]; simpl;
      rewrite ?Hd', ?Ht'; repeat split; auto.
  - (* drawing gesture, no stroke: start *)
    intros [= <-]. unfold startDrawing. rewrite Hd. simpl.
    destruct (startStroke_control (detEngine d)
                (mapX (lx tip) (ofZ (canvasWidth (detEngine d))))
                (mapY (ly tip) (ofZ (canvasHeight (detEngine d)))) (Fin 1))
      as (Hd' & Ht' & _).
    rewrite Hd', Ht'. repeat split; auto.
  - (* no drawing gesture, stroke in progress: excluded *)
    specialize (I2 eq_refl). discriminate.
  - (* no drawing gesture, no stroke: a tap may act *)
    destruct tapped as [a |]; simpl.
    + destruct (gesture_eqb_spec (currentGesture d) (Some tap)) as [Ht | Ht];
        intros [= <-]; simpl; rewrite ?Hd, ?uiEffect_control.
      * rewrite Ht. repeat split; auto; discriminate.
      * repeat split; auto; discriminate.
    + intros [= <-]. simpl. rewrite Hd. repeat split; auto; discriminate.
Qed.

Lemma processGestures_invariant (d d' : Detector) (landmarks : list Landmark)
    (tapped : option UiAction) :
  detectorInvariant d ->
  processGestures d landmarks tapped = Done d' ->
  detectorInvariant d'
  /\ stabilityFrames d' = stabilityFrames d
  /\ (exists g, recognizeGesture landmarks = Some g /\
                detHistory d' = pushHistory (detHistory d)
                                            (stabilityFrames d) g)
  /\ currentGesture d'
     = getStableGesture (detHistory d') (stabilityFrames d')
  /\ (isDrawingGesture (currentGesture d') = true -> detIsDrawing d' = true).
Proof.
  intros (I1 & I2 & I3 & I4). unfold processGestures.
  destruct (recognizeGesture landmarks) as [g |]; [| discriminate].
  destruct (nth_error landmarks 8) as [tip |]; [| discriminate].
  set (h := pushHistory (detHistory d) (stabilityFrames d) g).
  set (stable := getStableGesture h (stabilityFrames d)).
  assert (Hlen : (length h <= stabilityFrames d)%nat)
    by now apply pushHistory_length.
  cbn [currentGesture detIsDrawing detHistory stabilityFrames lastFingerPos
       detEngine].
  set (d1 := mkDetector (detIsDrawing d) (currentGesture d) h
               (stabilityFrames d) (lastFingerPos d) (detEngine d)).
  set (dc := mkDetector (detIsDrawing d) stable h (stabilityFrames d)
               (lastFingerPos d) (detEngine d)).
  assert (H2 : exists d2,
             (if gesture_eqb stable (currentGesture d) then d1
              else handleGestureChange dc stable) = d2
             /\ detectorInvariant d2 /\ currentGesture d2 = stable
             /\ detHistory d2 = h
             /\ stabilityFrames d2 = stabilityFrames d).
  { eexists. split; [reflexivity |].
    destruct (gesture_eqb_spec stable (currentGesture d)) as [He | Hne].
    - unfold detectorInvariant, d1. simpl. rewrite He. repeat split; auto.
    - destruct (@handleGestureChange_invariant dc stable I1 eq_refl Hlen)
        as (Hinv & Hc & Hh & Hs).
      repeat split; auto; apply Hinv. }
  destruct H2 as (d2 & -> & Hinv2 & Hc2 & Hh2 & Hs2).
  destruct (gesture_eqb_spec stable (Some none)) as [Hnone | Hsome].
  - intros [= <-]. split; [exact Hinv2 |]. split; [exact Hs2 |].
    split; [exists g; split; [reflexivity | exact Hh2] |].
    split; [now rewrite Hc2, Hh2, Hs2 |].
    rewrite Hc2, Hnone. discriminate.
  - intros Hm.
    destruct (@handleDrawingMovement_invariant d2 d' tip tapped Hinv2 Hm)
      as (Hinv' & Hc' & Hh' & Hs' & Hstart).
    split; [exact Hinv' |]. split; [congruence |].
    split; [exists g; split; [reflexivity | now rewrite Hh', Hh2] |].
    split; [rewrite Hc', Hh', Hs', Hc2, Hh2, Hs2; reflexivity |].
    rewrite Hc'. exact Hstart.
Qed.

Lemma noHand_invariant (d : Detector) :
  detectorInvariant d -> detectorInvariant (noHand d).
Proof.
  intros (I1 & I2 & I3 & I4). unfold noHand, detectorInvariant.
  destruct (endDrawing_invariant d I1) as (E1 & E2 & E3 & E4 & E5).
  destruct (detIsDrawing d) eqn:Hd; simpl.
  - rewrite E1, E2, E4, E5. repeat split; auto; discriminate.
  - rewrite Hd. repeat split; auto; discriminate.
Qed.

Lemma onFrames_invariant (fs : list Frame) (d d' : Detector) :
  detectorInvariant d -> onFrames d fs = Done d' -> detectorInvariant d'.
Proof.
  revert d. induction fs as [| f fs IH]; intros d Hinv; simpl.
  - now intros [= <-].
  - destruct f as [landmarks tapped |]; simpl.
    + destruct (processGestures d landmarks tapped) as [d1 | |] eqn:Hp;
        try discriminate.
      apply IH.
      now destruct (@processGestures_invariant d d1 landmarks tapped
                      Hinv Hp).
    + apply IH. now apply noHand_invariant.
Qed.

(** X12.  Over any run of camera frames that returns, started on an idle
    engine: the detector's drawing flag is the engine's, a stroke is in
    progress only while the current gesture is a drawing gesture (point,
    draw, peace, palm, three), the engine's tool is the eraser under palm
    and the pen under the other drawing gestures, and the history holds
    at most as many labels as the stability window. *)
Theorem X12_detector_invariant (e : DrawingEngine) (window : nat)
    (fs : list Frame) (d : Detector) :
  isDrawing e = false ->
  onFrames (newDetector e window) fs = Done d ->
  detectorInvariant d
  /\ (isDrawingGesture (currentGesture d) = false ->
      detIsDrawing d = false /\ isDrawing (detEngine d) = false).
Proof.
  intros He Hrun.
  assert (Hinv : detectorInvariant d).
  { apply (@onFrames_invariant fs (newDetector e window) d); [| exact Hrun].
    unfold detectorInvariant, newDetector. simpl.
    repeat split; auto; try discriminate. lia. }
  split; [exact Hinv |].
  destruct Hinv as (I1 & I2 & _). intros Hg.
  destruct (detIsDrawing d) eqn:Hd.
  - specialize (I2 eq_refl). congruence.
  - now split.
Qed.

(** X13.  A frame with a hand, on a coherent detector: when
    [processGestures] returns, the current gesture is the stable gesture
    of the updated history.  If that is a drawing gesture a stroke is in
    progress afterwards; otherwise (a positioning gesture, or [none]
    because the window is not uniform) none is, in the detector and in
    the engine. *)
Theorem X13_frame_outcome (d d' : Detector) (landmarks : list Landmark)
    (tapped : option UiAction) :
  detectorInvariant d ->
  processGestures d landmarks tapped = Done d' ->
  currentGesture d' = getStableGesture (detHistory d') (stabilityFrames d')
  /\ (exists g, recognizeGesture landmarks = Some g /\
                detHistory d' = pushHistory (detHistory d)
                                            (stabilityFrames d) g)
  /\ (if isDrawingGesture (currentGesture d')
      then detIsDrawing d' = true /\ isDrawing (detEngine d') = true
      else detIsDrawing d' = false /\ isDrawing (detEngine d') = false).
Proof.
  intros Hinv Hp.
  destruct (@processGestures_invariant d d' landmarks tapped Hinv Hp)
    as ((I1 & I2 & _) & _ & Hh & Hc & Hstart).
  split; [exact Hc |]. split; [exact Hh |].
  destruct (isDrawingGesture (currentGesture d')) eqn:Hg.
  - specialize (Hstart eq_refl). split; congruence.
  - destruct (detIsDrawing d') eqn:Hd.
    + specialize (I2 eq_refl). congruence.
    + now split.
Qed.

(** with window 1 the stable gesture of the updated history is the label
    just pushed *)
Lemma window_one_stable (h : list GestureLabel) (g : GestureLabel) :
  getStableGesture (pushHistory h 1 g) 1 = Some g.
Proof.
  pose proof (@mostRecent_pushHistory h 1 g (le_n 1)) as Hm.
  destruct (@getStableGesture_cases (pushHistory h 1 g) 1 (le_n 1))
    as [[_ [g' [Hg' H]]] | [Hn _]]; [congruence |].
  exfalso. apply Hn. unfold mostRecent in Hm. split.
  - rewrite <- length_rev.
    destruct (rev (pushHistory h 1 g)); [discriminate | simpl; lia].
  - exists g. destruct (rev (pushHistory h 1 g)); [discriminate |].
    simpl in *. congruence.
Qed.

(** X14.  A frame whose stable gesture is a drawing gesture, met with no
    stroke in progress, starts one: [processGestures] returns, the
    current gesture is that gesture, the engine's tool is the one it
    selects (eraser for palm, pen otherwise), and the stroke in progress
    has one recorded point, the index tip mapped onto the canvas
    [((1 - x) * width, y * height)] at pressure 1.  With the window 1 of
    the source the stable gesture is the gesture recognised in the
    frame. *)
Theorem X14_drawing_gesture_starts_stroke (d : Detector)
    (landmarks : list Landmark) (tapped : option UiAction)
    (raw g : GestureLabel) (tip : Landmark) (t : Tool) :
  detectorInvariant d ->
  detIsDrawing d = false ->
  recognizeGesture landmarks = Some raw ->
  nth_error landmarks 8 = Some tip ->
  getStableGesture (pushHistory (detHistory d) (stabilityFrames d) raw)
                   (stabilityFrames d) = Some g
  \/ (stabilityFrames d = 1%nat /\ raw = g) ->
  gestureTool (Some g) = Some t ->
  exists d',
    processGestures d landmarks tapped = Done d'
    /\ currentGesture d' = Some g
    /\ detIsDrawing d' = true
    /\ isDrawing (detEngine d') = true
    /\ currentTool (detEngine d') = t
    /\ strokePoints (detEngine d')
       = [mkStrokePoint
            (mapX (lx tip) (ofZ (canvasWidth (detEngine d))))
            (mapY (ly tip) (ofZ (canvasHeight (detEngine d)))) (Fin 1)].
Proof.
  intros (I1 & I2 & I3 & I4) Hidle Hraw Htip Hstable Htool.
  assert (Hst : getStableGesture
                  (pushHistory (detHistory d) (stabilityFrames d) raw)
                  (stabilityFrames d) = Some g).
  { destruct Hstable as [H | [H1 <-]]; [exact H |].
    rewrite H1. apply window_one_stable. }
  assert (Hdraw : isDrawingGesture (Some g) = true)
    by (destruct g; simpl in *; reflexivity || discriminate).
  assert (Hnn : gesture_eqb (Some g) (Some none) = false)
    by (destruct g; simpl in *; reflexivity || discriminate).
  unfold processGestures. rewrite Hraw, Htip, Hst.
  cbn [currentGesture detIsDrawing detHistory stabilityFrames lastFingerPos
       detEngine].
  rewrite Hnn.
  destruct (gesture_eqb_spec (Some g) (currentGesture d)) as [He | Hne].
  - (* the gesture is the current one already *)
    unfold handleDrawingMovement.
    cbn [currentGesture detIsDrawing detEngine].
    rewrite <- He, Hdraw, Hidle. simpl andb. cbv iota.
    eexists. split; [reflexivity |].
    unfold startDrawing.
    cbn [currentGesture detIsDrawing detEngine detHistory stabilityFrames
         lastFingerPos].
    destruct (startStroke_control (detEngine d)
                (mapX (lx tip) (ofZ (canvasWidth (detEngine d))))
                (mapY (ly tip) (ofZ (canvasHeight (detEngine d)))) (Fin 1))
      as (Hd' & Ht' & Hs' & _).
    rewrite Hd', Ht', Hs'.
    repeat split. apply I3. now rewrite <- He.
  - (* the gesture changes: the tool is set first *)
    assert (Hch : exists e1,
               handleGestureChange
                 (mkDetector (detIsDrawing d) (Some g)
                    (pushHistory (detHistory d) (stabilityFrames d) raw)
                    (stabilityFrames d) (lastFingerPos d) (detEngine d))
                 (Some g)
               = mkDetector (detIsDrawing d) (Some g)
                   (pushHistory (detHistory d) (stabilityFrames d) raw)
                   (stabilityFrames d) (lastFingerPos d) e1
               /\ currentTool e1 = t
               /\ canvasWidth e1 = canvasWidth (detEngine d)
               /\ canvasHeight e1 = canvasHeight (detEngine d)).
    { destruct g; simpl in Htool; try discriminate;
        injection Htool as <-; eexists; (split; [reflexivity |]);
        repeat split. }
    destruct Hch as (e1 & -> & Ht1 & Hw1 & Hh1).
    unfold handleDrawingMovement.
    cbn [currentGesture detIsDrawing detEngine].
    rewrite Hdraw, Hidle. simpl andb. cbv iota.
    eexists. split; [reflexivity |].
    unfold startDrawing.
    cbn [currentGesture detIsDrawing detEngine detHistory stabilityFrames
         lastFingerPos].
    destruct (startStroke_control e1
                (mapX (lx tip) (ofZ (canvasWidth e1)))
                (mapY (ly tip) (ofZ (canvasHeight e1))) (Fin 1))
      as (Hd' & Ht' & Hs' & _).
    rewrite Hd', Ht', Hs', Hw1, Hh1.
    repeat split. exact Ht1.
Qed.

(** X15.  A frame without a hand ends the stroke and resets the current
    gesture to [none], but keeps the label history.  A stroke that was in
    progress is committed ([endStroke]: its back buffer becomes the front
    image and the stroke points are dropped); otherwise the engine is
    untouched. *)
Theorem X15_no_hand_frame (d : Detector) :
  detectorInvariant d ->
  detIsDrawing (noHand d) = false
  /\ isDrawing (detEngine (noHand d)) = false
  /\ currentGesture (noHand d) = Some none
  /\ detHistory (noHand d) = detHistory d
  /\ (detIsDrawing d = true ->
      detEngine (noHand d) = endStroke (detEngine d)
      /\ frontImage (detEngine (noHand d)) = backImage (detEngine d)
      /\ strokePoints (detEngine (noHand d)) = [])
  /\ (detIsDrawing d = false -> detEngine (noHand d) = detEngine d).
Proof.
  intros (I1 & _). unfold noHand, endDrawing.
  destruct (detIsDrawing d) eqn:Hd; simpl.
  - repeat split; discriminate.
  - rewrite Hd. simpl. rewrite <- I1.
    repeat split; discriminate.
Qed.

End CameraFacts.

Lemma detector0_invariant : detectorInvariant detector0.
Proof.
  unfold detectorInvariant, detector0, newDetector. simpl.
  repeat split; auto; try discriminate.
Qed.

Lemma palm_frame_done :
  processGestures noFan detector0 fourFingersUp None
  = Done afterPalmFrame.
Proof.
  unfold afterPalmFrame.
  assert (Hdone : match processGestures noFan detector0
                          fourFingersUp None with
                  | Done _ => true
                  | _ => false
                  end = true) by (vm_compute; reflexivity).
  destruct (processGestures noFan detector0 fourFingersUp None);
    [reflexivity | discriminate | discriminate].
Qed.

Lemma palm_frames_done :
  onFrames noFan (newDetector engine0 1)
    [Hand fourFingersUp None; NoHand]
  = Done (noHand afterPalmFrame).
Proof.
  cbn [onFrames onFrame]. fold detector0. now rewrite palm_frame_done.
Qed.

Lemma X12_detector_invariant_witness :
  isDrawing engine0 = false /\
  onFrames noFan (newDetector engine0 1)
    [Hand fourFingersUp None; NoHand]
  = Done (noHand afterPalmFrame) /\
  detectorInvariant (noHand afterPalmFrame).
Proof.
  assert (H0 : isDrawing engine0 = false) by (vm_compute; reflexivity).
  split; [exact H0 |]. split; [exact palm_frames_done |].
  destruct (@X12_detector_invariant noFan engine0 1%nat
              [Hand fourFingersUp None; NoHand] (noHand afterPalmFrame)
              H0 palm_frames_done) as [Hinv _].
  exact Hinv.
Defined.

Lemma X13_frame_outcome_witness :
  detectorInvariant detector0 /\
  processGestures noFan detector0 fourFingersUp None
  = Done afterPalmFrame /\
  currentGesture afterPalmFrame
  = getStableGesture (detHistory afterPalmFrame)
                     (stabilityFrames afterPalmFrame).
Proof.
  split; [exact detector0_invariant |]. split; [exact palm_frame_done |].
  destruct (@X13_frame_outcome noFan detector0 afterPalmFrame
              fourFingersUp None detector0_invariant palm_frame_done)
    as [Hc _].
  exact Hc.
Defined.

Lemma fourFingersUp_palm : recognizeGesture fourFingersUp = Some palm.
Proof. vm_compute. reflexivity. Qed.

Lemma X14_drawing_gesture_starts_stroke_witness :
  detectorInvariant detector0 /\
  detIsDrawing detector0 = false /\
  recognizeGesture fourFingersUp = Some palm /\
  nth_error fourFingersUp 8
  = Some (mkLandmark (Fin (1 # 2)) (Fin (3 # 10))) /\
  gestureTool (Some palm) = Some Eraser /\
  exists d',
    processGestures noFan detector0 fourFingersUp None = Done d'
    /\ currentGesture d' = Some palm
    /\ detIsDrawing d' = true
    /\ isDrawing (detEngine d') = true
    /\ currentTool (detEngine d') = Eraser
    /\ strokePoints (detEngine d')
       = [mkStrokePoint
            (mapX (Fin (1 # 2)) (ofZ (canvasWidth (detEngine detector0))))
            (mapY (Fin (3 # 10)) (ofZ (canvasHeight (detEngine detector0))))
            (Fin 1)].
Proof.
  assert (H8 : nth_error fourFingersUp 8
               = Some (mkLandmark (Fin (1 # 2)) (Fin (3 # 10))))
    by reflexivity.
  split; [exact detector0_invariant |]. split; [reflexivity |].
  split; [exact fourFingersUp_palm |]. split; [exact H8 |].
  split; [reflexivity |].
  exact (@X14_drawing_gesture_starts_stroke noFan detector0
           fourFingersUp None palm palm
           (mkLandmark (Fin (1 # 2)) (Fin (3 # 10))) Eraser
           detector0_invariant eq_refl fourFingersUp_palm H8
           (or_intror (conj eq_refl eq_refl)) eq_refl).
Defined.

Lemma X15_no_hand_frame_witness :
  detectorInvariant detector0 /\
  currentGesture (noHand detector0) = Some none /\
  detEngine (noHand detector0) = detEngine detector0.
Proof.
  split; [exact detector0_invariant |].
  destruct (@X15_no_hand_frame detector0 detector0_invariant)
    as (_ & _ & Hc & _ & _ & Hidle).
  split; [exact Hc | apply Hidle; reflexivity].
Defined.

(* ================================================================== *)
(** * The stability window over a run of frames *)
(* ================================================================== *)

Section Debounce.

Lemma firstn_app_firstn {A} (n : nat) (a b : list A) :
  firstn n (a ++ firstn n b) = firstn n (a ++ b).
Proof.
  rewrite !firstn_app, firstn_firstn.
  now replace (Nat.min (n - length a) n) with (n - length a)%nat by lia.
Qed.

Lemma rev_pushHistory (h : list GestureLabel) (N : nat) (g : GestureLabel) :
  (1 <= N)%nat -> (length h <= N)%nat ->
  rev (pushHistory h N g) = firstn N (g :: rev h).
Proof.
  intros HN Hlen. unfold pushHistory.
  destruct (Nat.ltb_spec N (length (h ++ [g]))) as [Hlt | Hge].
  - rewrite length_app in Hlt. simpl in Hlt.
    destruct h as [| a h']; simpl in *; [lia |].
    rewrite rev_unit.
    change (g :: rev h' ++ [a]) with ((g :: rev h') ++ [a]).
    rewrite firstn_app.
    assert (Hl : length (g :: rev h') = N)
      by (simpl; rewrite length_rev; lia).
    rewrite <- Hl at 1. rewrite firstn_all, Hl, Nat.sub_diag. simpl.
    now rewrite app_nil_r.
  - rewrite rev_unit. symmetry. apply firstn_all2.
    rewrite length_app in Hge. simpl in *. rewrite length_rev. lia.
Qed.

Lemma pushHistory_fits (h : list GestureLabel) (N : nat) (g : GestureLabel) :
  (length h <= N)%nat -> (length (pushHistory h N g) <= N)%nat.
Proof.
  intros H. unfold pushHistory.
  destruct (Nat.ltb_spec N (length (h ++ [g]))) as [Hlt | Hge]; [| exact Hge].
  rewrite length_app in Hlt. simpl in Hlt.
  destruct h as [| a h']; simpl in *; [lia |].
  rewrite length_app. simpl. lia.
Qed.

Lemma feed_fits (gs h : list GestureLabel) (N : nat) :
  (length h <= N)%nat -> (length (feed h N gs) <= N)%nat.
Proof.
  revert h. induction gs as [| g gs IH]; intros h Hlen; simpl.
  - exact Hlen.
  - apply IH. now apply pushHistory_fits.
Qed.

Lemma rev_feed (gs h : list GestureLabel) (N : nat) :
  (1 <= N)%nat -> (length h <= N)%nat ->
  rev (feed h N gs) = firstn N (rev gs ++ rev h).
Proof.
  intros HN. revert h. induction gs as [| g gs IH]; intros h Hlen; simpl.
  - symmetry. apply firstn_all2. rewrite length_rev. lia.
  - change (fold_left (fun h0 g0 => pushHistory h0 N g0) gs
              (pushHistory h N g))
      with (feed (pushHistory h N g) N gs).
    rewrite IH by now apply pushHistory_fits.
    rewrite (rev_pushHistory h g HN Hlen), firstn_app_firstn.
    now rewrite <- app_assoc.
Qed.

Lemma firstn_repeat_app {A} (a : A) (n : nat) (l : list A) :
  firstn n (repeat a n ++ l) = repeat a n.
Proof.
  rewrite firstn_app, repeat_length, Nat.sub_diag. simpl.
  rewrite app_nil_r. rewrite <- (repeat_length a n) at 1.
  apply firstn_all.
Qed.

(** X16.  The stability window as a debounce over frames.  From a history
    that fits the window [N >= 1]: after [N] frames in a row with the
    label [g] the stable gesture is [g]; after [k < N] frames of a label
    [g] that differs from the label before them, it is [none]; and the
    history never grows beyond [N] labels. *)
Theorem X16_debounce (h gs : list GestureLabel) (N k : nat)
    (g g0 : GestureLabel) :
  (1 <= N)%nat -> (length h <= N)%nat ->
  getStableGesture (feed h N (repeat g N)) N = Some g
  /\ (mostRecent h = Some g0 -> g0 <> g -> (1 <= k < N)%nat ->
      getStableGesture (feed h N (repeat g k)) N = Some none)
  /\ (length (feed h N gs) <= N)%nat.
Proof.
  intros HN Hlen.
  split; [| split; [| now apply feed_fits]].
  - assert (Hrev : rev (feed h N (repeat g N)) = repeat g N).
    { rewrite (rev_feed (repeat g N) h HN Hlen), rev_repeat_same.
      apply firstn_repeat_app. }
    destruct (@getStableGesture_cases (feed h N (repeat g N)) N HN)
      as [[_ [g' [Hg' H]]] | [Hn _]].
    + unfold mostRecent in Hg'. rewrite Hrev in Hg'.
      destruct N; [lia |]. simpl in Hg'. congruence.
    + exfalso. apply Hn. split.
      * rewrite <- length_rev, Hrev, repeat_length. lia.
      * exists g. rewrite Hrev. rewrite <- (repeat_length g N) at 1.
        apply firstn_all.
  - intros Hg0 Hne Hk.
    destruct (@getStableGesture_cases (feed h N (repeat g k)) N HN)
      as [[[_ [g1 Hu]] _] | [_ H]]; [| exact H].
    exfalso.
    rewrite (rev_feed (repeat g k) h HN Hlen), rev_repeat_same in Hu.
    rewrite firstn_firstn, Nat.min_id in Hu.
    unfold mostRecent in Hg0.
    destruct (rev h) as [| r t]; [discriminate |].
    injection Hg0 as ->.
    assert (H0 : nth_error (firstn N (repeat g k ++ g0 :: t)) 0 = Some g).
    { rewrite nth_error_firstn.
      destruct (Nat.ltb_spec 0 N); [| lia].
      destruct k; [lia |]. reflexivity. }
    assert (Hk' : nth_error (firstn N (repeat g k ++ g0 :: t)) k = Some g0).
    { rewrite nth_error_firstn.
      destruct (Nat.ltb_spec k N); [| lia].
      rewrite nth_error_app2 by (rewrite repeat_length; lia).
      now rewrite repeat_length, Nat.sub_diag. }
    rewrite Hu in H0, Hk'.
    rewrite nth_error_repeat in H0 by lia.
    rewrite nth_error_repeat in Hk' by lia.
    congruence.
Qed.

Lemma X16_debounce_witness :
  (1 <= 3)%nat /\ (length [point; point] <= 3)%nat /\
  getStableGesture (feed [point; point] 3 (repeat palm 3)) 3 = Some palm /\
  getStableGesture (feed [point; point] 3 (repeat palm 2)) 3 = Some none.
Proof.
  assert (H1 : (1 <= 3)%nat) by lia.
  assert (H2 : (length [point; point] <= 3)%nat) by (simpl; lia).
  split; [exact H1 |]. split; [exact H2 |].
  destruct (@X16_debounce [point; point] [] 3 2 palm point H1 H2)
    as (Hstable & Hnone & _).
  split; [exact Hstable |].
  apply Hnone; [reflexivity | discriminate | lia].
Defined.

End Debounce.

(* ================================================================== *)
(** * The classifier read by the index finger *)
(* ================================================================== *)

Section ClassifierCases.

(** X17.  What the classifier returns, by the index finger.  It never
    returns [fist].  With the index finger extended the result is one of
    palm, point, draw, peace, rock and three (never [none] or [tap]).
    With the index finger folded it is [palm] when the four other fingers
    are all extended, [tap] when the thumb alone is, and [none]
    otherwise. *)
Theorem X17_gesture_by_index (landmarks : list Landmark) (f : Fingers) :
  fingers landmarks = Some f ->
  exists g,
    recognizeGesture landmarks = Some g /\
    g <> fist /\
    (indexExtended f = true ->
       In g [palm; point; draw; peace; rock; three]) /\
    (indexExtended f = false ->
       g = if middleExtended f && ringExtended f && pinkyExtended f
               && thumbExtended f then palm
           else if thumbExtended f
                   && negb (middleExtended f || ringExtended f
                            || pinkyExtended f) then tap
           else none).
Proof.
  unfold fingers, recognizeGesture.
  destruct (keyPoints landmarks) as [k |]; [| discriminate].
  simpl. intros [= <-].
  exists (classify (fingersOf k) (fingersClose k)).
  split; [reflexivity |].
  generalize (fingersOf k) (fingersClose k).
  intros [[] [] [] [] []] [];
    (split; [discriminate |
       split; intros H; simpl in H; try discriminate H;
         first [reflexivity | cbv; auto 10]]).
Qed.

Lemma X17_gesture_by_index_witness :
  fingers fourFingersUp = Some (mkFingers true true true true false) /\
  exists g, recognizeGesture fourFingersUp = Some g /\
            In g [palm; point; draw; peace; rock; three].
Proof.
  assert (H : fingers fourFingersUp
              = Some (mkFingers true true true true false))
    by reflexivity.
  split; [exact H |].
  destruct (@X17_gesture_by_index fourFingersUp _ H)
    as (g & Hg & _ & Hin & _).
  exists g. split; [exact Hg | apply Hin; reflexivity].
Defined.

(** X18.  The two classifiers differ on one hand shape only: where the
    classifier of camera-gesture.js returns [tap] (the thumb alone
    extended) the variant returns [none]; on every other landmark list
    they return the same label, and they throw on the same lists. *)
Theorem X18_variant_differs_on_tap (landmarks : list Landmark) :
  recognizeGesture_variant landmarks =
  option_map (fun g => if label_eqb g tap then none else g)
             (recognizeGesture landmarks).
Proof.
  unfold recognizeGesture, recognizeGesture_variant.
  destruct (keyPoints landmarks) as [k |]; [| reflexivity].
  simpl. f_equal.
  generalize (fingersOf k) (fingersClose k).
  intros [[] [] [] [] []] []; reflexivity.
Qed.

End ClassifierCases.

(* ================================================================== *)
(** * Colour strings *)
(* ================================================================== *)

Section ColourStrings.

Lemma hexDigit_range (c : Ascii.ascii) (d : Z) :
  Hex.hexDigit c = Some d -> (0 <= d <= 15)%Z.
Proof.
  destruct c as [[] [] [] [] [] [] [] []]; simpl; intros [= <-]; lia.
Qed.

Lemma parseHexPair_range (a b : Ascii.ascii) (n : Z) :
  Hex.parseHexPair a b = Some n -> (0 <= n <= 255)%Z.
Proof.
  unfold Hex.parseHexPair.
  destruct (Hex.hexDigit a) as [x |] eqn:Ha; [| discriminate].
  destruct (Hex.hexDigit b) as [y |] eqn:Hb; [| discriminate].
  intros E. assert (En : n = (16 * x + y)%Z) by congruence.
  pose proof (hexDigit_range _ Ha). pose proof (hexDigit_range _ Hb). lia.
Qed.

Lemma hexGroups_digits (digits : list Ascii.ascii) (r g b : Z) :
  match digits with
  | [r1; r2; g1; g2; b1; b2] =>
      match Hex.parseHexPair r1 r2, Hex.parseHexPair g1 g2,
            Hex.parseHexPair b1 b2 with
      | Some r, Some g, Some b => Some (r, g, b)
      | _, _, _ => None
      end
  | _ => None
  end = Some (r, g, b) ->
  length digits = 6%nat /\
  (0 <= r <= 255)%Z /\ (0 <= g <= 255)%Z /\ (0 <= b <= 255)%Z.
Proof.
  do 7 (destruct digits as [| ? digits]; try discriminate).
  destruct (Hex.parseHexPair a a0) as [r' |] eqn:Hr; [| discriminate].
  destruct (Hex.parseHexPair a1 a2) as [g' |] eqn:Hg; [| discriminate].
  destruct (Hex.parseHexPair a3 a4) as [b' |] eqn:Hb; [| discriminate].
  intros [= <- <- <-].
  pose proof (parseHexPair_range _ _ Hr).
  pose proof (parseHexPair_range _ _ Hg).
  pose proof (parseHexPair_range _ _ Hb). tauto.
Qed.

Lemma hexGroups_range (hex : list Ascii.ascii) (r g b : Z) :
  Hex.hexGroups hex = Some (r, g, b) ->
  (length hex = 6%nat \/ length hex = 7%nat) /\
  (0 <= r <= 255)%Z /\ (0 <= g <= 255)%Z /\ (0 <= b <= 255)%Z.
Proof.
  unfold Hex.hexGroups. intros H.
  apply hexGroups_digits in H. destruct H as (Hlen & Hrgb).
  split; [| exact Hrgb].
  destruct hex as [| c rest]; [discriminate |].
  destruct c as [[] [] [] [] [] [] [] []]; simpl in *; lia.
Qed.

Lemma byte_unit (n : Z) :
  (0 <= n <= 255)%Z -> 0 <= inject_Z n / 255 <= 1.
Proof.
  intros [H0 H1]. unfold Qdiv, Qle, inject_Z. simpl. lia.
Qed.

(** X19.  Whatever string [setColor] is given, the colour it stores is
    opaque and each of its components is a byte over 255, so between 0
    and 1.  A string that is not six hexadecimal digits with an optional
    [#], in particular every string whose length is neither 6 nor 7 such
    as the three-digit form [#fff], gives black. *)
Theorem X19_colour_from_string (e : DrawingEngine)
    (color : list Ascii.ascii) :
  let c := currentColor (setColorString e color) in
  validPixel c /\ alpha c = 1 /\
  (exists r g b : Z,
      (0 <= r <= 255)%Z /\ (0 <= g <= 255)%Z /\ (0 <= b <= 255)%Z /\
      red c == inject_Z r / 255 /\ green c == inject_Z g / 255 /\
      blue c == inject_Z b / 255) /\
  (length color <> 6%nat -> length color <> 7%nat ->
   c = mkPixel 0 0 0 1) /\
  currentColor (setColorString e Hex.shortWhite) = mkPixel 0 0 0 1.
Proof.
  cbv zeta.
  split; [| split; [| split; [| split; [| reflexivity]]]];
    unfold setColorString, Hex.hexToRgb;
    destruct (Hex.hexGroups color) as [[[r g] b] |] eqn:Hg;
    unfold setColor, withColor, validPixel;
    cbn [currentColor red green blue alpha];
    try (pose proof (hexGroups_range _ Hg) as (Hlen & Hr & Hgr & Hb);
         pose proof (byte_unit Hr); pose proof (byte_unit Hgr);
         pose proof (byte_unit Hb)).
  - lra.
  - lra.
  - reflexivity.
  - reflexivity.
  - exists r, g, b. repeat split; try tauto; reflexivity.
  - exists 0%Z, 0%Z, 0%Z. repeat split; try lia; reflexivity.
  - intros H6 H7. lia.
  - reflexivity.
Qed.

End ColourStrings.

(* ================================================================== *)
(** * The brush slider zone *)
(* ================================================================== *)

Section SliderZone.

Lemma leq_Fin (a b : Q) : leq (Fin a) (Fin b) = true <-> a <= b.
Proof.
  unfold leq, lt, Qltb. rewrite negb_involutive. apply Qle_bool_iff.
Qed.

Lemma floor_between (q : Q) (a b : Z) :
  inject_Z a <= q -> q < inject_Z (b + 1) -> (a <= Qfloor q <= b)%Z.
Proof.
  intros Ha Hb. split.
  - rewrite <- (Qfloor_Z a). now apply Qfloor_resp_le.
  - pose proof (Qfloor_le q) as Hf.
    assert (H : inject_Z (Qfloor q) < inject_Z (b + 1))
      by (eapply Qle_lt_trans; eassumption).
    rewrite <- Zlt_Qlt in H. lia.
Qed.

Lemma sliderAction_finite (l t w h x : Q) :
  0 < w ->
  sliderAction (finiteRect l t w h) (Fin x)
  = ofZ (Qfloor (1 + (x + - l) / w * 49 + (1 # 2))).
Proof.
  intros Hw. unfold sliderAction, finiteRect, div, sub, add, neg, mul,
    Math_round.
  cbn [rectLeft rectWidth].
  destruct (Qeq_bool w 0) eqn:E; [| reflexivity].
  apply Qeq_bool_iff in E. lra.
Qed.

Lemma percent_range (l w x : Q) :
  0 < w -> l <= x -> x <= l + w -> 0 <= (x + - l) / w <= 1.
Proof.
  intros Hw Hl Hr. split.
  - apply Qle_shift_div_l; [exact Hw | lra].
  - apply Qle_shift_div_r; [exact Hw | lra].
Qed.

Lemma percent_mono (l w x x' : Q) :
  0 < w -> x <= x' -> (x + - l) / w <= (x' + - l) / w.
Proof.
  intros Hw Hx. unfold Qdiv. apply Qmult_le_compat_r; [lra |].
  apply Qlt_le_weak. now apply Qinv_lt_0_compat.
Qed.

(** X20.  A tap on the brush slider.  For a slider rectangle of positive
    width, a tap that passes the zone's hit test sets an integer from 1
    to 50; the left edge gives 1, the right edge 50, and a tap further
    right never gives a smaller value. *)
Theorem X20_slider_tap (l t w h : Q) :
  0 < w ->
  let rect := finiteRect l t w h in
  sliderAction rect (rectLeft rect) = ofZ 1 /\
  sliderAction rect (rectRight rect) = ofZ 50 /\
  (forall x y, inZone rect (Fin x) (Fin y) = true ->
     exists v : Z, sliderAction rect (Fin x) = ofZ v /\ (1 <= v <= 50)%Z) /\
  (forall x x', x <= x' ->
     exists v v' : Z,
       sliderAction rect (Fin x) = ofZ v /\
       sliderAction rect (Fin x') = ofZ v' /\ (v <= v')%Z).
Proof.
  intros Hw rect. subst rect.
  assert (Hw0 : ~ w == 0) by lra.
  repeat split.
  - unfold finiteRect at 2. cbn [rectLeft].
    rewrite (sliderAction_finite l t h l Hw). f_equal.
    assert (E : 1 + (l + - l) / w * 49 + (1 # 2) == 3 # 2)
      by (unfold Qdiv; ring).
    now rewrite E.
  - unfold rectRight, finiteRect at 2 3, add. cbn [rectLeft rectWidth].
    rewrite (sliderAction_finite l t h (l + w) Hw). f_equal.
    assert (E : 1 + (l + w + - l) / w * 49 + (1 # 2) == 101 # 2)
      by (field; exact Hw0).
    now rewrite E.
  - intros x y Hz. unfold inZone in Hz.
    apply andb_prop in Hz. destruct Hz as [Hz _].
    apply andb_prop in Hz. destruct Hz as [Hz _].
    apply andb_prop in Hz. destruct Hz as [Hl Hr].
    unfold geq, rectRight, finiteRect, add in Hl, Hr.
    cbn [rectLeft rectWidth] in Hl, Hr.
    apply leq_Fin in Hl. apply leq_Fin in Hr.
    rewrite (sliderAction_finite l t h x Hw).
    eexists. split; [reflexivity |].
    destruct (percent_range Hw Hl Hr) as [H0 H1].
    apply floor_between.
    + change (inject_Z 1) with 1. lra.
    + change (inject_Z (50 + 1)) with 51. lra.
  - intros x x' Hx.
    rewrite (sliderAction_finite l t h x Hw),
            (sliderAction_finite l t h x' Hw).
    do 2 eexists. split; [reflexivity |]. split; [reflexivity |].
    apply Qfloor_resp_le.
    pose proof (percent_mono l Hw Hx). lra.
Qed.

Lemma X20_slider_tap_witness :
  0 < 100 /\
  sliderAction (finiteRect 20 10 100 8) (Fin 20) = ofZ 1 /\
  sliderAction (finiteRect 20 10 100 8) (Fin 120) = ofZ 50.
Proof.
  assert (Hw : 0 < 100) by reflexivity.
  split; [exact Hw |].
  destruct (@X20_slider_tap 20 10 100 8 Hw) as (Hl & Hr & _).
  split; [exact Hl | exact Hr].
Defined.

End SliderZone.

(* ================================================================== *)
(** * Touch pressure *)
(* ================================================================== *)

Section TouchPressure.

Lemma sum_unit (h : list number) (a : Q) :
  Forall unitPressure h ->
  exists s, fold_left add h (Fin a) = Fin s /\
            a <= s <= a + inject_Z (Z.of_nat (length h)).
Proof.
  intros Hh. revert a. induction Hh as [| p h Hp _ IH]; intros a.
  - exists a. split; [reflexivity |]. simpl. unfold inject_Z. lra.
  - destruct Hp as (q & -> & Hq0 & Hq1).
    destruct (IH (a + q)) as (s & Hs & Hs0 & Hs1).
    exists s. split; [exact Hs |].
    change (length (Fin q :: h)) with (S (length h)).
    rewrite Nat2Z.inj_succ. unfold Z.succ. rewrite inject_Z_plus.
    change (inject_Z 1) with 1. lra.
Qed.

Lemma tl_unit (h : list number) :
  Forall unitPressure h -> Forall unitPressure (tl h).
Proof. intros H. destruct H; simpl; [constructor | assumption]. Qed.

Lemma min_one_unit (q : Q) : 0 <= q -> unitPressure (Math_min (Fin q) (Fin 1)).
Proof.
  intros Hq. exists (Qmin q 1). split; [reflexivity |]. split.
  - apply Q.min_glb; lra.
  - apply Q.le_min_r.
Qed.

Lemma fromRadius_unit (radiusX radiusY : option number) :
  sizeArg radiusX -> sizeArg radiusY ->
  unitPressure
    match radiusX, radiusY with
    | Some rx, Some ry =>
        Math_min (div (div (add rx ry) (Fin 2)) (Fin 20)) (Fin 1)
    | _, _ => Fin 1
    end.
Proof.
  assert (H1 : unitPressure (Fin 1))
    by (exists 1; split; [reflexivity | lra]).
  destruct radiusX as [[rx | | |] |], radiusY as [[ry | | |] |];
    simpl; try tauto; intros Hx Hy; try exact H1.
  change (unitPressure (Math_min (Fin ((rx + ry) / 2 / 20)) (Fin 1))).
  apply min_one_unit.
  apply Qle_shift_div_l; [reflexivity |].
  apply Qle_shift_div_l; [reflexivity |]. lra.
Qed.

(** X21.  The smoothed touch pressure.  When the pressure history holds
    finite pressures between 0 and 1, at most five of them, and the touch
    reports a finite force and radii that are not negative (or none),
    [calculatePressure] returns a finite pressure between 0 and 1 and
    leaves a history of the same kind, of one to five entries. *)
Theorem X21_touch_pressure (pressureHistory : list number)
    (force radiusX radiusY : option number) :
  Forall unitPressure pressureHistory ->
  (length pressureHistory <= pressureHistorySize)%nat ->
  finiteArg force -> sizeArg radiusX -> sizeArg radiusY ->
  let '(h, p) := calculatePressure pressureHistory force radiusX radiusY in
  unitPressure p /\ Forall unitPressure h /\
  (1 <= length h <= pressureHistorySize)%nat.
Proof.
  intros Hh Hlen Hf Hx Hy. unfold calculatePressure.
  set (fromRadius := match radiusX, radiusY with
                     | Some rx, Some ry => _
                     | _, _ => Fin 1
                     end).
  assert (Hfr : unitPressure fromRadius) by now apply fromRadius_unit.
  set (pressure := match force with
                   | Some f => _
                   | None => fromRadius
                   end).
  assert (Hp : unitPressure pressure).
  { subst pressure. destruct force as [[f | | |] |]; simpl in Hf;
      try tauto; try exact Hfr.
    unfold gt, lt. destruct (Qltb 0 f) eqn:E; [| exact Hfr].
    apply Qltb_true in E.
    change (unitPressure (Math_min (Fin (f * 2)) (Fin 1))).
    apply min_one_unit. lra. }
  clearbody pressure. clear fromRadius Hfr.
  set (h := if (pressureHistorySize <? length (pressureHistory ++ [pressure]))%nat
            then tl (pressureHistory ++ [pressure])
            else pressureHistory ++ [pressure]).
  assert (Hall : Forall unitPressure (pressureHistory ++ [pressure])).
  { apply Forall_app. split; [exact Hh |]. now constructor. }
  assert (Hh' : Forall unitPressure h /\
                (1 <= length h <= pressureHistorySize)%nat).
  { subst h. unfold pressureHistorySize in *.
    destruct (Nat.ltb_spec 5 (length (pressureHistory ++ [pressure])))
      as [Hlt | Hge].
    - split; [now apply tl_unit |].
      rewrite length_app in Hlt. simpl in Hlt.
      destruct pressureHistory as [| a t]; simpl in *; [lia |].
      rewrite length_app. simpl. lia.
    - split; [exact Hall |]. rewrite length_app in *. simpl in *. lia. }
  clearbody h. destruct Hh' as (Hu & Hl1 & Hl2).
  split; [| split; [exact Hu | split; assumption]].
  destruct (sum_unit 0 Hu) as (s & Hs & Hs0 & Hs1).
  rewrite Hs. unfold div, ofZ.
  assert (Hn : 1 <= inject_Z (Z.of_nat (length h))).
  { change 1 with (inject_Z 1). rewrite <- Zle_Qle. lia. }
  destruct (Qeq_bool (inject_Z (Z.of_nat (length h))) 0) eqn:E.
  - apply Qeq_bool_iff in E. lra.
  - exists (s / inject_Z (Z.of_nat (length h))).
    split; [reflexivity |]. split.
    + apply Qle_shift_div_l; lra.
    + apply Qle_shift_div_r; lra.
Qed.

Lemma X21_touch_pressure_witness :
  unitPressure (snd (calculatePressure [Fin 1] (Some (Fin (1 # 4))) None None)).
Proof.
  assert (Hh : Forall unitPressure [Fin 1]).
  { constructor; [| constructor]. exists 1. split; [reflexivity | lra]. }
  assert (Hlen : (length [Fin 1] <= pressureHistorySize)%nat)
    by (unfold pressureHistorySize; simpl; lia).
  pose proof (@X21_touch_pressure [Fin 1] (Some (Fin (1 # 4))) None None
                Hh Hlen I I I) as H.
  destruct (calculatePressure [Fin 1] (Some (Fin (1 # 4))) None None)
    as [h p].
  exact (proj1 H).
Defined.

End TouchPressure.

(* ================================================================== *)
(** * Frames with the hand in view are processed to the end *)
(* ================================================================== *)

Section FramesReturn.

Variable fanCovers : Z -> Z -> bool.

Local Abbreviation startStroke := (startStroke fanCovers).
Local Abbreviation continueStroke := (continueStroke fanCovers).
Local Abbreviation drawLine := (drawLine fanCovers).
Local Abbreviation startDrawing := (startDrawing fanCovers).
Local Abbreviation continueDrawing := (continueDrawing fanCovers).
Local Abbreviation handleDrawingMovement :=
  (handleDrawingMovement fanCovers).
Local Abbreviation processGestures := (processGestures fanCovers).
Local Abbreviation onFrame := (onFrame fanCovers).
Local Abbreviation onFrames := (onFrames fanCovers).

Lemma nearSurface_sameControl (e e' : DrawingEngine) (x y : number) :
  sameControl e e' -> nearSurface e x y -> nearSurface e' x y.
Proof.
  unfold sameControl, nearSurface. intros (-> & -> & _). tauto.
Qed.

Lemma boundedStroke_sameControl (e e' : DrawingEngine) :
  sameControl e e' -> boundedStroke e -> boundedStroke e'.
Proof.
  unfold sameControl, boundedStroke, nearSurface.
  intros (-> & -> & _ & _ & _ & _ & -> & _ & -> & -> & _). tauto.
Qed.

(** a stroke that has ended, or not begun *)
Lemma boundedStroke_idle (e e' : DrawingEngine) :
  canvasWidth e' = canvasWidth e -> canvasHeight e' = canvasHeight e ->
  smoothingFactor e' = smoothingFactor e ->
  lastPoint e' = None -> strokePoints e' = [] ->
  boundedStroke e -> boundedStroke e'.
Proof.
  unfold boundedStroke. intros -> -> -> -> -> (Hw & Hh & Hs & _ & _).
  repeat split; try tauto; try discriminate. constructor.
Qed.

Lemma last_elem_In {A} (l : list A) (a : A) : last_elem l = Some a -> In a l.
Proof. unfold last_elem. apply nth_error_In. Qed.

Lemma smoothPoint_near (e : DrawingEngine) (x y : number) :
  boundedStroke e -> nearSurface e x y ->
  nearSurface e (px (smoothPoint e x y)) (py (smoothPoint e x y)).
Proof.
  intros (_ & _ & Hs & _ & Hall) Hxy. unfold smoothPoint.
  destruct (length (strokePoints e) <? 2)%nat; [exact Hxy |].
  destruct (last_elem (strokePoints e)) as [sp |] eqn:Hl; [| exact Hxy].
  apply last_elem_In in Hl.
  rewrite Forall_forall in Hall.
  destruct (Hall sp Hl) as (a & b & -> & -> & Ha & Hb).
  destruct Hxy as (qx & qy & -> & -> & Hx & Hy).
  cbn [px py add mul sub neg].
  exists (a + (qx + - a) * smoothingFactor e),
         (b + (qy + - b) * smoothingFactor e).
  split; [reflexivity |]. split; [reflexivity |].
  pose proof (@between a qx (smoothingFactor e) (-1)
                (inject_Z (canvasWidth e) + 1) Ha Hx Hs) as H1.
  pose proof (@between b qy (smoothingFactor e) (-1)
                (inject_Z (canvasHeight e) + 1) Hb Hy Hs) as H2.
  unfold Qminus in H1, H2. split; assumption.
Qed.

Lemma recorded_withLastPoint_bounded (e d : DrawingEngine) (sm : Point)
    (p : number) :
  boundedStroke e -> nearSurface e (px sm) (py sm) ->
  sameControl (recorded e sm p) d ->
  boundedStroke (withLastPoint d (Some sm)).
Proof.
  intros (Hw & Hh & Hs & _ & Hsp) Hsm Hc.
  destruct Hc as (Hcw & Hch & _ & _ & _ & _ & _ & _ & Hstroke & Hsf & _).
  unfold boundedStroke, nearSurface in *.
  cbn [canvasWidth canvasHeight smoothingFactor lastPoint strokePoints
       withLastPoint].
  rewrite Hcw, Hch, Hsf, Hstroke.
  unfold recorded. simpl.
  repeat split; try tauto.
  - intros lp [= <-]. exact Hsm.
  - apply Forall_app. split; [exact Hsp |]. constructor; [exact Hsm |].
    constructor.
Qed.

(** a sample near the surface, in a bounded stroke: [continueStroke]
    returns, and the stroke is bounded again *)
Lemma continueStroke_bounded (e : DrawingEngine) (x y p : number) :
  boundedStroke e -> nearSurface e x y ->
  exists e', continueStroke e x y p = Some e' /\ boundedStroke e'.
Proof.
  intros Hb Hxy. destruct (isDrawing e) eqn:Hd.
  - assert (Hb' : boundedStroke (setPressure e p)) by exact Hb.
    pose proof (@smoothPoint_near (setPressure e p) x y Hb' Hxy) as Hsm.
    change (nearSurface e (px (smoothPoint (setPressure e p) x y))
              (py (smoothPoint (setPressure e p) x y))) in Hsm.
    destruct (lastPoint e) as [lp |] eqn:Hl.
    + rewrite (@continueStroke_drawing fanCovers e x y p lp Hd Hl).
      cbv zeta.
      set (sm := smoothPoint (setPressure e p) x y) in *.
      destruct Hb as (Hw & Hh & Hs & Hlp & Hsp).
      destruct (Hlp lp Hl) as (qx & qy & Hqx & Hqy & _).
      destruct Hsm as (mx & my & Hmx & Hmy & Hmxr & Hmyr).
      rewrite Hqx, Hqy, Hmx, Hmy.
      destruct (@drawLine_finite fanCovers (recorded e sm p)
                  qx qy mx my) as [d Hline].
      rewrite Hline. simpl. eexists. split; [reflexivity |].
      apply (@recorded_withLastPoint_bounded e d sm p).
      * repeat split; assumption || tauto.
      * exists mx, my. repeat split; tauto.
      * exact (@drawLine_sameControl fanCovers _ _ _ _ _ _ Hline).
    + unfold continueStroke. rewrite Hd. simpl. rewrite Hl. simpl.
      eexists. split; [reflexivity |].
      apply (@recorded_withLastPoint_bounded e _ _ p Hb Hsm).
      apply sameControl_refl.
  - unfold continueStroke. rewrite Hd. simpl. eauto.
Qed.

Lemma startStroke_bounded (e : DrawingEngine) (x y p : number) :
  boundedStroke e -> nearSurface e x y ->
  boundedStroke (startStroke e x y p).
Proof.
  intros (Hw & Hh & Hs & _ & _) Hxy.
  destruct (@startStroke_control fanCovers e x y p)
    as (_ & _ & Hsp & Hlp).
  assert (Hc : sameControl
                 (setPressure
                    (withStrokePoints
                       (withLastPoint (withIsDrawing e true)
                          (Some (mkPoint x y)))
                       [mkStrokePoint x y p]) p)
                 (startStroke e x y p))
    by apply drawPoint_sameControl.
  destruct Hc as (Hcw & Hch & _ & _ & _ & _ & _ & _ & _ & Hsf & _).
  simpl in Hcw, Hch, Hsf.
  unfold boundedStroke, nearSurface in *.
  rewrite Hcw, Hch, Hsf, Hsp, Hlp.
  repeat split; try tauto.
  - intros lp [= <-]. exact Hxy.
  - constructor; [exact Hxy | constructor].
Qed.

Lemma endStroke_bounded (e : DrawingEngine) :
  boundedStroke e -> boundedStroke (endStroke e).
Proof. apply boundedStroke_idle; reflexivity. Qed.

(** the index tip of a frame in view, mapped onto the canvas *)
Lemma mapped_tip_near (e : DrawingEngine) (tx ty : Q) :
  boundedStroke e -> 0 <= tx <= 1 -> 0 <= ty <= 1 ->
  nearSurface e (mapX (Fin tx) (ofZ (canvasWidth e)))
                (mapY (Fin ty) (ofZ (canvasHeight e))).
Proof.
  intros (Hw & Hh & _) Hx Hy.
  assert (Hqw : 0 <= inject_Z (canvasWidth e)).
  { change 0 with (inject_Z 0). rewrite <- Zle_Qle. tauto. }
  assert (Hqh : 0 <= inject_Z (canvasHeight e)).
  { change 0 with (inject_Z 0). rewrite <- Zle_Qle. tauto. }
  exists ((1 + - tx) * inject_Z (canvasWidth e)),
         (ty * inject_Z (canvasHeight e)).
  split; [reflexivity |]. split; [reflexivity |].
  split; split; nra.
Qed.

Lemma handleGestureChange_bounded (d : Detector) (g : option GestureLabel) :
  boundedStroke (detEngine d) ->
  boundedStroke (detEngine (handleGestureChange d g)).
Proof.
  intros Hb.
  assert (Hend : boundedStroke (detEngine (endDrawing d))).
  { unfold endDrawing. destruct (detIsDrawing d); simpl; [| exact Hb].
    now apply endStroke_bounded. }
  destruct g as [[] |]; simpl; try exact Hend; exact Hb.
Qed.

Lemma startDrawing_bounded (d : Detector) (tip : Landmark) (tx ty : Q) :
  boundedStroke (detEngine d) ->
  lx tip = Fin tx -> ly tip = Fin ty -> 0 <= tx <= 1 -> 0 <= ty <= 1 ->
  boundedStroke (detEngine (startDrawing d tip)).
Proof.
  intros Hb Htx Hty Hx Hy. unfold startDrawing.
  destruct (detIsDrawing d); [exact Hb |].
  cbn [detEngine]. rewrite Htx, Hty.
  apply startStroke_bounded; [exact Hb |].
  now apply mapped_tip_near.
Qed.

Lemma uiEffect_bounded (a : UiAction) (e : DrawingEngine) :
  boundedStroke e -> boundedStroke (uiEffect a e).
Proof. destruct a; intros H; exact H. Qed.

Lemma handleDrawingMovement_bounded (d : Detector) (tip : Landmark)
    (tapped : option UiAction) (tx ty : Q) :
  boundedStroke (detEngine d) ->
  lx tip = Fin tx -> ly tip = Fin ty -> 0 <= tx <= 1 -> 0 <= ty <= 1 ->
  exists d', handleDrawingMovement d tip tapped = Done d'
             /\ boundedStroke (detEngine d').
Proof.
  intros Hb Htx Hty Hx Hy. unfold handleDrawingMovement.
  destruct (isDrawingGesture (currentGesture d) && negb (detIsDrawing d)).
  { eexists. split; [reflexivity |].
    now apply (@startDrawing_bounded d tip tx ty). }
  assert (Hmove : exists d1,
            (if detIsDrawing d
             then continueDrawing d
                    (mapX (lx tip) (ofZ (canvasWidth (detEngine d))))
                    (mapY (ly tip) (ofZ (canvasHeight (detEngine d))))
             else Done d) = Done d1 /\ boundedStroke (detEngine d1)).
  { destruct (detIsDrawing d) eqn:Hd; [| eauto].
    unfold continueDrawing. rewrite Hd. simpl. rewrite Htx, Hty.
    destruct (@continueStroke_bounded (detEngine d)
                (mapX (Fin tx) (ofZ (canvasWidth (detEngine d))))
                (mapY (Fin ty) (ofZ (canvasHeight (detEngine d))))
                (Fin 1) Hb (mapped_tip_near Hb Hx Hy))
      as (e' & He' & Hb').
    rewrite He'. eexists. split; [reflexivity | exact Hb']. }
  destruct Hmove as (d1 & -> & Hb1).
  eexists. split; [reflexivity |]. cbn [detEngine].
  destruct tapped as [a |]; [| exact Hb1].
  destruct (gesture_eqb (currentGesture d1) (Some tap)); [| exact Hb1].
  cbn [withDetEngine detEngine]. now apply uiEffect_bounded.
Qed.

Lemma processGestures_bounded (d : Detector) (landmarks : list Landmark)
    (tapped : option UiAction) :
  boundedStroke (detEngine d) -> frameInView (Hand landmarks tapped) ->
  exists d', processGestures d landmarks tapped = Done d'
             /\ boundedStroke (detEngine d').
Proof.
  intros Hb (Hlen & tip & tx & ty & Htip & Htx & Hty & Hx & Hy).
  destruct (keyPoints_defined landmarks Hlen) as [k Hk].
  unfold processGestures, recognizeGesture. rewrite Hk, Htip. cbv zeta.
  set (g := classify (fingersOf k) (fingersClose k)).
  set (h := pushHistory (detHistory d) (stabilityFrames d) g).
  set (stable := getStableGesture h (stabilityFrames d)).
  cbn [detIsDrawing currentGesture detHistory stabilityFrames lastFingerPos
       detEngine].
  set (d2 := if gesture_eqb stable (currentGesture d) then _ else _).
  assert (Hb2 : boundedStroke (detEngine d2)).
  { subst d2. destruct (gesture_eqb stable (currentGesture d));
      [exact Hb | now apply handleGestureChange_bounded]. }
  destruct (gesture_eqb stable (Some none)); [eauto |].
  now apply (@handleDrawingMovement_bounded _ tip tapped tx ty).
Qed.

Lemma noHand_bounded (d : Detector) :
  boundedStroke (detEngine d) -> boundedStroke (detEngine (noHand d)).
Proof.
  intros Hb. unfold noHand, endDrawing.
  destruct (detIsDrawing d); simpl; [| exact Hb].
  now apply endStroke_bounded.
Qed.

(** X22.  The camera loop comes to the end of every frame with the hand
    in view.  On a canvas of at most 2^31 pixels each way with a
    smoothing factor in [0, 1], from a detector whose stroke in progress
    has its points within one pixel of the surface, a sequence of frames
    that are either without a hand or carry 21 landmarks with the index
    tip inside the camera frame is processed to the end: no frame throws,
    every line has a finite number of steps, and the points of the stroke
    in progress are within one pixel of the surface again. *)
Theorem X22_frames_return (d : Detector) (fs : list Frame) :
  boundedStroke (detEngine d) -> Forall frameInView fs ->
  exists d', onFrames d fs = Done d' /\ boundedStroke (detEngine d').
Proof.
  intros Hb Hfs. revert d Hb.
  induction Hfs as [| f fs Hf _ IH]; intros d Hb.
  - exists d. now split.
  - change (onFrames d (f :: fs))
      with (match onFrame d f with
            | Done d' => onFrames d' fs
            | Throws => Throws
            | Hangs => Hangs
            end).
    destruct f as [landmarks tapped |].
    + change (onFrame d (Hand landmarks tapped))
        with (processGestures d landmarks tapped).
      destruct (@processGestures_bounded d landmarks tapped Hb Hf)
        as (d1 & -> & Hb1).
      now apply IH.
    + change (onFrame d NoHand) with (Done (A := Detector) (noHand d)).
      apply IH. now apply noHand_bounded.
Qed.

End FramesReturn.

Lemma engine0_bounded : boundedStroke engine0.
Proof.
  unfold boundedStroke.
  split; [vm_compute; split; discriminate |].
  split; [vm_compute; split; discriminate |].
  split; [vm_compute; split; discriminate |].
  split; [intros lp H; vm_compute in H; discriminate H | constructor].
Qed.

Lemma X22_frames_return_witness :
  boundedStroke (detEngine detector0) /\
  Forall frameInView [Hand fourFingersUp None; NoHand] /\
  exists d', onFrames noFan detector0
               [Hand fourFingersUp None; NoHand] = Done d'.
Proof.
  assert (Hb : boundedStroke (detEngine detector0)) by exact engine0_bounded.
  assert (Hfs : Forall frameInView [Hand fourFingersUp None; NoHand]).
  { constructor; [| constructor; [exact I | constructor]].
    split; [reflexivity |].
    eexists. eexists. eexists. split; [reflexivity |].
    split; [reflexivity |]. split; [reflexivity |].
    split; split; discriminate. }
  split; [exact Hb |]. split; [exact Hfs |].
  destruct (@X22_frames_return noFan detector0 _ Hb Hfs) as (d' & Hd' & _).
  exists d'. exact Hd'.
Defined.

(* ================================================================== *)
(** * The mouse path of GestureHandler *)
(* ================================================================== *)

Section MouseFacts.

Variable fanCovers : Z -> Z -> bool.

Local Abbreviation startStroke := (startStroke fanCovers).
Local Abbreviation continueStroke := (continueStroke fanCovers).
Local Abbreviation startGesture := (startGesture fanCovers).
Local Abbreviation continueGesture := (continueGesture fanCovers).
Local Abbreviation handleMouse := (handleMouse fanCovers).
Local Abbreviation handleMouseEvents :=
  (handleMouseEvents fanCovers).

Lemma getCanvasCoordinates_finite (e : DrawingEngine) (l t w h cx cy : Q) :
  0 < w -> 0 < h ->
  getCanvasCoordinates e (finiteRect l t w h) (Fin cx) (Fin cy)
  = mkPoint (Fin ((cx + - l) * (inject_Z (canvasWidth e) / w)))
            (Fin ((cy + - t) * (inject_Z (canvasHeight e) / h))).
Proof.
  intros Hw Hh. unfold getCanvasCoordinates, finiteRect, div, ofZ.
  cbn [rectLeft rectTop rectWidth rectHeight].
  destruct (Qeq_bool w 0) eqn:Ew; [apply Qeq_bool_iff in Ew; lra |].
  destruct (Qeq_bool h 0) eqn:Eh; [apply Qeq_bool_iff in Eh; lra |].
  reflexivity.
Qed.

(** a pointer inside the rectangle lands on the surface *)
Lemma scaled_inside (c n w : Q) :
  1 <= w -> 0 <= n -> 0 <= c <= w -> 0 <= c * (n / w) <= n.
Proof.
  intros Hw Hn [Hc0 Hc1].
  assert (Hq : c * (n / w) == n * (c / w)) by (field; lra).
  rewrite Hq.
  assert (H0 : 0 <= c / w) by (apply Qle_shift_div_l; lra).
  assert (H1 : c / w <= 1) by (apply Qle_shift_div_r; lra).
  split; nra.
Qed.

Lemma pointer_near (e : DrawingEngine) (l t w h cx cy : Q) :
  boundedStroke e -> 1 <= w -> 1 <= h ->
  0 <= cx - l <= w -> 0 <= cy - t <= h ->
  nearSurface e (Fin ((cx + - l) * (inject_Z (canvasWidth e) / w)))
                (Fin ((cy + - t) * (inject_Z (canvasHeight e) / h))).
Proof.
  intros (Hcw & Hch & _) Hw Hh Hx Hy.
  assert (Hqw : 0 <= inject_Z (canvasWidth e)).
  { change 0 with (inject_Z 0). rewrite <- Zle_Qle. tauto. }
  assert (Hqh : 0 <= inject_Z (canvasHeight e)).
  { change 0 with (inject_Z 0). rewrite <- Zle_Qle. tauto. }
  eexists. eexists. split; [reflexivity |]. split; [reflexivity |].
  pose proof (@scaled_inside (cx + - l) (inject_Z (canvasWidth e)) w
                Hw Hqw Hx) as H1.
  pose proof (@scaled_inside (cy + - t) (inject_Z (canvasHeight e)) h
                Hh Hqh Hy) as H2.
  split; split; lra.
Qed.

Lemma handleMouse_invariant (h : GestureHandler) (ev : MouseEvent) :
  handlerInvariant h -> overCanvas ev ->
  exists h', handleMouse h ev = Done h' /\ handlerInvariant h'
             /\ afterMouse (kind ev) h h'.
Proof.
  intros [Hflag Hb]
         (cx & cy & l & t & w & hh & Hcx & Hcy & Hrect & Hw & Hh & Hin).
  assert (Hw0 : 0 < w) by lra. assert (Hh0 : 0 < hh) by lra.
  unfold handleMouse. rewrite Hrect, Hcx, Hcy.
  rewrite (getCanvasCoordinates_finite (ghEngine h) l t cx cy Hw0 Hh0).
  cbn [px py].
  set (x := (cx + - l) * (inject_Z (canvasWidth (ghEngine h)) / w)).
  set (y := (cy + - t) * (inject_Z (canvasHeight (ghEngine h)) / hh)).
  destruct (kind ev) eqn:Hk.
  - assert (Hnear : nearSurface (ghEngine h) (Fin x) (Fin y)).
    { destruct Hin as [Hx Hy]; [discriminate |].
      now apply pointer_near. }
    eexists. split; [reflexivity |]. unfold startGesture.
    destruct (@startStroke_control fanCovers (ghEngine h)
                (Fin x) (Fin y) (Fin 1)) as (Hd & _).
    split; [| reflexivity]. split; cbn [ghIsDrawing ghEngine].
    + now rewrite Hd.
    + now apply startStroke_bounded.
  - destruct (ghIsDrawing h) eqn:Hd; cbn [negb].
    + assert (Hnear : nearSurface (ghEngine h) (Fin x) (Fin y)).
      { destruct Hin as [Hx Hy]; [discriminate |].
        now apply pointer_near. }
      unfold continueGesture, calculateVelocity.
      cbn [ghEngine ghIsDrawing gestureStartTime gestureStartPos
           lastMoveTime velocity pressureHistory].
      destruct (@continueStroke_bounded fanCovers (ghEngine h)
                  (Fin x) (Fin y) (Fin 1) Hb Hnear) as (e' & He' & Hb').
      rewrite He'. eexists. split; [reflexivity |].
      destruct (@continueStroke_drawing_control fanCovers
                  (ghEngine h) e' (Fin x) (Fin y) (Fin 1) He' (eq_sym Hflag))
        as [Hd' _].
      split; [| split; [reflexivity | intros Hidle; congruence]].
      split; cbn [ghIsDrawing ghEngine]; [now rewrite Hd' | exact Hb'].
    + exists h. split; [reflexivity |].
      split; [split; [congruence | exact Hb] |]. now split.
  - destruct (ghIsDrawing h) eqn:Hd; cbn [negb].
    + eexists. split; [reflexivity |]. unfold endGesture.
      split; [| split; [reflexivity | intros Hidle; congruence]].
      split; cbn [ghIsDrawing ghEngine].
      * reflexivity.
      * now apply endStroke_bounded.
    + exists h. split; [reflexivity |].
      split; [split; [congruence | exact Hb] |]. now split.
Qed.

(** X23.  A mouse session of the touch-and-mouse handler, on a canvas of
    at most 2^31 pixels each way whose layout rectangle is at least one
    pixel wide and high.  From a handler whose drawing flag is the
    engine's and whose stroke in progress has its points within one
    pixel of the surface, every sequence of mouse events with the
    pointer over the canvas at each press and move is handled to the
    end, and leaves such a handler again.  After a press a stroke is in
    progress, after a release (or the pointer leaving) none is; a move or
    a release met with no stroke in progress changes nothing. *)
Theorem X23_mouse_session (h : GestureHandler) (evs : list MouseEvent) :
  handlerInvariant h -> Forall overCanvas evs ->
  exists h',
    handleMouseEvents h evs = Done h' /\ handlerInvariant h' /\
    (forall evs0 ev, evs = evs0 ++ [ev] ->
       match kind ev with
       | MouseDown => isDrawing (ghEngine h') = true
       | MouseUp => isDrawing (ghEngine h') = false
       | MouseMove => True
       end) /\
    (forall ev, evs = [ev] -> kind ev <> MouseDown ->
       ghIsDrawing h = false -> h' = h).
Proof.
  intros Hinv Hevs. revert h Hinv.
  induction Hevs as [| ev evs Hev _ IH]; intros h Hinv.
  - exists h. split; [reflexivity |]. split; [exact Hinv |].
    split.
    + intros [| ? ?] ev H; discriminate H.
    + intros ev H; discriminate H.
  - change (handleMouseEvents h (ev :: evs))
      with (match handleMouse h ev with
            | Done h' => handleMouseEvents h' evs
            | Throws => Throws
            | Hangs => Hangs
            end).
    destruct (handleMouse_invariant Hinv Hev) as (h1 & E1 & Hinv1 & Hafter).
    rewrite E1.
    destruct (IH h1 Hinv1) as (h' & E & Hinv' & Hlast & _).
    exists h'. split; [exact E |]. split; [exact Hinv' |]. split.
    + intros evs0 ev' Heq.
      destruct evs0 as [| ev0 evs0].
      * injection Heq as <- ->.
        change (handleMouseEvents h1 []) with (Done h1) in E.
        injection E as <-.
        destruct Hinv1 as [Hflag1 _].
        unfold afterMouse in Hafter.
        destruct (kind ev); [congruence | exact I |].
        destruct Hafter as [Hup _]. congruence.
      * injection Heq as _ ->. exact (Hlast evs0 ev' eq_refl).
    + intros ev' Heq Hk Hidle. injection Heq as <- ->.
      change (handleMouseEvents h1 []) with (Done h1) in E.
      injection E as <-.
      unfold afterMouse in Hafter.
      destruct (kind ev); [congruence | |];
        destruct Hafter as [_ Hsame]; exact (Hsame Hidle).
Qed.

End MouseFacts.

Lemma X23_mouse_session_witness :
  handlerInvariant (newHandler engine0) /\
  Forall overCanvas dragEvents /\
  exists h', handleMouseEvents noFan (newHandler engine0)
               dragEvents = Done h' /\
             isDrawing (ghEngine h') = false.
Proof.
  assert (Hinv : handlerInvariant (newHandler engine0)).
  { split; [reflexivity | exact engine0_bounded]. }
  assert (Hevs : Forall overCanvas dragEvents).
  { repeat constructor.
    - exists 10, 10, 0, 0, 400, 300.
      repeat split; try reflexivity; try discriminate.
    - exists 20, 10, 0, 0, 400, 300.
      repeat split; try reflexivity; try discriminate.
    - exists 20, 10, 0, 0, 400, 300.
      repeat split; try reflexivity; try discriminate. }
  split; [exact Hinv |]. split; [exact Hevs |].
  destruct (@X23_mouse_session noFan (newHandler engine0)
              dragEvents Hinv Hevs) as (h' & E & _ & Hlast & _).
  exists h'. split; [exact E |].
  exact (Hlast (firstn 2 dragEvents)
           (mkMouseEvent MouseUp (Fin 20) (Fin 10) (finiteRect 0 0 400 300)
              (Fin 1032)) eq_refl).
Defined.
